(** * Learneitaa: level generation, answer validation and progression

    A shallow embedding of the game logic of [main.js] (class [App]) and of
    the service worker [sw.js], the properties of the specification that
    were checked against them, and further properties of the code.

    Conventions of the embedding.
    - [this] becomes an explicit record [App] passed from state to state; the
      fields keep their JavaScript names.  The pieces of the browser the
      logic reads and writes are fields of the same record: the
      [localStorage] entry, the children of [#game-content], the callbacks
      registered with [setTimeout], the feedback overlay and the source of
      [Math.random].
    - JavaScript numbers are natural numbers ([timeLeft] is an integer): the
      program only builds small non-negative integers, on which doubles are
      exact.  The argument of [numberToWords] is the one number that can be
      of any size; [JS.toString] follows the doubles beyond the safe
      integers.
    - Sound, speech, confetti and animations do not feed back into the logic
      and are left out.
    - A [while] loop whose exit depends on the random draws takes the number
      of iterations it may run as an argument and answers [None] when it is
      still running after that many. *)

From Stdlib Require Import String Ascii List Arith ZArith Lia DecimalString DecimalNat.
From Equations Require Import Equations.
From stdpp Require Import gmap strings list fin_maps sorting.

Open Scope string_scope.
Open Scope nat_scope.
Open Scope list_scope.

(** ** JavaScript primitives used by the program *)

Module JS.

(** [s.split('')] *)
Definition split (s : string) : list ascii := list_ascii_of_string s.

(** [chars.join('')] *)
Definition unsplit (l : list ascii) : string := string_of_list_ascii l.

(** [array.join(sep)] *)
Fixpoint join (sep : string) (l : list string) : string :=
  match l with
  | [] => ""
  | [x] => x
  | x :: rest => x +:+ sep +:+ join sep rest
  end.

(** [s.includes(c)] for a needle [c] of one character. *)
Fixpoint includes (s : string) (c : ascii) : bool :=
  match s with
  | EmptyString => false
  | String d rest => if decide (d = c) then true else includes rest c
  end.

(** [Number.MAX_SAFE_INTEGER], 2^53 - 1. *)
Definition MAX_SAFE_INTEGER : N := 9007199254740991.

(** [Number.isSafeInteger(n)] *)
Definition isSafeInteger (n : nat) : bool := (N.of_nat n <=? MAX_SAFE_INTEGER)%N.

(** The double that stands for the integer [v]: [v] itself up to 2^53 - 1;
    above, the nearest multiple of the spacing of the doubles around [v], a
    tie going to the even significand.  The largest double is 2^1024 - 2^971;
    a result of 2^1024 or more stands for [Infinity]. *)
Definition toDouble (v : N) : N :=
  if (v <=? MAX_SAFE_INTEGER)%N then v
  else
    let ulp := (2 ^ (N.log2 v - 52))%N in
    let q := (v / ulp)%N in
    let r := (v mod ulp)%N in
    if (ulp <? 2 * r)%N || ((2 * r =? ulp)%N && N.odd q)
    then ((q + 1) * ulp)%N else (q * ulp)%N.

Definition digitsOf (v : N) : string := NilZero.string_of_uint (N.to_uint v).

(** The multiple of [step] that has the double [x] as its nearest double, if
    there is one: the closer to [x] of the two around [x], the even one when
    they are as close. *)
Definition fewerDigits (x step : N) : option N :=
  let lo := (x / step * step)%N in
  let hi := (lo + step)%N in
  match (toDouble lo =? x)%N, (toDouble hi =? x)%N with
  | true, true =>
      if (x - lo <? hi - x)%N then Some lo
      else if (hi - x <? x - lo)%N then Some hi
      else if N.even (lo / step) then Some lo else Some hi
  | true, false => Some lo
  | false, true => Some hi
  | false, false => None
  end.

(** The integer with the fewest significant digits among those that have the
    double [x] as their nearest double; seventeen digits always do. *)
Definition shortest (x : N) : N :=
  let size := N.of_nat (String.length (digitsOf x)) in
  default x (head (omap (fun k => fewerDigits x (10 ^ (size - N.of_nat k))) (seq 1 17))).

Fixpoint stripZeros (l : list ascii) : list ascii :=
  match l with
  | [] => []
  | c :: rest =>
      match stripZeros rest with
      | [] => if decide (c = "0"%char) then [] else [c]
      | rest' => c :: rest'
      end
  end.

(** The digits are written out up to 21 of them, and in exponent notation
    from there. *)
Definition formatNumber (v : N) : string :=
  let ds := digitsOf v in
  let n := String.length ds in
  if decide (n ≤ 21) then ds
  else
    match stripZeros (list_ascii_of_string ds) with
    | [] => ds
    | [d] => String d ("e+" +:+ digitsOf (N.of_nat (n - 1)))
    | d :: rest =>
        String d ("." +:+ string_of_list_ascii rest +:+ "e+" +:+ digitsOf (N.of_nat (n - 1)))
    end.

(** [n.toString()] on a non-negative integer.  A safe integer gives its
    decimal digits.  A larger one is first the double that stands for it, and
    gives the shortest digits that read back as that double, in exponent
    notation from 10^21: 2^64 gives "18446744073709552000" and 10^21 gives
    "1e+21". *)
Definition toString (n : nat) : string :=
  if isSafeInteger n then NilZero.string_of_uint (Nat.to_uint n)
  else
    let x := toDouble (N.of_nat n) in
    if (2 ^ 1024 <=? x)%N then "Infinity" else formatNumber (shortest x).

(** [array.indexOf(x)], with [None] for -1. *)
Fixpoint indexOf `{EqDecision A} (x : A) (l : list A) : option nat :=
  match l with
  | [] => None
  | y :: rest => if decide (y = x) then Some 0 else S <$> indexOf x rest
  end.

(** [array.slice(0, n)] *)
Definition slice0 {A} (n : nat) (l : list A) : list A := take n l.

(** [s.slice(0, -1)] on a string. *)
Definition dropLast (s : string) : string := unsplit (removelast (split s)).

End JS.

(** ** Game types *)

Inductive GameType :=
| GUESS | TRANSLATE | SENTENCE | GRAMMAR | HANGMAN | NUM_TO_WORD | WORD_TO_NUM
| COLORS | ANIMAL | JOBS | DAYS | MONTHS | FAMILY | PLACES | OBJECTS | CLOTHES
| ADJECTIVES.

#[global] Instance GameType_eq_dec : EqDecision GameType.
Proof. solve_decision. Defined.

(** The values of the [GAME_TYPES] table: the keys of the progress map. *)
Definition GAME_TYPES (g : GameType) : string :=
  match g with
  | GUESS => "guess" | TRANSLATE => "translate" | SENTENCE => "sentence"
  | GRAMMAR => "grammar" | HANGMAN => "hangman" | NUM_TO_WORD => "numToWord"
  | WORD_TO_NUM => "wordToNum" | COLORS => "colors" | ANIMAL => "animal"
  | JOBS => "jobs" | DAYS => "days" | MONTHS => "months" | FAMILY => "family"
  | PLACES => "places" | OBJECTS => "objects" | CLOTHES => "clothes"
  | ADJECTIVES => "adjectives"
  end.

Definition allGameTypes : list GameType :=
  [GUESS; TRANSLATE; SENTENCE; GRAMMAR; HANGMAN; NUM_TO_WORD; WORD_TO_NUM;
   COLORS; ANIMAL; JOBS; DAYS; MONTHS; FAMILY; PLACES; OBJECTS; CLOTHES;
   ADJECTIVES].

(** ** The vocabulary corpus ([getVocabData]) *)

Record VocabItem := { en : string; fa : string }.
Record SentenceItem := { s_words : list string; s_fa : string }.
Record GrammarItem :=
  { words : list string; wrongIdx : nat; correct : string; options : list string }.
Record HangmanItem := { word : string; hint : string }.

Module libraries.

Definition animals : list VocabItem :=
  [
    {| en := "Cat"; fa := "گربه" |}; {| en := "Dog"; fa := "سگ" |}; {| en := "Lion"; fa := "شیر" |};
    {| en := "Elephant"; fa := "فیل" |}; {| en := "Tiger"; fa := "ببر" |}; {| en := "Rabbit"; fa := "خرگوش" |};
    {| en := "Giraffe"; fa := "زرافه" |}; {| en := "Monkey"; fa := "میمون" |}; {| en := "Snake"; fa := "مار" |};
    {| en := "Zebra"; fa := "گورخر" |}; {| en := "Panda"; fa := "پاندا" |}; {| en := "Wolf"; fa := "گرگ" |};
    {| en := "Fox"; fa := "روباه" |}; {| en := "Bear"; fa := "خرس" |}; {| en := "Eagle"; fa := "عقاب" |};
    {| en := "Dolphin"; fa := "دلفین" |}; {| en := "Shark"; fa := "کوسه" |}; {| en := "Ant"; fa := "مورچه" |};
    {| en := "Bee"; fa := "زنبور" |}; {| en := "Spider"; fa := "عنکبوت" |}; {| en := "Horse"; fa := "اسب" |};
    {| en := "Cow"; fa := "گاو" |}; {| en := "Sheep"; fa := "گوسفند" |}; {| en := "Chicken"; fa := "مرغ" |};
    {| en := "Duck"; fa := "اردک" |}; {| en := "Frog"; fa := "قورباغه" |}; {| en := "Turtle"; fa := "لاک‌پشت" |};
    {| en := "Fish"; fa := "ماهی" |}; {| en := "Whale"; fa := "وال" |}; {| en := "Octopus"; fa := "اختاپوس" |};
    {| en := "Butterfly"; fa := "پروانه" |}; {| en := "Bird"; fa := "پرنده" |}; {| en := "Parrot"; fa := "طوطی" |};
    {| en := "Mouse"; fa := "موش" |}; {| en := "Camel"; fa := "شتر" |}; {| en := "Donkey"; fa := "الاغ" |};
    {| en := "Deer"; fa := "آهو" |}; {| en := "Goat"; fa := "بز" |}; {| en := "Owl"; fa := "جغد" |};
    {| en := "Kangaroo"; fa := "کانگورو" |}
  ].

Definition jobs : list VocabItem :=
  [
    {| en := "Doctor"; fa := "دکتر" |}; {| en := "Teacher"; fa := "معلم" |}; {| en := "Engineer"; fa := "مهندس" |};
    {| en := "Pilot"; fa := "خلبان" |}; {| en := "Chef"; fa := "آشپز" |}; {| en := "Farmer"; fa := "کشاورز" |};
    {| en := "Driver"; fa := "راننده" |}; {| en := "Singer"; fa := "خواننده" |}; {| en := "Lawyer"; fa := "وکیل" |};
    {| en := "Artist"; fa := "هنرمند" |}; {| en := "Nurse"; fa := "پرستار" |}; {| en := "Police"; fa := "پلیس" |};
    {| en := "Dentist"; fa := "دندانپزشک" |}; {| en := "Baker"; fa := "نانوا" |}; {| en := "Writer"; fa := "نویسنده" |};
    {| en := "Actor"; fa := "بازیگر" |}; {| en := "Soldier"; fa := "سرباز" |}; {| en := "Scientist"; fa := "دانشمند" |};
    {| en := "Architect"; fa := "معمار" |}; {| en := "Mechanic"; fa := "مکانیک" |}; {| en := "Electrician"; fa := "برق‌کار" |};
    {| en := "Plumber"; fa := "لوله‌کش" |}; {| en := "Gardener"; fa := "باغبان" |}; {| en := "Firefighter"; fa := "آتش‌نشان" |};
    {| en := "Photographer"; fa := "عکاس" |}; {| en := "Journalist"; fa := "خبرنگار" |}; {| en := "Librarian"; fa := "کتابدار" |};
    {| en := "Coach"; fa := "مربی" |}
  ].

Definition family : list VocabItem :=
  [
    {| en := "Father"; fa := "پدر" |}; {| en := "Mother"; fa := "مادر" |}; {| en := "Brother"; fa := "برادر" |};
    {| en := "Sister"; fa := "خواهر" |}; {| en := "Grandfather"; fa := "پدربزرگ" |}; {| en := "Grandmother"; fa := "مادربزرگ" |};
    {| en := "Uncle"; fa := "عمو/دایی" |}; {| en := "Aunt"; fa := "عمه/خاله" |}; {| en := "Cousin"; fa := "پسرعمو/دخترخاله" |};
    {| en := "Son"; fa := "پسر" |}; {| en := "Daughter"; fa := "دختر" |}; {| en := "Baby"; fa := "نوزاد" |};
    {| en := "Wife"; fa := "زن (همسر)" |}; {| en := "Husband"; fa := "شوهر (همسر)" |}; {| en := "Parents"; fa := "والدین" |};
    {| en := "Children"; fa := "بچه‌ها" |}; {| en := "Grandson"; fa := "نوه پسری" |}; {| en := "Granddaughter"; fa := "نوه دختری" |};
    {| en := "Nephew"; fa := "برادرزاده/خواهرزاده" |}; {| en := "Niece"; fa := "برادرزاده/خواهرزاده" |}; {| en := "Grandparents"; fa := "پدربزرگ و مادربزرگ" |};
    {| en := "Stepfather"; fa := "ناپدری" |}; {| en := "Stepmother"; fa := "نامادری" |}; {| en := "Father-in-law"; fa := "پدرزن/پدرشوهر" |};
    {| en := "Mother-in-law"; fa := "مادرزن/مادرشوهر" |}
  ].

Definition places : list VocabItem :=
  [
    {| en := "Hospital"; fa := "بیمارستان" |}; {| en := "School"; fa := "مدرسه" |}; {| en := "Park"; fa := "پارک" |};
    {| en := "Restaurant"; fa := "رستوران" |}; {| en := "Airport"; fa := "فرودگاه" |}; {| en := "Bank"; fa := "بانک" |};
    {| en := "Library"; fa := "کتابخانه" |}; {| en := "Supermarket"; fa := "سوپرمارکت" |}; {| en := "Cinema"; fa := "سینما" |};
    {| en := "Museum"; fa := "موزه" |}; {| en := "Gym"; fa := "باشگاه" |}; {| en := "Pharmacy"; fa := "داروخانه" |};
    {| en := "Bakery"; fa := "نانوایی" |}; {| en := "Coffee shop"; fa := "کافی‌شاپ" |}; {| en := "Police station"; fa := "ایستگاه پلیس" |};
    {| en := "Hotel"; fa := "هتل" |}; {| en := "Gas station"; fa := "پمپ بنزین" |}; {| en := "Beach"; fa := "ساحل" |};
    {| en := "Stadium"; fa := "استادیوم" |}; {| en := "University"; fa := "دانشگاه" |}; {| en := "Zoo"; fa := "باغ وحش" |};
    {| en := "Theater"; fa := "تئاتر" |}; {| en := "Post office"; fa := "اداره پست" |}
  ].

Definition objects : list VocabItem :=
  [
    {| en := "Chair"; fa := "صندلی" |}; {| en := "Table"; fa := "میز" |}; {| en := "Pen"; fa := "خودکار" |};
    {| en := "Phone"; fa := "تلفن" |}; {| en := "Laptop"; fa := "لپ‌تاپ" |}; {| en := "Key"; fa := "کلید" |};
    {| en := "Bottle"; fa := "بطری" |}; {| en := "Bag"; fa := "کیف" |}; {| en := "Mirror"; fa := "آینه" |};
    {| en := "Clock"; fa := "ساعت" |}; {| en := "Lamp"; fa := "لامپ" |}; {| en := "Window"; fa := "پنجره" |};
    {| en := "Door"; fa := "در" |}; {| en := "Bed"; fa := "تخت خواب" |}; {| en := "Spoon"; fa := "قاشق" |};
    {| en := "Fork"; fa := "چنگال" |}; {| en := "Knife"; fa := "چاقو" |}; {| en := "Plate"; fa := "بشقاب" |};
    {| en := "Cup"; fa := "فنجان" |}; {| en := "Glasses"; fa := "عینک" |}; {| en := "Wallet"; fa := "کیف پول" |};
    {| en := "Umbrella"; fa := "چتر" |}; {| en := "Comb"; fa := "شانه" |}; {| en := "Towel"; fa := "حوله" |}
  ].

Definition clothes : list VocabItem :=
  [
    {| en := "Shirt"; fa := "پیراهن" |}; {| en := "Pants"; fa := "شلوار" |}; {| en := "Dress"; fa := "لباس زنانه" |};
    {| en := "Hat"; fa := "کلاه" |}; {| en := "Shoes"; fa := "کفش" |}; {| en := "Socks"; fa := "جوراب" |};
    {| en := "Jacket"; fa := "کاپشن" |}; {| en := "Coat"; fa := "کت" |}; {| en := "Skirt"; fa := "دامن" |};
    {| en := "Gloves"; fa := "دستکش" |}; {| en := "Scarf"; fa := "شال گردن" |}; {| en := "Tie"; fa := "کرافات" |};
    {| en := "Belt"; fa := "کمربند" |}; {| en := "Boots"; fa := "چکمه" |}; {| en := "Sneakers"; fa := "کفش ورزشی" |};
    {| en := "Sweater"; fa := "پلیور" |}; {| en := "Suit"; fa := "کت و شلوار" |}; {| en := "Uniform"; fa := "یونیفرم" |};
    {| en := "Jeans"; fa := "شلوار لی" |}; {| en := "Raincoat"; fa := "بارانی" |}
  ].

Definition adjectives : list VocabItem :=
  [
    {| en := "Big"; fa := "بزرگ" |}; {| en := "Small"; fa := "کوچک" |}; {| en := "Hot"; fa := "داغ" |};
    {| en := "Cold"; fa := "سرد" |}; {| en := "Happy"; fa := "خوشحال" |}; {| en := "Sad"; fa := "غمگین" |};
    {| en := "Fast"; fa := "سریع" |}; {| en := "Slow"; fa := "آهسته" |}; {| en := "New"; fa := "جدید" |};
    {| en := "Old"; fa := "قدیمی" |}; {| en := "Beautiful"; fa := "زیبا" |}; {| en := "Ugly"; fa := "زشت" |};
    {| en := "Easy"; fa := "آسان" |}; {| en := "Hard"; fa := "سخت" |}; {| en := "Good"; fa := "خوب" |};
    {| en := "Bad"; fa := "بد" |}; {| en := "Rich"; fa := "پولدار" |}; {| en := "Poor"; fa := "فقیر" |};
    {| en := "Strong"; fa := "قوی" |}; {| en := "Weak"; fa := "ضعیف" |}
  ].

Definition translate : list VocabItem :=
  [
    {| en := "Book"; fa := "کتاب" |}; {| en := "Water"; fa := "آب" |}; {| en := "Sun"; fa := "خورشید" |};
    {| en := "Moon"; fa := "ماه" |}; {| en := "Star"; fa := "ستاره" |}; {| en := "Friend"; fa := "دوست" |};
    {| en := "School"; fa := "مدرسه" |}; {| en := "House"; fa := "خانه" |}; {| en := "Bread"; fa := "نان" |};
    {| en := "Love"; fa := "عشق" |}; {| en := "Time"; fa := "زمان" |}; {| en := "Day"; fa := "روز" |};
    {| en := "Night"; fa := "شب" |}; {| en := "Earth"; fa := "زمین" |}; {| en := "Forest"; fa := "جنگل" |};
    {| en := "Mountain"; fa := "کوه" |}; {| en := "Sea"; fa := "دریا" |}; {| en := "River"; fa := "رودخانه" |};
    {| en := "Sky"; fa := "آسمان" |}; {| en := "Rain"; fa := "باران" |}; {| en := "Snow"; fa := "برف" |};
    {| en := "Wind"; fa := "باد" |}; {| en := "Fire"; fa := "آتش" |}; {| en := "Tree"; fa := "درخت" |};
    {| en := "Flower"; fa := "گل" |}; {| en := "City"; fa := "شهر" |}; {| en := "Village"; fa := "روستا" |};
    {| en := "Road"; fa := "جاده" |}; {| en := "Car"; fa := "ماشین" |}; {| en := "Plane"; fa := "هواپیما" |};
    {| en := "Boat"; fa := "قایق" |}; {| en := "Bicycle"; fa := "دوچرخه" |}; {| en := "Computer"; fa := "کامپیوتر" |};
    {| en := "Phone"; fa := "تلفن" |}; {| en := "Clock"; fa := "ساعت" |}; {| en := "Money"; fa := "پول" |}
  ].

Definition sentences : list SentenceItem :=
  [
    {| s_words := ["I"; "am"; "a"; "student"]; s_fa := "من یک دانش‌آموز هستم" |};
    {| s_words := ["The"; "cat"; "is"; "sleeping"]; s_fa := "گربه در حال خوابیدن است" |};
    {| s_words := ["We"; "love"; "English"]; s_fa := "ما انگلیسی را دوست داریم" |};
    {| s_words := ["She"; "is"; "playing"; "football"]; s_fa := "او در حال فوتبال بازی کردن است" |};
    {| s_words := ["He"; "reads"; "a"; "big"; "book"]; s_fa := "او یک کتاب بزرگ می‌خواند" |};
    {| s_words := ["They"; "go"; "to"; "school"; "everyday"]; s_fa := "آن‌ها هر روز به مدرسه می‌روند" |};
    {| s_words := ["It"; "is"; "a"; "sunny"; "beautiful"; "day"]; s_fa := "امروز یک روز آفتابی زیباست" |};
    {| s_words := ["Learning"; "languages"; "is"; "very"; "exciting"]; s_fa := "یادگیری زبان‌ها بسیار هیجان‌انگیز است" |};
    {| s_words := ["Can"; "you"; "help"; "me"; "please"]; s_fa := "آیا می‌توانید به من کمک کنید لطفاً" |};
    {| s_words := ["I"; "want"; "to"; "drink"; "some"; "water"]; s_fa := "من می‌خواهم کمی آب بنوشم" |};
    {| s_words := ["Where"; "is"; "the"; "library"]; s_fa := "کتابخانه کجاست" |};
    {| s_words := ["My"; "brother"; "works"; "in"; "a"; "bank"]; s_fa := "برادر من در یک بانک کار می‌کند" |};
    {| s_words := ["The"; "birds"; "are"; "flying"; "in"; "the"; "sky"]; s_fa := "پرندگان در آسمان پرواز می‌کنند" |};
    {| s_words := ["She"; "has"; "a"; "red"; "dress"]; s_fa := "او یک لباس قرمز دارد" |};
    {| s_words := ["We"; "watch"; "TV"; "at"; "night"]; s_fa := "ما شب‌ها تلویزیون تماشا می‌کنیم" |}
  ].

Definition grammar : list GrammarItem :=
  [
    {| words := ["She"; "don't"; "like"; "apples."]; wrongIdx := 1; correct := "doesn't"; options := ["doesn't"; "don't"; "isn't"; "doing"] |};
    {| words := ["He"; "go"; "to"; "school."]; wrongIdx := 1; correct := "goes"; options := ["goes"; "going"; "gone"; "goed"] |};
    {| words := ["They"; "is"; "happy."]; wrongIdx := 1; correct := "are"; options := ["are"; "am"; "was"; "were"] |};
    {| words := ["I"; "has"; "a"; "pen."]; wrongIdx := 1; correct := "have"; options := ["have"; "had"; "am having"; "has"] |};
    {| words := ["We"; "was"; "at"; "home."]; wrongIdx := 1; correct := "were"; options := ["were"; "are"; "been"; "was"] |};
    {| words := ["She"; "study"; "every"; "day."]; wrongIdx := 1; correct := "studies"; options := ["studies"; "studying"; "studied"; "study"] |};
    {| words := ["It"; "look"; "good."]; wrongIdx := 1; correct := "looks"; options := ["looks"; "look"; "looking"; "looked"] |};
    {| words := ["You"; "am"; "my"; "friend."]; wrongIdx := 1; correct := "are"; options := ["are"; "is"; "am"; "be"] |};
    {| words := ["Children"; "is"; "playing."]; wrongIdx := 1; correct := "are"; options := ["are"; "was"; "is"; "be"] |};
    {| words := ["I"; "sees"; "the"; "moon."]; wrongIdx := 1; correct := "see"; options := ["see"; "saw"; "seeing"; "sees"] |};
    {| words := ["He"; "never"; "eat"; "fish."]; wrongIdx := 2; correct := "eats"; options := ["eats"; "ate"; "eating"; "eat"] |};
    {| words := ["They"; "was"; "very"; "tired."]; wrongIdx := 1; correct := "were"; options := ["were"; "are"; "was"; "been"] |}
  ].

Definition hangman : list HangmanItem :=
  [
    {| word := "GALAXY"; hint := "ستاره‌ها و سیارات" |}; {| word := "PYTHON"; hint := "یک زبان برنامه‌نویسی" |};
    {| word := "GUITAR"; hint := "ساز موسیقی" |}; {| word := "ORANGE"; hint := "یک میوه نارنجی" |};
    {| word := "COMPUTER"; hint := "دستگاه هوشمند" |}; {| word := "AIRPLANE"; hint := "وسیله پرواز" |};
    {| word := "KEYBOARD"; hint := "تایپ کردن" |}; {| word := "MOUNTAIN"; hint := "بلندتر از تپه" |};
    {| word := "LIBRARY"; hint := "محل کتاب‌ها" |}; {| word := "DIAMOND"; hint := "سنگ قیمتی" |};
    {| word := "UMBRELLA"; hint := "محافظ باران" |}; {| word := "VOLCANO"; hint := "کوه آتش‌فشان" |};
    {| word := "SUNGLASS"; hint := "محافظ چشم" |}; {| word := "HOSPITAL"; hint := "محل درمان" |}
  ].

End libraries.

(** [getVocabData(category)] for the categories of word pairs; an unknown
    category gives the empty list ([libraries[category] || []]).  The three
    categories of another shape are read through [libraries.sentences],
    [libraries.grammar] and [libraries.hangman]. *)
Definition getVocabData (category : string) : list VocabItem :=
  if decide (category = "animals") then libraries.animals
  else if decide (category = "jobs") then libraries.jobs
  else if decide (category = "family") then libraries.family
  else if decide (category = "places") then libraries.places
  else if decide (category = "objects") then libraries.objects
  else if decide (category = "clothes") then libraries.clothes
  else if decide (category = "adjectives") then libraries.adjectives
  else if decide (category = "translate") then libraries.translate
  else [].

(** ** Number to words *)

Definition ones : list string :=
  ["ZERO"; "ONE"; "TWO"; "THREE"; "FOUR"; "FIVE"; "SIX"; "SEVEN"; "EIGHT";
   "NINE"; "TEN"; "ELEVEN"; "TWELVE"; "THIRTEEN"; "FOURTEEN"; "FIFTEEN";
   "SIXTEEN"; "SEVENTEEN"; "EIGHTEEN"; "NINETEEN"].

Definition tens : list string :=
  [""; ""; "TWENTY"; "THIRTY"; "FORTY"; "FIFTY"; "SIXTY"; "SEVENTY"; "EIGHTY";
   "NINETY"].

Equations? numberToWords (n : nat) : string by wf n lt :=
  numberToWords n :=
    if decide (n < 20) then ones !!! n
    else if decide (n < 100) then
      tens !!! (n / 10) +:+ (if decide (n mod 10 ≠ 0) then " " +:+ ones !!! (n mod 10) else "")
    else if decide (n < 1000) then
      ones !!! (n / 100) +:+ " HUNDRED"
        +:+ (if decide (n mod 100 ≠ 0) then " " +:+ numberToWords (n mod 100) else "")
    else JS.toString n.
Proof. pose proof (Nat.mod_upper_bound n 100). lia. Qed.

(** ** Program state *)

(** One entry of the progress map. *)
Record ProgressRecord := { level : nat; medals : nat; completed : bool }.

#[global] Instance ProgressRecord_eq_dec : EqDecision ProgressRecord.
Proof. solve_decision. Defined.

Definition freshRecord : ProgressRecord :=
  {| level := 0; medals := 0; completed := false |}.

(** What the [localStorage] entry [learnita_v3_progress] holds. *)
Inductive Stored :=
| NoItem
| Unparsable
| Document (doc : gmap string ProgressRecord).

(** The symbol passed to [showFeedback]. *)
Inductive Outcome := Succeeded | Failed.

#[global] Instance Outcome_eq_dec : EqDecision Outcome.
Proof. solve_decision. Defined.

(** The three functions the program hands to [setTimeout]. *)
Inductive Callback := CbRenderLevel | CbNextLevel | CbShowMenu.

#[global] Instance Callback_eq_dec : EqDecision Callback.
Proof. solve_decision. Defined.

(** A value handed to [checkChoice]: a string or a number. *)
Inductive Val := VStr (s : string) | VNum (n : nat).

#[global] Instance Val_eq_dec : EqDecision Val.
Proof. solve_decision. Defined.

Definition Val_toString (v : Val) : string :=
  match v with VStr s => s | VNum n => JS.toString n end.

(** A button of [#letter-pool]: its letter, [dataset.usedIdx], and whether it
    carries the classes [opacity-30 pointer-events-none]. *)
Record LetterBtn := { letter : ascii; usedIdx : option nat; spent : bool }.

(** A cell of [#sequence-display]: a fixed entry, or a [.sequence-slot] with
    its [data-idx] and its text. *)
Inductive Cell :=
| FixedCell (item : string)
| SlotCell (idx : nat) (text : string).

(** A button of [#order-pool]: its text and whether it is hidden. *)
Record PoolBtn := { poolText : string; hidden : bool }.

(** The children of [#game-content], as the render functions build them.
    Word chips of the sentence game carry the position they were rendered at,
    which identifies the button when it moves between the two containers. *)
Inductive Content :=
| Blank
| GuessView (img : string) (slots : list string) (pool : list LetterBtn)
| TranslateView (prompt : string) (opts : list string) (correctIdx : option nat)
| SentenceView (prompt : string) (target pool : list (nat * string))
| GrammarView (step : nat) (sentence : list string) (opts : list string)
| HangmanView (hintText displayWord : string) (keys : list (ascii * bool))
| ChoiceView (prompt : string) (opts : list Val) (answer : Val)
| SequenceView (title : string) (cells : list Cell) (pool : list PoolBtn).

Record App := MkApp {
  (* fields of [this] *)
  score : nat;
  currentLevel : nat;
  currentGame : option GameType;
  timerInterval : bool;
  timeLeft : Z;
  maxLevels : nat;
  progress : gmap string ProgressRecord;
  pendingGameType : option GameType;
  currentGuess : string;
  constructedSentence : list string;
  targetSentence : list string;
  currentGrammarData : option GrammarItem;
  grammarStep : nat;
  hangmanWord : string;
  guessedLetters : gset ascii;
  mistakes : nat;
  maxMistakes : nat;
  targetSequence : list string;
  missingIndices : list nat;
  fullList : list string;
  (* the browser *)
  localStorage : Stored;
  content : Content;
  gameScreenHidden : bool;
  modalHidden : bool;
  timeouts : list (Callback * nat);
  feedback : list (Outcome * string);
  random : nat -> nat;
  drawn : nat
}.

(** Assignment to one field, one function per field. *)

Definition set_score (v : nat) (a : App) : App :=
  {| score := v; currentLevel := currentLevel a; currentGame := currentGame a;
     timerInterval := timerInterval a; timeLeft := timeLeft a;
     maxLevels := maxLevels a; progress := progress a;
     pendingGameType := pendingGameType a; currentGuess := currentGuess a;
     constructedSentence := constructedSentence a;
     targetSentence := targetSentence a;
     currentGrammarData := currentGrammarData a; grammarStep := grammarStep a;
     hangmanWord := hangmanWord a; guessedLetters := guessedLetters a;
     mistakes := mistakes a; maxMistakes := maxMistakes a;
     targetSequence := targetSequence a; missingIndices := missingIndices a;
     fullList := fullList a; localStorage := localStorage a;
     content := content a; gameScreenHidden := gameScreenHidden a;
     modalHidden := modalHidden a; timeouts := timeouts a;
     feedback := feedback a; random := random a; drawn := drawn a |}.

Definition set_currentLevel (v : nat) (a : App) : App :=
  {| score := score a; currentLevel := v; currentGame := currentGame a;
     timerInterval := timerInterval a; timeLeft := timeLeft a;
     maxLevels := maxLevels a; progress := progress a;
     pendingGameType := pendingGameType a; currentGuess := currentGuess a;
     constructedSentence := constructedSentence a;
     targetSentence := targetSentence a;
     currentGrammarData := currentGrammarData a; grammarStep := grammarStep a;
     hangmanWord := hangmanWord a; guessedLetters := guessedLetters a;
     mistakes := mistakes a; maxMistakes := maxMistakes a;
     targetSequence := targetSequence a; missingIndices := missingIndices a;
     fullList := fullList a; localStorage := localStorage a;
     content := content a; gameScreenHidden := gameScreenHidden a;
     modalHidden := modalHidden a; timeouts := timeouts a;
     feedback := feedback a; random := random a; drawn := drawn a |}.

Definition set_currentGame (v : option GameType) (a : App) : App :=
  {| score := score a; currentLevel := currentLevel a; currentGame := v;
     timerInterval := timerInterval a; timeLeft := timeLeft a;
     maxLevels := maxLevels a; progress := progress a;
     pendingGameType := pendingGameType a; currentGuess := currentGuess a;
     constructedSentence := constructedSentence a;
     targetSentence := targetSentence a;
     currentGrammarData := currentGrammarData a; grammarStep := grammarStep a;
     hangmanWord := hangmanWord a; guessedLetters := guessedLetters a;
     mistakes := mistakes a; maxMistakes := maxMistakes a;
     targetSequence := targetSequence a; missingIndices := missingIndices a;
     fullList := fullList a; localStorage := localStorage a;
     content := content a; gameScreenHidden := gameScreenHidden a;
     modalHidden := modalHidden a; timeouts := timeouts a;
     feedback := feedback a; random := random a; drawn := drawn a |}.

Definition set_timerInterval (v : bool) (a : App) : App :=
  {| score := score a; currentLevel := currentLevel a;
     currentGame := currentGame a; timerInterval := v; timeLeft := timeLeft a;
     maxLevels := maxLevels a; progress := progress a;
     pendingGameType := pendingGameType a; currentGuess := currentGuess a;
     constructedSentence := constructedSentence a;
     targetSentence := targetSentence a;
     currentGrammarData := currentGrammarData a; grammarStep := grammarStep a;
     hangmanWord := hangmanWord a; guessedLetters := guessedLetters a;
     mistakes := mistakes a; maxMistakes := maxMistakes a;
     targetSequence := targetSequence a; missingIndices := missingIndices a;
     fullList := fullList a; localStorage := localStorage a;
     content := content a; gameScreenHidden := gameScreenHidden a;
     modalHidden := modalHidden a; timeouts := timeouts a;
     feedback := feedback a; random := random a; drawn := drawn a |}.

Definition set_timeLeft (v : Z) (a : App) : App :=
  {| score := score a; currentLevel := currentLevel a;
     currentGame := currentGame a; timerInterval := timerInterval a;
     timeLeft := v; maxLevels := maxLevels a; progress := progress a;
     pendingGameType := pendingGameType a; currentGuess := currentGuess a;
     constructedSentence := constructedSentence a;
     targetSentence := targetSentence a;
     currentGrammarData := currentGrammarData a; grammarStep := grammarStep a;
     hangmanWord := hangmanWord a; guessedLetters := guessedLetters a;
     mistakes := mistakes a; maxMistakes := maxMistakes a;
     targetSequence := targetSequence a; missingIndices := missingIndices a;
     fullList := fullList a; localStorage := localStorage a;
     content := content a; gameScreenHidden := gameScreenHidden a;
     modalHidden := modalHidden a; timeouts := timeouts a;
     feedback := feedback a; random := random a; drawn := drawn a |}.

Definition set_maxLevels (v : nat) (a : App) : App :=
  {| score := score a; currentLevel := currentLevel a;
     currentGame := currentGame a; timerInterval := timerInterval a;
     timeLeft := timeLeft a; maxLevels := v; progress := progress a;
     pendingGameType := pendingGameType a; currentGuess := currentGuess a;
     constructedSentence := constructedSentence a;
     targetSentence := targetSentence a;
     currentGrammarData := currentGrammarData a; grammarStep := grammarStep a;
     hangmanWord := hangmanWord a; guessedLetters := guessedLetters a;
     mistakes := mistakes a; maxMistakes := maxMistakes a;
     targetSequence := targetSequence a; missingIndices := missingIndices a;
     fullList := fullList a; localStorage := localStorage a;
     content := content a; gameScreenHidden := gameScreenHidden a;
     modalHidden := modalHidden a; timeouts := timeouts a;
     feedback := feedback a; random := random a; drawn := drawn a |}.

Definition set_progress (v : gmap string ProgressRecord) (a : App) : App :=
  {| score := score a; currentLevel := currentLevel a;
     currentGame := currentGame a; timerInterval := timerInterval a;
     timeLeft := timeLeft a; maxLevels := maxLevels a; progress := v;
     pendingGameType := pendingGameType a; currentGuess := currentGuess a;
     constructedSentence := constructedSentence a;
     targetSentence := targetSentence a;
     currentGrammarData := currentGrammarData a; grammarStep := grammarStep a;
     hangmanWord := hangmanWord a; guessedLetters := guessedLetters a;
     mistakes := mistakes a; maxMistakes := maxMistakes a;
     targetSequence := targetSequence a; missingIndices := missingIndices a;
     fullList := fullList a; localStorage := localStorage a;
     content := content a; gameScreenHidden := gameScreenHidden a;
     modalHidden := modalHidden a; timeouts := timeouts a;
     feedback := feedback a; random := random a; drawn := drawn a |}.

Definition set_pendingGameType (v : option GameType) (a : App) : App :=
  {| score := score a; currentLevel := currentLevel a;
     currentGame := currentGame a; timerInterval := timerInterval a;
     timeLeft := timeLeft a; maxLevels := maxLevels a; progress := progress a;
     pendingGameType := v; currentGuess := currentGuess a;
     constructedSentence := constructedSentence a;
     targetSentence := targetSentence a;
     currentGrammarData := currentGrammarData a; grammarStep := grammarStep a;
     hangmanWord := hangmanWord a; guessedLetters := guessedLetters a;
     mistakes := mistakes a; maxMistakes := maxMistakes a;
     targetSequence := targetSequence a; missingIndices := missingIndices a;
     fullList := fullList a; localStorage := localStorage a;
     content := content a; gameScreenHidden := gameScreenHidden a;
     modalHidden := modalHidden a; timeouts := timeouts a;
     feedback := feedback a; random := random a; drawn := drawn a |}.

Definition set_currentGuess (v : string) (a : App) : App :=
  {| score := score a; currentLevel := currentLevel a;
     currentGame := currentGame a; timerInterval := timerInterval a;
     timeLeft := timeLeft a; maxLevels := maxLevels a; progress := progress a;
     pendingGameType := pendingGameType a; currentGuess := v;
     constructedSentence := constructedSentence a;
     targetSentence := targetSentence a;
     currentGrammarData := currentGrammarData a; grammarStep := grammarStep a;
     hangmanWord := hangmanWord a; guessedLetters := guessedLetters a;
     mistakes := mistakes a; maxMistakes := maxMistakes a;
     targetSequence := targetSequence a; missingIndices := missingIndices a;
     fullList := fullList a; localStorage := localStorage a;
     content := content a; gameScreenHidden := gameScreenHidden a;
     modalHidden := modalHidden a; timeouts := timeouts a;
     feedback := feedback a; random := random a; drawn := drawn a |}.

Definition set_constructedSentence (v : list string) (a : App) : App :=
  {| score := score a; currentLevel := currentLevel a;
     currentGame := currentGame a; timerInterval := timerInterval a;
     timeLeft := timeLeft a; maxLevels := maxLevels a; progress := progress a;
     pendingGameType := pendingGameType a; currentGuess := currentGuess a;
     constructedSentence := v; targetSentence := targetSentence a;
     currentGrammarData := currentGrammarData a; grammarStep := grammarStep a;
     hangmanWord := hangmanWord a; guessedLetters := guessedLetters a;
     mistakes := mistakes a; maxMistakes := maxMistakes a;
     targetSequence := targetSequence a; missingIndices := missingIndices a;
     fullList := fullList a; localStorage := localStorage a;
     content := content a; gameScreenHidden := gameScreenHidden a;
     modalHidden := modalHidden a; timeouts := timeouts a;
     feedback := feedback a; random := random a; drawn := drawn a |}.

Definition set_targetSentence (v : list string) (a : App) : App :=
  {| score := score a; currentLevel := currentLevel a;
     currentGame := currentGame a; timerInterval := timerInterval a;
     timeLeft := timeLeft a; maxLevels := maxLevels a; progress := progress a;
     pendingGameType := pendingGameType a; currentGuess := currentGuess a;
     constructedSentence := constructedSentence a; targetSentence := v;
     currentGrammarData := currentGrammarData a; grammarStep := grammarStep a;
     hangmanWord := hangmanWord a; guessedLetters := guessedLetters a;
     mistakes := mistakes a; maxMistakes := maxMistakes a;
     targetSequence := targetSequence a; missingIndices := missingIndices a;
     fullList := fullList a; localStorage := localStorage a;
     content := content a; gameScreenHidden := gameScreenHidden a;
     modalHidden := modalHidden a; timeouts := timeouts a;
     feedback := feedback a; random := random a; drawn := drawn a |}.

Definition set_currentGrammarData (v : option GrammarItem) (a : App) : App :=
  {| score := score a; currentLevel := currentLevel a;
     currentGame := currentGame a; timerInterval := timerInterval a;
     timeLeft := timeLeft a; maxLevels := maxLevels a; progress := progress a;
     pendingGameType := pendingGameType a; currentGuess := currentGuess a;
     constructedSentence := constructedSentence a;
     targetSentence := targetSentence a; currentGrammarData := v;
     grammarStep := grammarStep a; hangmanWord := hangmanWord a;
     guessedLetters := guessedLetters a; mistakes := mistakes a;
     maxMistakes := maxMistakes a; targetSequence := targetSequence a;
     missingIndices := missingIndices a; fullList := fullList a;
     localStorage := localStorage a; content := content a;
     gameScreenHidden := gameScreenHidden a; modalHidden := modalHidden a;
     timeouts := timeouts a; feedback := feedback a; random := random a;
     drawn := drawn a |}.

Definition set_grammarStep (v : nat) (a : App) : App :=
  {| score := score a; currentLevel := currentLevel a;
     currentGame := currentGame a; timerInterval := timerInterval a;
     timeLeft := timeLeft a; maxLevels := maxLevels a; progress := progress a;
     pendingGameType := pendingGameType a; currentGuess := currentGuess a;
     constructedSentence := constructedSentence a;
     targetSentence := targetSentence a;
     currentGrammarData := currentGrammarData a; grammarStep := v;
     hangmanWord := hangmanWord a; guessedLetters := guessedLetters a;
     mistakes := mistakes a; maxMistakes := maxMistakes a;
     targetSequence := targetSequence a; missingIndices := missingIndices a;
     fullList := fullList a; localStorage := localStorage a;
     content := content a; gameScreenHidden := gameScreenHidden a;
     modalHidden := modalHidden a; timeouts := timeouts a;
     feedback := feedback a; random := random a; drawn := drawn a |}.

Definition set_hangmanWord (v : string) (a : App) : App :=
  {| score := score a; currentLevel := currentLevel a;
     currentGame := currentGame a; timerInterval := timerInterval a;
     timeLeft := timeLeft a; maxLevels := maxLevels a; progress := progress a;
     pendingGameType := pendingGameType a; currentGuess := currentGuess a;
     constructedSentence := constructedSentence a;
     targetSentence := targetSentence a;
     currentGrammarData := currentGrammarData a; grammarStep := grammarStep a;
     hangmanWord := v; guessedLetters := guessedLetters a;
     mistakes := mistakes a; maxMistakes := maxMistakes a;
     targetSequence := targetSequence a; missingIndices := missingIndices a;
     fullList := fullList a; localStorage := localStorage a;
     content := content a; gameScreenHidden := gameScreenHidden a;
     modalHidden := modalHidden a; timeouts := timeouts a;
     feedback := feedback a; random := random a; drawn := drawn a |}.

Definition set_guessedLetters (v : gset ascii) (a : App) : App :=
  {| score := score a; currentLevel := currentLevel a;
     currentGame := currentGame a; timerInterval := timerInterval a;
     timeLeft := timeLeft a; maxLevels := maxLevels a; progress := progress a;
     pendingGameType := pendingGameType a; currentGuess := currentGuess a;
     constructedSentence := constructedSentence a;
     targetSentence := targetSentence a;
     currentGrammarData := currentGrammarData a; grammarStep := grammarStep a;
     hangmanWord := hangmanWord a; guessedLetters := v; mistakes := mistakes a;
     maxMistakes := maxMistakes a; targetSequence := targetSequence a;
     missingIndices := missingIndices a; fullList := fullList a;
     localStorage := localStorage a; content := content a;
     gameScreenHidden := gameScreenHidden a; modalHidden := modalHidden a;
     timeouts := timeouts a; feedback := feedback a; random := random a;
     drawn := drawn a |}.

Definition set_mistakes (v : nat) (a : App) : App :=
  {| score := score a; currentLevel := currentLevel a;
     currentGame := currentGame a; timerInterval := timerInterval a;
     timeLeft := timeLeft a; maxLevels := maxLevels a; progress := progress a;
     pendingGameType := pendingGameType a; currentGuess := currentGuess a;
     constructedSentence := constructedSentence a;
     targetSentence := targetSentence a;
     currentGrammarData := currentGrammarData a; grammarStep := grammarStep a;
     hangmanWord := hangmanWord a; guessedLetters := guessedLetters a;
     mistakes := v; maxMistakes := maxMistakes a;
     targetSequence := targetSequence a; missingIndices := missingIndices a;
     fullList := fullList a; localStorage := localStorage a;
     content := content a; gameScreenHidden := gameScreenHidden a;
     modalHidden := modalHidden a; timeouts := timeouts a;
     feedback := feedback a; random := random a; drawn := drawn a |}.

Definition set_maxMistakes (v : nat) (a : App) : App :=
  {| score := score a; currentLevel := currentLevel a;
     currentGame := currentGame a; timerInterval := timerInterval a;
     timeLeft := timeLeft a; maxLevels := maxLevels a; progress := progress a;
     pendingGameType := pendingGameType a; currentGuess := currentGuess a;
     constructedSentence := constructedSentence a;
     targetSentence := targetSentence a;
     currentGrammarData := currentGrammarData a; grammarStep := grammarStep a;
     hangmanWord := hangmanWord a; guessedLetters := guessedLetters a;
     mistakes := mistakes a; maxMistakes := v;
     targetSequence := targetSequence a; missingIndices := missingIndices a;
     fullList := fullList a; localStorage := localStorage a;
     content := content a; gameScreenHidden := gameScreenHidden a;
     modalHidden := modalHidden a; timeouts := timeouts a;
     feedback := feedback a; random := random a; drawn := drawn a |}.

Definition set_targetSequence (v : list string) (a : App) : App :=
  {| score := score a; currentLevel := currentLevel a;
     currentGame := currentGame a; timerInterval := timerInterval a;
     timeLeft := timeLeft a; maxLevels := maxLevels a; progress := progress a;
     pendingGameType := pendingGameType a; currentGuess := currentGuess a;
     constructedSentence := constructedSentence a;
     targetSentence := targetSentence a;
     currentGrammarData := currentGrammarData a; grammarStep := grammarStep a;
     hangmanWord := hangmanWord a; guessedLetters := guessedLetters a;
     mistakes := mistakes a; maxMistakes := maxMistakes a; targetSequence := v;
     missingIndices := missingIndices a; fullList := fullList a;
     localStorage := localStorage a; content := content a;
     gameScreenHidden := gameScreenHidden a; modalHidden := modalHidden a;
     timeouts := timeouts a; feedback := feedback a; random := random a;
     drawn := drawn a |}.

Definition set_missingIndices (v : list nat) (a : App) : App :=
  {| score := score a; currentLevel := currentLevel a;
     currentGame := currentGame a; timerInterval := timerInterval a;
     timeLeft := timeLeft a; maxLevels := maxLevels a; progress := progress a;
     pendingGameType := pendingGameType a; currentGuess := currentGuess a;
     constructedSentence := constructedSentence a;
     targetSentence := targetSentence a;
     currentGrammarData := currentGrammarData a; grammarStep := grammarStep a;
     hangmanWord := hangmanWord a; guessedLetters := guessedLetters a;
     mistakes := mistakes a; maxMistakes := maxMistakes a;
     targetSequence := targetSequence a; missingIndices := v;
     fullList := fullList a; localStorage := localStorage a;
     content := content a; gameScreenHidden := gameScreenHidden a;
     modalHidden := modalHidden a; timeouts := timeouts a;
     feedback := feedback a; random := random a; drawn := drawn a |}.

Definition set_fullList (v : list string) (a : App) : App :=
  {| score := score a; currentLevel := currentLevel a;
     currentGame := currentGame a; timerInterval := timerInterval a;
     timeLeft := timeLeft a; maxLevels := maxLevels a; progress := progress a;
     pendingGameType := pendingGameType a; currentGuess := currentGuess a;
     constructedSentence := constructedSentence a;
     targetSentence := targetSentence a;
     currentGrammarData := currentGrammarData a; grammarStep := grammarStep a;
     hangmanWord := hangmanWord a; guessedLetters := guessedLetters a;
     mistakes := mistakes a; maxMistakes := maxMistakes a;
     targetSequence := targetSequence a; missingIndices := missingIndices a;
     fullList := v; localStorage := localStorage a; content := content a;
     gameScreenHidden := gameScreenHidden a; modalHidden := modalHidden a;
     timeouts := timeouts a; feedback := feedback a; random := random a;
     drawn := drawn a |}.

Definition set_localStorage (v : Stored) (a : App) : App :=
  {| score := score a; currentLevel := currentLevel a;
     currentGame := currentGame a; timerInterval := timerInterval a;
     timeLeft := timeLeft a; maxLevels := maxLevels a; progress := progress a;
     pendingGameType := pendingGameType a; currentGuess := currentGuess a;
     constructedSentence := constructedSentence a;
     targetSentence := targetSentence a;
     currentGrammarData := currentGrammarData a; grammarStep := grammarStep a;
     hangmanWord := hangmanWord a; guessedLetters := guessedLetters a;
     mistakes := mistakes a; maxMistakes := maxMistakes a;
     targetSequence := targetSequence a; missingIndices := missingIndices a;
     fullList := fullList a; localStorage := v; content := content a;
     gameScreenHidden := gameScreenHidden a; modalHidden := modalHidden a;
     timeouts := timeouts a; feedback := feedback a; random := random a;
     drawn := drawn a |}.

Definition set_content (v : Content) (a : App) : App :=
  {| score := score a; currentLevel := currentLevel a;
     currentGame := currentGame a; timerInterval := timerInterval a;
     timeLeft := timeLeft a; maxLevels := maxLevels a; progress := progress a;
     pendingGameType := pendingGameType a; currentGuess := currentGuess a;
     constructedSentence := constructedSentence a;
     targetSentence := targetSentence a;
     currentGrammarData := currentGrammarData a; grammarStep := grammarStep a;
     hangmanWord := hangmanWord a; guessedLetters := guessedLetters a;
     mistakes := mistakes a; maxMistakes := maxMistakes a;
     targetSequence := targetSequence a; missingIndices := missingIndices a;
     fullList := fullList a; localStorage := localStorage a; content := v;
     gameScreenHidden := gameScreenHidden a; modalHidden := modalHidden a;
     timeouts := timeouts a; feedback := feedback a; random := random a;
     drawn := drawn a |}.

Definition set_gameScreenHidden (v : bool) (a : App) : App :=
  {| score := score a; currentLevel := currentLevel a;
     currentGame := currentGame a; timerInterval := timerInterval a;
     timeLeft := timeLeft a; maxLevels := maxLevels a; progress := progress a;
     pendingGameType := pendingGameType a; currentGuess := currentGuess a;
     constructedSentence := constructedSentence a;
     targetSentence := targetSentence a;
     currentGrammarData := currentGrammarData a; grammarStep := grammarStep a;
     hangmanWord := hangmanWord a; guessedLetters := guessedLetters a;
     mistakes := mistakes a; maxMistakes := maxMistakes a;
     targetSequence := targetSequence a; missingIndices := missingIndices a;
     fullList := fullList a; localStorage := localStorage a;
     content := content a; gameScreenHidden := v; modalHidden := modalHidden a;
     timeouts := timeouts a; feedback := feedback a; random := random a;
     drawn := drawn a |}.

Definition set_modalHidden (v : bool) (a : App) : App :=
  {| score := score a; currentLevel := currentLevel a;
     currentGame := currentGame a; timerInterval := timerInterval a;
     timeLeft := timeLeft a; maxLevels := maxLevels a; progress := progress a;
     pendingGameType := pendingGameType a; currentGuess := currentGuess a;
     constructedSentence := constructedSentence a;
     targetSentence := targetSentence a;
     currentGrammarData := currentGrammarData a; grammarStep := grammarStep a;
     hangmanWord := hangmanWord a; guessedLetters := guessedLetters a;
     mistakes := mistakes a; maxMistakes := maxMistakes a;
     targetSequence := targetSequence a; missingIndices := missingIndices a;
     fullList := fullList a; localStorage := localStorage a;
     content := content a; gameScreenHidden := gameScreenHidden a;
     modalHidden := v; timeouts := timeouts a; feedback := feedback a;
     random := random a; drawn := drawn a |}.

Definition set_timeouts (v : list (Callback * nat)) (a : App) : App :=
  {| score := score a; currentLevel := currentLevel a;
     currentGame := currentGame a; timerInterval := timerInterval a;
     timeLeft := timeLeft a; maxLevels := maxLevels a; progress := progress a;
     pendingGameType := pendingGameType a; currentGuess := currentGuess a;
     constructedSentence := constructedSentence a;
     targetSentence := targetSentence a;
     currentGrammarData := currentGrammarData a; grammarStep := grammarStep a;
     hangmanWord := hangmanWord a; guessedLetters := guessedLetters a;
     mistakes := mistakes a; maxMistakes := maxMistakes a;
     targetSequence := targetSequence a; missingIndices := missingIndices a;
     fullList := fullList a; localStorage := localStorage a;
     content := content a; gameScreenHidden := gameScreenHidden a;
     modalHidden := modalHidden a; timeouts := v; feedback := feedback a;
     random := random a; drawn := drawn a |}.

Definition set_feedback (v : list (Outcome * string)) (a : App) : App :=
  {| score := score a; currentLevel := currentLevel a;
     currentGame := currentGame a; timerInterval := timerInterval a;
     timeLeft := timeLeft a; maxLevels := maxLevels a; progress := progress a;
     pendingGameType := pendingGameType a; currentGuess := currentGuess a;
     constructedSentence := constructedSentence a;
     targetSentence := targetSentence a;
     currentGrammarData := currentGrammarData a; grammarStep := grammarStep a;
     hangmanWord := hangmanWord a; guessedLetters := guessedLetters a;
     mistakes := mistakes a; maxMistakes := maxMistakes a;
     targetSequence := targetSequence a; missingIndices := missingIndices a;
     fullList := fullList a; localStorage := localStorage a;
     content := content a; gameScreenHidden := gameScreenHidden a;
     modalHidden := modalHidden a; timeouts := timeouts a; feedback := v;
     random := random a; drawn := drawn a |}.

Definition set_random (v : nat -> nat) (a : App) : App :=
  {| score := score a; currentLevel := currentLevel a;
     currentGame := currentGame a; timerInterval := timerInterval a;
     timeLeft := timeLeft a; maxLevels := maxLevels a; progress := progress a;
     pendingGameType := pendingGameType a; currentGuess := currentGuess a;
     constructedSentence := constructedSentence a;
     targetSentence := targetSentence a;
     currentGrammarData := currentGrammarData a; grammarStep := grammarStep a;
     hangmanWord := hangmanWord a; guessedLetters := guessedLetters a;
     mistakes := mistakes a; maxMistakes := maxMistakes a;
     targetSequence := targetSequence a; missingIndices := missingIndices a;
     fullList := fullList a; localStorage := localStorage a;
     content := content a; gameScreenHidden := gameScreenHidden a;
     modalHidden := modalHidden a; timeouts := timeouts a;
     feedback := feedback a; random := v; drawn := drawn a |}.

Definition set_drawn (v : nat) (a : App) : App :=
  {| score := score a; currentLevel := currentLevel a;
     currentGame := currentGame a; timerInterval := timerInterval a;
     timeLeft := timeLeft a; maxLevels := maxLevels a; progress := progress a;
     pendingGameType := pendingGameType a; currentGuess := currentGuess a;
     constructedSentence := constructedSentence a;
     targetSentence := targetSentence a;
     currentGrammarData := currentGrammarData a; grammarStep := grammarStep a;
     hangmanWord := hangmanWord a; guessedLetters := guessedLetters a;
     mistakes := mistakes a; maxMistakes := maxMistakes a;
     targetSequence := targetSequence a; missingIndices := missingIndices a;
     fullList := fullList a; localStorage := localStorage a;
     content := content a; gameScreenHidden := gameScreenHidden a;
     modalHidden := modalHidden a; timeouts := timeouts a;
     feedback := feedback a; random := random a; drawn := v |}.

(** ** Randomness *)

(** [Math.floor(Math.random() * n)]: the next raw draw, reduced below [n].
    Successive calls are independent, so every sequence of results below
    their bounds is a possible run, and every such sequence is produced by
    some [random]. *)
Definition randomBelow (n : nat) (a : App) : nat * App :=
  (match n with 0 => 0 | S _ => random a (drawn a) mod n end,
   set_drawn (S (drawn a)) a).

(** The rejection loop of the option generators,
    [while (options.length < 4) { x = pick(draw); if (!options.includes(x)) options.push(x); }]
    as written in [renderTranslateGame], [renderNumToWordGame],
    [renderWordToNumGame], [renderSequencePlacementGame] and
    [renderCategoryChoiceGame].  [fuel] bounds the iterations observed. *)
Fixpoint drawDistinct `{EqDecision A} (fuel bound : nat) (pick : nat -> A)
    (options : list A) (a : App) : option (list A * App) :=
  if decide (length options < 4) then
    match fuel with
    | 0 => None
    | S fuel' =>
        let '(r, a) := randomBelow bound a in
        let opt := pick r in
        if decide (opt ∈ options) then drawDistinct fuel' bound pick options a
        else drawDistinct fuel' bound pick (options ++ [opt]) a
    end
  else Some (options, a).

(** [[array[i], array[j]] = [array[j], array[i]]] *)
Definition swap {A} (i j : nat) (array : list A) : list A :=
  match array !! i, array !! j with
  | Some x, Some y => <[j := x]> (<[i := y]> array)
  | _, _ => array
  end.

(** [shuffleArray]: the loop [for (i = length - 1; i > 0; i--)]. *)
Fixpoint shuffleFrom {A} (i : nat) (array : list A) (a : App) : list A * App :=
  match i with
  | 0 => (array, a)
  | S i' =>
      let '(j, a) := randomBelow (i + 1) a in
      shuffleFrom i' (swap i j array) a
  end.

Definition shuffleArray {A} (array : list A) (a : App) : list A * App :=
  shuffleFrom (length array - 1) array a.

(** [array.sort(() => Math.random() - 0.5)].  The comparator answers at
    random, so the order that comes out is whatever the engine's sorting
    algorithm makes of those answers: some permutation of the array.  The
    model lets the random source pick the permutation, one element at a
    time. *)
Fixpoint pickOrder {A} (n : nat) (l : list A) (a : App) : list A * App :=
  match n with
  | 0 => ([], a)
  | S n' =>
      let '(r, a) := randomBelow (length l) a in
      match l !! r with
      | Some x => let '(rest, a) := pickOrder n' (delete r l) a in (x :: rest, a)
      | None => ([], a)
      end
  end.

Definition sortRandom {A} (l : list A) (a : App) : list A * App :=
  pickOrder (length l) l a.

(** [shuffleString] *)
Definition shuffleString (str : string) (a : App) : string * App :=
  let '(l, a) := sortRandom (JS.split str) a in (JS.unsplit l, a).

(** ** Persistence *)

(** The record set [loadProgress] builds when nothing usable is stored. *)
Definition initialProgress : gmap string ProgressRecord :=
  foldr (fun k m => <[GAME_TYPES k := freshRecord]> m) ∅ allGameTypes.

Definition loadProgress (saved : Stored) : gmap string ProgressRecord :=
  match saved with
  | Document doc => doc
  | NoItem | Unparsable => initialProgress
  end.

Definition saveProgress (a : App) : App :=
  set_localStorage (Document (progress a)) a.

(** The key [this.currentGame] denotes in [this.progress[this.currentGame]];
    [null] is turned into the key ["null"]. *)
Definition progressKey (g : option GameType) : string :=
  match g with Some t => GAME_TYPES t | None => "null" end.

(** ** Feedback, timers and the two outcomes *)

Definition showFeedback (symbol : Outcome) (text : string) (a : App) : App :=
  set_feedback (feedback a ++ [(symbol, text)]) a.

Definition setTimeout (cb : Callback) (ms : nat) (a : App) : App :=
  set_timeouts (timeouts a ++ [(cb, ms)]) a.

Definition startTimer (seconds : Z) (a : App) : App :=
  set_timerInterval true (set_timeLeft seconds a).

Definition stopTimer (a : App) : App := set_timerInterval false a.

Definition isLongSequence (a : App) : bool :=
  bool_decide (currentGame a = Some DAYS) || bool_decide (currentGame a = Some MONTHS).

Definition with_level (l : nat) (r : ProgressRecord) : ProgressRecord :=
  {| level := l; medals := medals r; completed := completed r |}.

(** [successAction], up to the registration of [nextLevel]. *)
Definition successAction (answerText : string) (a : App) : App :=
  let a := set_score (score a + 10) a in
  let a := showFeedback Succeeded answerText a in
  let a := set_currentLevel (S (currentLevel a)) a in
  let key := progressKey (currentGame a) in
  let a :=
    match progress a !! key with
    | None => set_progress (<[key := freshRecord]> (progress a)) a
    | Some _ => a
    end in
  let a := set_progress (alter (with_level (currentLevel a)) key (progress a)) a in
  if bool_decide (answerText ≠ "") && isLongSequence a
  then setTimeout CbNextLevel 1500 a
  else setTimeout CbNextLevel 2000 a.

Definition failAction (correctAnswer : string) (a : App) : App :=
  showFeedback Failed correctAnswer a.

Definition showMenu (a : App) : App :=
  set_gameScreenHidden true (stopTimer a).

(** ** Game 1: word guessing *)

Record GuessItem := { img : string; answer : string }.

Definition guessPool : list GuessItem :=
  [ {| img := "apple.png"; answer := "APPLE" |};
    {| img := "game_sentence.png"; answer := "PUZZLE" |};
    {| img := "game_animal.png"; answer := "LION" |};
    {| img := "game_job.png"; answer := "DOCTOR" |};
    {| img := "game_color.png"; answer := "COLOR" |} ].

Definition alphabet : string := "ABCDEFGHIJKLMNOPQRSTUVWXYZ".

(** [for (i = 0; i < n; i++) extras += alphabet[Math.floor(Math.random()*26)]] *)
Fixpoint drawExtras (n : nat) (extras : string) (a : App) : string * App :=
  match n with
  | 0 => (extras, a)
  | S n' =>
      let '(r, a) := randomBelow 26 a in
      drawExtras n' (extras +:+ String (nth r (JS.split alphabet) "A"%char) "") a
  end.

Definition renderGuessGame (a : App) : App :=
  match guessPool !! (currentLevel a mod length guessPool) with
  | None => a
  | Some levelData =>
      let extraDifficulty := Nat.min 6 (currentLevel a / 5) in
      let '(extras, a) := drawExtras (3 + extraDifficulty) "" a in
      let '(letters, a) := shuffleString (answer levelData +:+ extras) a in
      let a :=
        set_content
          (GuessView (img levelData)
             ((fun _ => "") <$> JS.split (answer levelData))
             ((fun l => {| letter := l; usedIdx := None; spent := false |})
                <$> JS.split letters)) a in
      set_currentGuess "" a
  end.

Definition markUsed (idx : nat) (b : LetterBtn) : LetterBtn :=
  {| letter := letter b; usedIdx := Some idx; spent := true |}.

(** [handleLetterClick(btn, char)], [btn] given by its position in the pool.
    Writing to a slot that does not exist throws before anything is
    changed. *)
Definition handleLetterClick (btn : nat) (char : ascii) (a : App) : App :=
  match content a, guessPool !! (currentLevel a mod length guessPool) with
  | GuessView im slots pool, Some levelData =>
      if decide (String.length (currentGuess a) < String.length (answer levelData))
      then
        if decide (String.length (currentGuess a) < length slots) then
          let slots := <[String.length (currentGuess a) := String char ""]> slots in
          let a := set_currentGuess (currentGuess a +:+ String char "") a in
          let pool := alter (markUsed (String.length (currentGuess a) - 1)) btn pool in
          let a := set_content (GuessView im slots pool) a in
          if decide (String.length (currentGuess a) = String.length (answer levelData))
          then
            if decide (currentGuess a = answer levelData)
            then successAction (answer levelData) a
            else setTimeout CbRenderLevel 2000 (failAction (answer levelData) a)
          else a
        else a
      else a
  | _, _ => a
  end.

(** The loop of [undoLetter] over the pool: the first button showing [char]
    whose [usedIdx] is [lastIdx] is released. *)
Fixpoint releaseTile (char : ascii) (lastIdx : nat) (pool : list LetterBtn)
    : list LetterBtn :=
  match pool with
  | [] => []
  | b :: rest =>
      if decide (letter b = char ∧ usedIdx b = Some lastIdx)
      then {| letter := letter b; usedIdx := None; spent := false |} :: rest
      else b :: releaseTile char lastIdx rest
  end.

Definition undoLetter (a : App) : App :=
  if decide (String.length (currentGuess a) = 0) then a
  else
    let lastIdx := String.length (currentGuess a) - 1 in
    match content a with
    | GuessView im slots pool =>
        if decide (lastIdx < length slots) then
          let slots := <[lastIdx := ""]> slots in
          match String.get lastIdx (currentGuess a) with
          | Some char =>
              let pool := releaseTile char lastIdx pool in
              let a := set_content (GuessView im slots pool) a in
              set_currentGuess (JS.dropLast (currentGuess a)) a
          | None => a
          end
        else a
    | _ => a
    end.

(** ** Game 5: hangman *)

Definition hangmanWords : list HangmanItem :=
  [ {| word := "GALAXY"; hint := "ستاره‌ها و سیارات" |};
    {| word := "PYTHON"; hint := "یک زبان برنامه‌نویسی" |};
    {| word := "GUITAR"; hint := "ساز موسیقی" |};
    {| word := "ORANGE"; hint := "یک میوه نارنجی" |} ].

Definition displayWordOf (w : string) (guessed : gset ascii) : string :=
  JS.join " "
    ((fun l => if decide (l ∈ guessed) then String l "" else "_") <$> JS.split w).

Definition updateHangmanUI (hintText : string) (a : App) : App :=
  let displayWord := displayWordOf (hangmanWord a) (guessedLetters a) in
  let a :=
    set_content
      (HangmanView hintText displayWord
         ((fun l => (l, bool_decide (l ∈ guessedLetters a))) <$> JS.split alphabet))
      a in
  if negb (JS.includes displayWord "_") then successAction (hangmanWord a) a
  else if decide (maxMistakes a ≤ mistakes a)
  then setTimeout CbRenderLevel 2000 (failAction (hangmanWord a) a)
  else a.

Definition renderHangmanGame (a : App) : App :=
  match hangmanWords !! (currentLevel a mod length hangmanWords) with
  | None => a
  | Some data =>
      let a := set_hangmanWord (word data) a in
      let a := set_guessedLetters ∅ a in
      let a := set_mistakes 0 a in
      let a := set_maxMistakes 6 a in
      updateHangmanUI (hint data) a
  end.

Definition guessHangman (l : ascii) (a : App) : App :=
  let a := set_guessedLetters ({[l]} ∪ guessedLetters a) a in
  let a :=
    if JS.includes (hangmanWord a) l then a
    else set_mistakes (S (mistakes a)) a in
  let library := libraries.hangman in
  match library !! (currentLevel a mod length library) with
  | None => a
  | Some data => updateHangmanUI (hint data) a
  end.

(** ** Game 2: fast translate *)

Definition renderTranslateGame (fuel : nat) (a : App) : option App :=
  let timeLimit := Z.max 3 (10 - Z.of_nat (currentLevel a / 5)) in
  let a := startTimer timeLimit a in
  let library := getVocabData "translate" in
  match library !! (currentLevel a mod length library) with
  | None => Some a
  | Some item =>
      '(options, a) ← drawDistinct fuel (length library)
                        (fun r => fa (nth r library item)) [fa item] a;
      let '(options, a) := shuffleArray options a in
      let correctIdx := JS.indexOf (fa item) options in
      Some (set_content (TranslateView (en item) options correctIdx) a)
  end.

(** [checkTranslate(selected, correct)]; the text of [buttons[correct]] is
    read first, and reading it from a button that does not exist throws. *)
Definition checkTranslate (selected : nat) (correctIdx : option nat) (a : App) : App :=
  let a := stopTimer a in
  match content a with
  | TranslateView _ options _ =>
      match correctIdx ≫= (options !!.) with
      | None => a
      | Some correctText =>
          if decide (Some selected = correctIdx) then successAction correctText a
          else setTimeout CbRenderLevel 2000 (failAction correctText a)
      end
  | _ => a
  end.

(** ** Game 3: sentence builder *)

Definition renderSentenceGame (a : App) : App :=
  let pool := libraries.sentences in
  match pool !! (currentLevel a mod length pool) with
  | None => a
  | Some data =>
      let '(shuffled, a) := sortRandom (s_words data) a in
      let a := set_content (SentenceView (s_fa data) [] (imap pair shuffled)) a in
      let a := set_constructedSentence [] a in
      set_targetSentence (s_words data) a
  end.

(** [constructedSentence.every((w, i) => w === targetSentence[i])] *)
Definition everyMatches (constructed target : list string) : bool :=
  forallb (fun '(i, w) => bool_decide (target !! i = Some w)) (imap pair constructed).

Definition withoutChip (id : nat) (chips : list (nat * string)) : list (nat * string) :=
  filter (fun c => c.1 ≠ id) chips.

(** [moveWord(btn)], the chip given by the position it was rendered at. *)
Definition moveWord (id : nat) (a : App) : App :=
  match content a with
  | SentenceView prompt target pool =>
      let a :=
        match list_find (fun c => c.1 = id) pool, list_find (fun c => c.1 = id) target with
        | Some (_, chip), _ =>
            let a := set_content
                       (SentenceView prompt (target ++ [chip]) (withoutChip id pool)) a in
            set_constructedSentence (constructedSentence a ++ [chip.2]) a
        | None, Some (_, chip) =>
            let a := set_content
                       (SentenceView prompt (withoutChip id target) (pool ++ [chip])) a in
            set_constructedSentence
              (filter (fun w => w ≠ chip.2) (constructedSentence a)) a
        | None, None => a
        end in
      if decide (length (constructedSentence a) = length (targetSentence a)) then
        let isCorrect := everyMatches (constructedSentence a) (targetSentence a) in
        let fullSentence := JS.join " " (targetSentence a) in
        if isCorrect then successAction fullSentence a
        else setTimeout CbRenderLevel 2500 (failAction fullSentence a)
      else a
  | _ => a
  end.

(** ** Game 4: grammar check *)

Definition updateGrammarUI (a : App) : App :=
  match currentGrammarData a with
  | None => a
  | Some data =>
      if decide (grammarStep a = 2) then
        let '(shuffled, a) := shuffleArray (options data) a in
        set_content (GrammarView (grammarStep a) (words data) shuffled) a
      else set_content (GrammarView (grammarStep a) (words data) []) a
  end.

Definition renderGrammarGame (a : App) : App :=
  let pool := libraries.grammar in
  let a := set_currentGrammarData (pool !! (currentLevel a mod length pool)) a in
  let a := set_grammarStep 1 a in
  updateGrammarUI a.

Definition checkGrammarMistake (idx : nat) (a : App) : App :=
  if decide (grammarStep a ≠ 1) then a
  else
    match currentGrammarData a with
    | None => a
    | Some data =>
        if decide (idx = wrongIdx data) then updateGrammarUI (set_grammarStep 2 a)
        else failAction "" a
    end.

(** [s.replace(pattern, replacement)] with a string pattern: the first
    occurrence is replaced. *)
Fixpoint replaceFirst (pattern replacement s : string) : string :=
  if String.prefix pattern s
  then replacement +:+ String.substring (String.length pattern)
                         (String.length s - String.length pattern) s
  else match s with
       | EmptyString => EmptyString
       | String c rest => String c (replaceFirst pattern replacement rest)
       end.

Definition checkGrammarCorrection (selected : string) (a : App) : App :=
  if decide (grammarStep a ≠ 2) then a
  else
    match currentGrammarData a with
    | None => a
    | Some data =>
        if decide (selected = correct data) then
          successAction
            (replaceFirst (default "undefined" (words data !! wrongIdx data)) selected
               (JS.join " " (words data))) a
        else setTimeout CbRenderLevel 2000 (failAction (correct data) a)
    end.

(** ** Number and category games *)

Definition renderNumToWordGame (fuel : nat) (a : App) : option App :=
  let range := Nat.min 300 (20 + currentLevel a) in
  let '(val, a) := randomBelow range a in
  let targetWord := numberToWords val in
  '(options, a) ← drawDistinct fuel (range + 10) numberToWords [targetWord] a;
  let '(options, a) := shuffleArray options a in
  Some (set_content (ChoiceView (JS.toString val) (VStr <$> options) (VStr targetWord)) a).

Definition renderWordToNumGame (fuel : nat) (a : App) : option App :=
  let range := Nat.min 300 (20 + currentLevel a) in
  let '(val, a) := randomBelow range a in
  let targetWord := numberToWords val in
  '(options, a) ← drawDistinct fuel (range + 10) id [val] a;
  let '(options, a) := shuffleArray options a in
  Some (set_content (ChoiceView targetWord (VNum <$> options) (VNum val)) a).

Record ColorItem := { name : string; hex : string; colorFa : string }.

Definition colors : list ColorItem :=
  [ {| name := "RED"; hex := "#ef4444"; colorFa := "قرمز" |};
    {| name := "BLUE"; hex := "#3b82f6"; colorFa := "آبی" |};
    {| name := "GREEN"; hex := "#22c55e"; colorFa := "سبز" |};
    {| name := "YELLOW"; hex := "#eab308"; colorFa := "زرد" |};
    {| name := "PURPLE"; hex := "#a855f7"; colorFa := "بنفش" |} ].

Definition renderColorsGame (a : App) : App :=
  match colors !! (currentLevel a mod length colors) with
  | None => a
  | Some data =>
      let '(shuffled, a) :=
        shuffleArray [name data; "ORANGE"; "BLACK"; "WHITE"; "BROWN"] a in
      let options := JS.slice0 4 shuffled in
      let options :=
        if decide (name data ∈ options) then options else <[0 := name data]> options in
      let '(options, a) := shuffleArray options a in
      set_content (ChoiceView (hex data) (VStr <$> options) (VStr (name data))) a
  end.

Definition renderCategoryChoiceGame (category : string) (fuel : nat) (a : App)
    : option App :=
  let library := getVocabData category in
  match library !! (currentLevel a mod length library) with
  | None => Some a
  | Some data =>
      '(options, a) ← drawDistinct fuel (length library)
                        (fun r => en (nth r library data)) [en data] a;
      let '(options, a) := shuffleArray options a in
      Some (set_content (ChoiceView (fa data) (VStr <$> options) (VStr (en data))) a)
  end.

(** [checkChoice(selected, correct)].  Both arguments are strings, or both
    are numbers, in every call the rendered buttons make, where [==] is
    plain equality. *)
Definition checkChoice (selected correct : Val) (a : App) : App :=
  if decide (selected = correct) then successAction (Val_toString correct) a
  else setTimeout CbRenderLevel 2000 (failAction (Val_toString correct) a).

(** ** Days and months: sequence placement *)

Definition days : list string :=
  ["Monday"; "Tuesday"; "Wednesday"; "Thursday"; "Friday"; "Saturday"; "Sunday"].

Definition months : list string :=
  ["January"; "February"; "March"; "April"; "May"; "June"; "July"; "August";
   "September"; "October"; "November"; "December"].

Definition renderSequencePlacementGame (list_ : list string) (title : string)
    (fuel : nat) (a : App) : option App :=
  '(picked, a) ← drawDistinct fuel (length list_) id [] a;
  let missing := merge_sort Nat.le picked in
  let correctAnswers := (fun i => default "undefined" (list_ !! i)) <$> missing in
  let '(shuffledPool, a) := sortRandom correctAnswers a in
  let a :=
    set_content
      (SequenceView title
         (imap (fun idx item =>
                  if decide (idx ∈ missing) then SlotCell idx "" else FixedCell item)
               list_)
         ((fun w => {| poolText := w; hidden := false |}) <$> shuffledPool)) a in
  let a := set_targetSequence correctAnswers a in
  let a := set_missingIndices missing a in
  Some (set_fullList list_ a).

Definition isSlot (c : Cell) : bool :=
  match c with SlotCell _ _ => true | FixedCell _ => false end.

Definition slotFilled (c : Cell) : bool :=
  match c with SlotCell _ t => bool_decide (t ≠ "") | FixedCell _ => true end.

Definition slotRight (full : list string) (c : Cell) : bool :=
  match c with
  | SlotCell idx t => bool_decide (full !! idx = Some t)
  | FixedCell _ => true
  end.

Definition checkSequenceStatus (a : App) : App :=
  match content a with
  | SequenceView _ cells _ =>
      if forallb slotFilled cells then
        if forallb (slotRight (fullList a)) cells then successAction "" a
        else setTimeout CbRenderLevel 2000 (failAction "" a)
      else a
  | _ => a
  end.

(** The first empty slot receives [t]. *)
Fixpoint fillFirstEmpty (t : string) (cells : list Cell) : option (list Cell) :=
  match cells with
  | [] => None
  | SlotCell idx "" :: rest => Some (SlotCell idx t :: rest)
  | c :: rest => (c ::.) <$> fillFirstEmpty t rest
  end.

Definition placeInSlot (btn : nat) (a : App) : App :=
  match content a with
  | SequenceView title cells pool =>
      match pool !! btn with
      | None => a
      | Some b =>
          match fillFirstEmpty (poolText b) cells with
          | None => a
          | Some cells =>
              let pool := <[btn := {| poolText := poolText b; hidden := true |}]> pool in
              checkSequenceStatus (set_content (SequenceView title cells pool) a)
          end
      end
  | _ => a
  end.

(** The first hidden pool button showing [val] is shown again. *)
Fixpoint showFirstHidden (val : string) (pool : list PoolBtn) : list PoolBtn :=
  match pool with
  | [] => []
  | b :: rest =>
      if decide (poolText b = val ∧ hidden b = true)
      then {| poolText := poolText b; hidden := false |} :: rest
      else b :: showFirstHidden val rest
  end.

Definition removeFromSlot (slot : nat) (a : App) : App :=
  match content a with
  | SequenceView title cells pool =>
      match cells !! slot with
      | Some (SlotCell idx val) =>
          if decide (val = "") then a
          else
            set_content
              (SequenceView title (<[slot := SlotCell idx ""]> cells)
                 (showFirstHidden val pool)) a
      | _ => a
      end
  | _ => a
  end.

(** ** Level dispatch and progression *)

Definition renderLevel (fuel : nat) (a : App) : option App :=
  let a := set_content Blank a in
  match currentGame a with
  | Some GUESS => Some (renderGuessGame a)
  | Some TRANSLATE => renderTranslateGame fuel a
  | Some SENTENCE => Some (renderSentenceGame a)
  | Some GRAMMAR => Some (renderGrammarGame a)
  | Some HANGMAN => Some (renderHangmanGame a)
  | Some NUM_TO_WORD => renderNumToWordGame fuel a
  | Some WORD_TO_NUM => renderWordToNumGame fuel a
  | Some COLORS => Some (renderColorsGame a)
  | Some ANIMAL => renderCategoryChoiceGame "animals" fuel a
  | Some JOBS => renderCategoryChoiceGame "jobs" fuel a
  | Some DAYS =>
      renderSequencePlacementGame days "جاهای خالی روزهای هفته را پر کنید:" fuel a
  | Some MONTHS =>
      renderSequencePlacementGame months "جاهای خالی ماه‌های سال را پر کنید:" fuel a
  | Some FAMILY => renderCategoryChoiceGame "family" fuel a
  | Some PLACES => renderCategoryChoiceGame "places" fuel a
  | Some OBJECTS => renderCategoryChoiceGame "objects" fuel a
  | Some CLOTHES => renderCategoryChoiceGame "clothes" fuel a
  | Some ADJECTIVES => renderCategoryChoiceGame "adjectives" fuel a
  | None => Some a
  end.

Definition awardMedal (r : ProgressRecord) : ProgressRecord :=
  {| level := 0; medals := medals r + 1; completed := true |}.

(** The closure [nextLevel] that [successAction] registers; it reads [this]
    when it runs. *)
Definition nextLevel (fuel : nat) (a : App) : option App :=
  if decide (maxLevels a ≤ currentLevel a) then
    let key := progressKey (currentGame a) in
    match progress a !! key with
    | None => Some a
    | Some r =>
        let a := set_progress (<[key := awardMedal r]> (progress a)) a in
        let a := saveProgress a in
        Some (setTimeout CbShowMenu 1000 a)
    end
  else renderLevel fuel (saveProgress a).

Definition showModal (a : App) : App := set_modalHidden false a.
Definition closeModal (a : App) : App := set_modalHidden true a.

Definition actualStart (type : GameType) (lvl : nat) (fuel : nat) (a : App)
    : option App :=
  let a := set_currentGame (Some type) a in
  let a := set_score 0 a in
  let a := set_currentLevel lvl a in
  let a := set_gameScreenHidden false a in
  renderLevel fuel a.

Definition startGame (type : GameType) (fuel : nat) (a : App) : option App :=
  let gameProgress := default freshRecord (progress a !! GAME_TYPES type) in
  if completed gameProgress then Some (showModal (set_pendingGameType (Some type) a))
  else actualStart type (level gameProgress) fuel a.

Definition resetRecord (r : ProgressRecord) : ProgressRecord :=
  {| level := 0; medals := medals r; completed := false |}.

Definition confirmReset (fuel : nat) (a : App) : option App :=
  let a := closeModal a in
  match pendingGameType a with
  | None => Some a
  | Some type =>
      match progress a !! GAME_TYPES type with
      | None => Some a
      | Some r =>
          let a := set_progress (<[GAME_TYPES type := resetRecord r]> (progress a)) a in
          let a := saveProgress a in
          actualStart type 0 fuel a
      end
  end.

(** The function [startTimer] hands to [setInterval]. *)
Definition timerTick (a : App) : App :=
  let a := set_timeLeft (timeLeft a - 1)%Z a in
  if decide (timeLeft a ≤ 0)%Z
  then setTimeout CbRenderLevel 1000 (failAction "" (stopTimer a))
  else a.

(** The state the constructor leaves behind, for a given storage content and
    a given source of random draws. *)
Definition newApp (saved : Stored) (rnd : nat -> nat) : App :=
  {| score := 0; currentLevel := 0; currentGame := None; timerInterval := false;
     timeLeft := 30; maxLevels := 200; progress := loadProgress saved;
     pendingGameType := None; currentGuess := ""; constructedSentence := [];
     targetSentence := []; currentGrammarData := None; grammarStep := 0;
     hangmanWord := ""; guessedLetters := ∅; mistakes := 0; maxMistakes := 0;
     targetSequence := []; missingIndices := []; fullList := [];
     localStorage := saved; content := Blank; gameScreenHidden := true;
     modalHidden := true; timeouts := []; feedback := []; random := rnd;
     drawn := 0 |}.

(** ** Events *)

(** What can happen next: a click on an element that is on screen, a tick of
    the countdown, or one of the registered timeouts coming due. *)
Inductive Event :=
| MenuClick (type : GameType)
| ModalConfirm
| ModalCancel
| BackClick
| LetterClick (btn : nat)
| UndoClick
| OptionClick (i : nat)
| WordClick (i : nat)
| KeyClick (l : ascii)
| PoolClick (btn : nat)
| SlotClick (slot : nat)
| TimerTick
| TimeoutFires (i : nat).

Definition runCallback (cb : Callback) (fuel : nat) (a : App) : option App :=
  match cb with
  | CbRenderLevel => renderLevel fuel a
  | CbNextLevel => nextLevel fuel a
  | CbShowMenu => Some (showMenu a)
  end.

(** A click inside [#game-content] reaches the handler the clicked element
    names in its [onclick]; elements that are disabled, hidden or carry
    [pointer-events-none] receive no click. *)
Definition gameClick (ev : Event) (a : App) : App :=
  match ev, content a with
  | LetterClick btn, GuessView _ _ pool =>
      match pool !! btn with
      | Some b => if spent b then a else handleLetterClick btn (letter b) a
      | None => a
      end
  | UndoClick, GuessView _ _ _ => undoLetter a
  | OptionClick i, TranslateView _ options correctIdx =>
      if decide (i < length options) then checkTranslate i correctIdx a else a
  | OptionClick i, ChoiceView _ options correct_ =>
      match options !! i with
      | Some opt => checkChoice opt correct_ a
      | None => a
      end
  | OptionClick i, GrammarView _ _ options =>
      match options !! i with
      | Some opt => checkGrammarCorrection opt a
      | None => a
      end
  | WordClick i, GrammarView _ sentence _ =>
      if decide (i < length sentence) then checkGrammarMistake i a else a
  | WordClick id, SentenceView _ _ _ => moveWord id a
  | KeyClick l, HangmanView _ _ keys =>
      if bool_decide ((l, false) ∈ keys) then guessHangman l a else a
  | PoolClick btn, SequenceView _ _ pool =>
      match pool !! btn with
      | Some b => if hidden b then a else placeInSlot btn a
      | None => a
      end
  | SlotClick slot, SequenceView _ _ _ => removeFromSlot slot a
  | _, _ => a
  end.

Definition handle (fuel : nat) (ev : Event) (a : App) : option App :=
  match ev with
  | MenuClick type =>
      if gameScreenHidden a && modalHidden a then startGame type fuel a else Some a
  | ModalConfirm => if modalHidden a then Some a else confirmReset fuel a
  | ModalCancel => Some (closeModal a)
  | BackClick => if gameScreenHidden a then Some a else Some (showMenu a)
  | TimerTick => if timerInterval a then Some (timerTick a) else Some a
  | TimeoutFires i =>
      match timeouts a !! i with
      | Some (cb, _) => runCallback cb fuel (set_timeouts (delete i (timeouts a)) a)
      | None => Some a
      end
  | _ => if gameScreenHidden a then Some a else Some (gameClick ev a)
  end.

(** A run: the events are handled one after the other. *)
Fixpoint run (fuel : nat) (evs : list Event) (a : App) : option App :=
  match evs with
  | [] => Some a
  | ev :: rest => a' ← handle fuel ev a; run fuel rest a'
  end.

(** ** The service worker ([sw.js]) *)

(** The worker talks to two things outside: the network and the browser's
    cache storage.  A fetch either fails or gives a response, which is [ok]
    when its status is in the 200 range.  A cache maps request URLs to
    responses; the cache storage keeps its caches in the order they were
    created.  Requests are GET requests for URLs of the worker's origin,
    matched by their URL. *)
Record Response := { ok : bool; body : string }.

Definition Cache := gmap string Response.
Definition CacheStorage := list (string * Cache).
Definition Network := string → option Response.

Definition CACHE_NAME : string := "learnita-v2".

Definition ASSETS : list string :=
  [ "/"; "/index.html"; "/main.js"; "/game_guess.png"; "/game_translate.png";
    "/game_sentence.png"; "/game_grammar.png"; "/game_hangman.png";
    "/game_number.png"; "/game_color.png"; "/game_animal.png"; "/game_job.png";
    "/game_calendar.png"; "/game_family.png"; "/game_places.png";
    "/game_objects.png"; "/game_clothes.png"; "/game_adjectives.png";
    "/success.mp3"; "/fail.mp3"; "/click.mp3" ].

(** [caches.open(name)]: the cache of that name, created empty at the end of
    the storage when there is none. *)
Definition caches_open (name : string) (caches : CacheStorage) : CacheStorage :=
  if decide (name ∈ caches.*1) then caches else caches ++ [(name, ∅)].

(** The fetches of [cache.addAll(urls)]: all of them must succeed with an
    [ok] response, or the whole call is rejected and nothing is stored. *)
Fixpoint fetchAll (net : Network) (urls : list string)
    : option (list (string * Response)) :=
  match urls with
  | [] => Some []
  | url :: rest =>
      match net url with
      | Some r =>
          if ok r then (fun l => (url, r) :: l) <$> fetchAll net rest else None
      | None => None
      end
  end.

Definition putAll (entries : list (string * Response)) (c : Cache) : Cache :=
  foldl (fun c e => <[e.1 := e.2]> c) c entries.

(** [cache.addAll(urls)] on the cache called [name]. *)
Definition cache_addAll (net : Network) (name : string) (urls : list string)
    (caches : CacheStorage) : option CacheStorage :=
  entries ← fetchAll net urls;
  Some ((fun nc => if decide (nc.1 = name) then (nc.1, putAll entries nc.2) else nc)
          <$> caches).

(** [caches.match(request)]: the first cache, in order of creation, that
    holds the request answers. *)
Fixpoint caches_match (caches : CacheStorage) (url : string) : option Response :=
  match caches with
  | [] => None
  | (_, c) :: rest =>
      match c !! url with
      | Some r => Some r
      | None => caches_match rest url
      end
  end.

(** The [install] listener: the promise handed to [event.waitUntil].  The
    result is the cache storage afterwards and whether the promise was
    fulfilled, that is, whether the worker gets installed. *)
Definition onInstall (net : Network) (caches : CacheStorage) : CacheStorage * bool :=
  let caches := caches_open CACHE_NAME caches in
  match cache_addAll net CACHE_NAME ASSETS caches with
  | Some caches' => (caches', true)
  | None => (caches, false)
  end.

(** The [fetch] listener: the promise handed to [event.respondWith], [None]
    when it is rejected. *)
Definition onFetch (net : Network) (caches : CacheStorage) (url : string)
    : option Response :=
  match caches_match caches url with
  | Some response => Some response
  | None => net url
  end.

(** ** Vocabulary of the statements *)

(** Every letter of [w] has been guessed. *)
Definition covered (w : string) (guessed : gset ascii) : bool :=
  forallb (fun l => bool_decide (l ∈ guessed)) (JS.split w).

(** The decimal digits of [n]. *)
Definition decimalDigits (n : nat) : string := NilZero.string_of_uint (Nat.to_uint n).

Definition hangmanKeys (guessed : gset ascii) : list (ascii * bool) :=
  (fun l => (l, bool_decide (l ∈ guessed))) <$> JS.split alphabet.

(** The hint shown on the hangman screen. *)
Definition shownHint (a : App) : option string :=
  match content a with HangmanView h _ _ => Some h | _ => None end.

(** The guesses of [ls], one after the other. *)
Definition guessAll (ls : list ascii) (a : App) : App :=
  foldl (fun a l => guessHangman l a) a ls.

(** The state [renderHangmanGame] sets up for the word [w]. *)
Definition freshHangman (w : string) (a : App) : Prop :=
  hangmanWord a = w ∧ guessedLetters a = ∅ ∧ mistakes a = 0 ∧ maxMistakes a = 6.

(** The part of the state the letter-assembly engine works on: the guess
    buffer and what is on screen (slots and tiles). *)
Definition engineState (a : App) : string * Content := (currentGuess a, content a).

(** A tile is either free, or spent for a slot below the end of the buffer. *)
Definition tileOk (n : nat) (b : LetterBtn) : Prop :=
  match usedIdx b with
  | None => spent b = false
  | Some i => spent b = true ∧ i < n
  end.

Definition guessInv (a : App) : Prop :=
  match content a with
  | GuessView _ slots pool =>
      Forall (tileOk (String.length (currentGuess a))) pool ∧
      ∀ i, String.length (currentGuess a) ≤ i → i < length slots → slots !! i = Some ""
  | _ => True
  end.

Definition freshTile (l : ascii) : LetterBtn :=
  {| letter := l; usedIdx := None; spent := false |}.

(** The clicks on the tiles [btns], one after the other. *)
Definition tapAll (btns : list nat) (a : App) : App :=
  foldl (fun a btn => gameClick (LetterClick btn) a) a btns.

(** Everything the progression controller owns, with the feedback overlay and
    the registered timeouts: the engines and the render functions only reach
    it through [successAction], [failAction] and [setTimeout]. *)
Definition frameOf (a : App) :=
  (score a, currentLevel a, currentGame a, maxLevels a, progress a,
   localStorage a, feedback a, timeouts a,
   pendingGameType a, gameScreenHidden a, modalHidden a).


(** One success and the [nextLevel] it registers, [n] times in a row. *)
Fixpoint succeedN (n : nat) (text : string) (fuel : nat) (a : App) : option App :=
  match n with
  | 0 => Some a
  | S n' => a' ← nextLevel fuel (successAction text a); succeedN n' text fuel a'
  end.



(** The value the [k]-th draw selects, for a loop drawing below [bound]. *)
Definition drawnAt {A} (bound : nat) (pick : nat → A) (a : App) (k : nat) : A :=
  pick (match bound with 0 => 0 | S _ => random a k mod bound end).

(** The values the next [fuel] draws select. *)
Definition nextDraws {A} (bound : nat) (pick : nat → A) (fuel : nat) (a : App) : list A :=
  drawnAt bound pick a <$> seq (drawn a) fuel.

(** The corpus of a choice game, as pairs of prompt and correct answer. *)
Definition choiceCorpus (g : GameType) : option (list (string * string)) :=
  let category c := Some ((fun i => (fa i, en i)) <$> getVocabData c) in
  match g with
  | TRANSLATE => Some ((fun i => (en i, fa i)) <$> getVocabData "translate")
  | COLORS => Some ((fun c => (hex c, name c)) <$> colors)
  | ANIMAL => category "animals"
  | JOBS => category "jobs"
  | FAMILY => category "family"
  | PLACES => category "places"
  | OBJECTS => category "objects"
  | CLOTHES => category "clothes"
  | ADJECTIVES => category "adjectives"
  | _ => None
  end.

(** The prompt, the options and the correct answer of the screen, when the
    screen is a choice among options. *)
Definition challengeOf (c : Content) : option (string * list string * string) :=
  match c with
  | TranslateView prompt opts correctIdx =>
      ans ← correctIdx ≫= (opts !!.); Some (prompt, opts, ans)
  | ChoiceView prompt opts ans =>
      Some (prompt, Val_toString <$> opts, Val_toString ans)
  | _ => None
  end.

Definition distractors (opts : list string) (ans : string) : list string :=
  filter (fun o => o ≠ ans) opts.

(** The number a number game asks for at the level of the session. *)
Definition numberAsked (a : App) : nat :=
  random a (drawn a) mod Nat.min 300 (20 + currentLevel a).

(** The prompt and the correct answer of the challenge a game generates at
    the level of the session: the entry of its corpus at index
    [level mod length], or the number asked for, in digits and in words;
    [None] for the games that offer no options. *)
Definition expectedChallenge (g : GameType) (a : App) : option (string * string) :=
  match g with
  | NUM_TO_WORD => Some (JS.toString (numberAsked a), numberToWords (numberAsked a))
  | WORD_TO_NUM => Some (numberToWords (numberAsked a), JS.toString (numberAsked a))
  | _ => corpus ← choiceCorpus g; corpus !! (currentLevel a mod length corpus)
  end.

(** How many distinct values there are among those the rejection loop of a
    game starts from and those its next [fuel] draws select; [None] for the
    games without such a loop. *)
Definition distinctValues (g : GameType) (fuel : nat) (a : App) : option nat :=
  let range := Nat.min 300 (20 + currentLevel a) in
  let a1 := set_drawn (S (drawn a)) a in
  match g with
  | GUESS | SENTENCE | GRAMMAR | HANGMAN | COLORS => None
  | NUM_TO_WORD =>
      Some (length (remove_dups
                      ([numberToWords (numberAsked a)]
                       ++ nextDraws (range + 10) numberToWords fuel a1)))
  | WORD_TO_NUM =>
      Some (length (remove_dups
                      ([numberAsked a] ++ nextDraws (range + 10) id fuel a1)))
  | DAYS => Some (length (remove_dups (nextDraws (length days) id fuel a)))
  | MONTHS => Some (length (remove_dups (nextDraws (length months) id fuel a)))
  | _ =>
      corpus ← choiceCorpus g;
      '(prompt, answer) ← corpus !! (currentLevel a mod length corpus);
      Some (length (remove_dups
                      ([answer]
                       ++ nextDraws (length corpus)
                            (fun r => (nth r corpus (prompt, answer)).2) fuel a)))
  end.

(** Four options, the correct answer and three others. *)
Definition fourOptions (opts : list string) (answer : string) : Prop :=
  length opts = 4 ∧ NoDup opts ∧ answer ∈ opts ∧
  length (distractors opts answer) = 3 ∧ answer ∉ distractors opts answer.

(** The keys on the hangman screen are the keys [updateHangmanUI] renders
    for the letters guessed so far. *)
Definition keysInv (a : App) : Prop :=
  match content a with
  | HangmanView _ _ keys => keys = hangmanKeys (guessedLetters a)
  | _ => True
  end.

Definition notHangman (c : Content) : Prop :=
  match c with HangmanView _ _ _ => False | _ => True end.

(** A step that leaves the guessed letters alone, and the screen too unless
    it puts up the screen of another game. *)
Definition keepsKeys (a a' : App) : Prop :=
  guessedLetters a' = guessedLetters a ∧
  (content a' = content a ∨ notHangman (content a')).


(** The sentence built so far reads as the chips in the target area, no
    two chips on screen share a position or a word, and the chips on screen
    carry the words of the sentence to build. *)
Definition sentenceInv (a : App) : Prop :=
  match content a with
  | SentenceView _ target pool =>
      constructedSentence a = target.*2 ∧
      NoDup ((target ++ pool).*1) ∧ NoDup ((target ++ pool).*2) ∧
      (target ++ pool).*2 ≡ₚ targetSentence a
  | _ => False
  end.

(** [numberToWords] below 100 and below 1000, without the recursive call. *)
Definition below100 (n : nat) : string :=
  if decide (n < 20) then ones !!! n
  else tens !!! (n / 10)
         +:+ (if decide (n mod 10 ≠ 0) then " " +:+ ones !!! (n mod 10) else "").

Definition below1000 (n : nat) : string :=
  if decide (n < 100) then below100 n
  else ones !!! (n / 100) +:+ " HUNDRED"
         +:+ (if decide (n mod 100 ≠ 0) then " " +:+ below100 (n mod 100) else "").

(** Reading a text of number words back: the words between the spaces are
    added up, and [HUNDRED] multiplies what was read before it. *)
Fixpoint tokens (cur : string) (s : string) : list string :=
  match s with
  | EmptyString => [cur]
  | String c rest =>
      if Ascii.eqb c " " then cur :: tokens "" rest
      else tokens (cur +:+ String c "") rest
  end.

Definition wordValue (t : string) : nat :=
  match JS.indexOf t ones with
  | Some i => i
  | None => match JS.indexOf t tens with Some i => 10 * i | None => 0 end
  end.

Definition wordsValue (s : string) : nat :=
  foldl (fun acc t => if String.eqb t "HUNDRED" then acc * 100 else acc + wordValue t) 0
    (tokens "" s).

(** The cell shown at position [i] of the list, given the indices of the
    slots already filled and of the slots still empty. *)
Definition cellAt (filled todo : list nat) (i : nat) (item : string) : Cell :=
  if decide (i ∈ filled) then SlotCell i item
  else if decide (i ∈ todo) then SlotCell i "" else FixedCell item.

(** The board shows the list with the slots [filled] holding their own
    entries and the slots [todo] empty. *)
Definition boardAt (full : list string) (filled todo : list nat) (cells : list Cell)
    : Prop :=
  length cells = length full ∧
  ∀ i item, full !! i = Some item → cells !! i = Some (cellAt filled todo i item).

(** Projections of a state built by assignments reduce to the assigned value
    or to the projection of the state underneath. *)
Ltac app_simpl :=
  cbn [score currentLevel currentGame timerInterval timeLeft maxLevels 
       progress pendingGameType currentGuess constructedSentence 
       targetSentence currentGrammarData grammarStep hangmanWord 
       guessedLetters mistakes maxMistakes targetSequence missingIndices 
       fullList localStorage content gameScreenHidden modalHidden timeouts 
       feedback random drawn set_score set_currentLevel set_currentGame 
       set_timerInterval set_timeLeft set_maxLevels set_progress 
       set_pendingGameType set_currentGuess set_constructedSentence 
       set_targetSentence set_currentGrammarData set_grammarStep 
       set_hangmanWord set_guessedLetters set_mistakes set_maxMistakes 
       set_targetSequence set_missingIndices set_fullList set_localStorage 
       set_content set_gameScreenHidden set_modalHidden set_timeouts 
       set_feedback set_random set_drawn
       setTimeout showFeedback failAction stopTimer startTimer saveProgress
       showMenu showModal closeModal] in *.

(** * Properties *)

(** ** Strings *)

Lemma includes_app (s t : string) (c : ascii) :
  JS.includes (s +:+ t) c = JS.includes s c || JS.includes t c.
Proof.
  induction s as [|d s IH]; simpl; [done|].
  destruct (decide (d = c)); [done|]. apply IH.
Qed.

Lemma includes_elem_of (s : string) (c : ascii) :
  JS.includes s c = bool_decide (c ∈ JS.split s).
Proof.
  induction s as [|d s IH]; simpl.
  - done.
  - change (JS.split (String d s)) with (d :: JS.split s).
    destruct (decide (d = c)) as [->|Hd].
    + symmetry. apply bool_decide_eq_true. apply list_elem_of_here.
    + rewrite IH. apply bool_decide_ext. rewrite elem_of_cons. intuition congruence.
Qed.

Lemma includes_join (sep : string) (l : list string) (c : ascii) :
  JS.includes sep c = false →
  JS.includes (JS.join sep l) c = existsb (fun s => JS.includes s c) l.
Proof.
  intros Hsep. induction l as [|x l IH]; [done|].
  destruct l as [|y l].
  - simpl. by rewrite orb_false_r.
  - change (JS.join sep (x :: y :: l)) with (x +:+ sep +:+ JS.join sep (y :: l)).
    rewrite !includes_app, Hsep, IH. done.
Qed.

Lemma displayWord_blank (w : string) (guessed : gset ascii) :
  "_"%char ∉ JS.split w →
  JS.includes (displayWordOf w guessed) "_" = negb (covered w guessed).
Proof.
  intros Hw. unfold displayWordOf, covered.
  rewrite includes_join by done.
  induction (JS.split w) as [|l ls IH]; [done|].
  apply not_elem_of_cons in Hw as [Hl Hls].
  cbn [fmap list_fmap existsb forallb]. rewrite negb_andb, <- IH by done.
  f_equal. case_decide as Hg.
  - rewrite bool_decide_eq_true_2 by done. simpl. by case_decide.
  - by rewrite bool_decide_eq_false_2.
Qed.

Lemma displayWord_nothing_guessed (w : string) :
  w ≠ "" → JS.includes (displayWordOf w ∅) "_" = true.
Proof.
  destruct w as [|c w]; [done|]. intros _.
  unfold displayWordOf. rewrite includes_join by done.
  simpl. case_decide as H; [by apply not_elem_of_empty in H|]. done.
Qed.

(** ** C4: number to words *)

Lemma decimalDigits_read_back (n : nat) :
  Nat.of_uint <$> NilZero.uint_of_string (decimalDigits n) = Some n.
Proof.
  assert (Hnil : Nat.to_uint n ≠ Decimal.Nil).
  { intros H. pose proof (DecimalNat.Unsigned.of_to n) as E.
    rewrite H in E. simpl in E. subst n. discriminate H. }
  unfold decimalDigits. rewrite NilZero.usu by done. simpl. f_equal.
  apply DecimalNat.Unsigned.of_to.
Qed.

Lemma toString_safe (n : nat) :
  JS.isSafeInteger n = true → JS.toString n = decimalDigits n.
Proof. intros H. unfold JS.toString. by rewrite H. Qed.

(** [n.toString()] of a safe integer is read back as [n]. *)
Lemma toString_digits (n : nat) :
  JS.isSafeInteger n = true →
  Nat.of_uint <$> NilZero.uint_of_string (JS.toString n) = Some n.
Proof. intros H. rewrite toString_safe by done. apply decimalDigits_read_back. Qed.

Lemma toString_inj (n m : nat) :
  JS.isSafeInteger n = true → JS.isSafeInteger m = true →
  JS.toString n = JS.toString m → n = m.
Proof.
  intros Hn Hm H. pose proof (toString_digits n Hn) as Hd.
  rewrite H, toString_digits in Hd by done. congruence.
Qed.

Lemma isSafeInteger_below (n m : nat) :
  n ≤ m → JS.isSafeInteger m = true → JS.isSafeInteger n = true.
Proof. unfold JS.isSafeInteger. rewrite !N.leb_le. lia. Qed.

Lemma toString_beyond_safe (n : nat) (x : N) :
  N.of_nat n = x → (JS.MAX_SAFE_INTEGER < x)%N → (JS.toDouble x < 2 ^ 1024)%N →
  JS.toString n = JS.formatNumber (JS.shortest (JS.toDouble x)).
Proof.
  intros <- Hx Hfinite. unfold JS.toString, JS.isSafeInteger.
  rewrite (proj2 (N.leb_gt _ _)) by done. cbv zeta.
  by rewrite (proj2 (N.leb_gt _ _)).
Qed.

Lemma numberToWords_from_1000 (n : nat) : 1000 ≤ n → numberToWords n = JS.toString n.
Proof.
  intros Hn. rewrite numberToWords_equation_1.
  repeat case_decide; try lia. reflexivity.
Qed.

(** C4 as stated fails: [numberToWords(10^21)] is "1e+21", which is not the
    digit string of 10^21. *)
Lemma numberToWords_exponent_notation :
  1000 ≤ 10 ^ 21 ∧
  numberToWords (10 ^ 21) = "1e+21" ∧
  numberToWords (10 ^ 21) ≠ decimalDigits (10 ^ 21).
Proof.
  assert (Hbig : 1000 ≤ 10 ^ 21).
  { change 1000 with (10 ^ 3). apply Nat.pow_le_mono_r; [done|].
    apply Nat.leb_le. reflexivity. }
  assert (Hsci : numberToWords (10 ^ 21) = "1e+21").
  { rewrite numberToWords_from_1000 by exact Hbig.
    rewrite (toString_beyond_safe _ (10 ^ 21)%N).
    - vm_compute. reflexivity.
    - rewrite Nat2N.inj_pow. reflexivity.
    - reflexivity.
    - vm_compute. reflexivity. }
  split; [exact Hbig|]. split; [exact Hsci|].
  rewrite Hsci. intros Heq.
  pose proof (decimalDigits_read_back (10 ^ 21)) as Hback.
  rewrite <- Heq in Hback. discriminate Hback.
Qed.

(** C4, amended.  [numberToWords] returns "ZERO" for 0, "FIFTEEN" for 15,
    "FORTY TWO" for 42, "ONE HUNDRED" for 100 and "THREE HUNDRED FIVE" for
    305.  From 1000 on it returns [n.toString()], which for every safe
    integer (up to 2^53 - 1) is the decimal digit string of [n]. *)
Theorem numberToWords_examples_and_digits :
  numberToWords 0 = "ZERO" ∧
  numberToWords 15 = "FIFTEEN" ∧
  numberToWords 42 = "FORTY TWO" ∧
  numberToWords 100 = "ONE HUNDRED" ∧
  numberToWords 305 = "THREE HUNDRED FIVE" ∧
  ∀ n, 1000 ≤ n →
    numberToWords n = JS.toString n ∧
    (JS.isSafeInteger n = true →
     numberToWords n = decimalDigits n ∧
     Nat.of_uint <$> NilZero.uint_of_string (numberToWords n) = Some n).
Proof.
  repeat split; try reflexivity.
  - by apply numberToWords_from_1000.
  - rewrite numberToWords_from_1000 by done. by apply toString_safe.
  - rewrite numberToWords_from_1000 by done. by apply toString_digits.
Qed.

Lemma numberToWords_digits_witness :
  1000 ≤ 1234 ∧ JS.isSafeInteger 1234 = true ∧ numberToWords 1234 = "1234".
Proof.
  assert (Hn : 1000 ≤ 1234) by (apply Nat.leb_le; reflexivity).
  assert (Hsafe : JS.isSafeInteger 1234 = true) by reflexivity.
  split; [exact Hn|]. split; [exact Hsafe|].
  destruct numberToWords_examples_and_digits as (_ & _ & _ & _ & _ & Hfrom).
  exact (proj1 (proj2 (Hfrom 1234 Hn) Hsafe)).
Defined.

(** ** The two outcomes *)

Lemma successAction_shape (t : string) (a : App) :
  ∃ p ms,
    successAction t a =
    setTimeout CbNextLevel ms
      (set_progress p
         (set_currentLevel (S (currentLevel a))
            (showFeedback Succeeded t (set_score (score a + 10) a)))).
Proof.
  unfold successAction. simpl.
  destruct (progress a !! progressKey (currentGame a));
    destruct (bool_decide (t ≠ "") && isLongSequence _); eauto.
Qed.

(** ** Hangman *)

Lemma hangman_corpus_lookup (lvl : nat) :
  is_Some (libraries.hangman !! (lvl mod length libraries.hangman)).
Proof. apply lookup_lt_is_Some_2, Nat.mod_upper_bound. done. Qed.

Lemma hangmanWords_lookup (lvl : nat) :
  ∃ d, hangmanWords !! (lvl mod length hangmanWords) = Some d ∧ word d ≠ "".
Proof.
  destruct (lookup_lt_is_Some_2 hangmanWords (lvl mod length hangmanWords))
    as [d Hd]; [apply Nat.mod_upper_bound; done|].
  exists d. split; [done|].
  apply list_elem_of_lookup_2 in Hd.
  repeat (apply elem_of_cons in Hd as [->|Hd]; [done|]).
  by apply elem_of_nil in Hd.
Qed.

Lemma renderHangmanGame_fresh (a : App) :
  ∃ d, hangmanWords !! (currentLevel a mod length hangmanWords) = Some d ∧
       renderHangmanGame a =
       set_content
         (HangmanView (hint d) (displayWordOf (word d) ∅) (hangmanKeys ∅))
         (set_maxMistakes 6
            (set_mistakes 0 (set_guessedLetters ∅ (set_hangmanWord (word d) a)))).
Proof.
  destruct (hangmanWords_lookup (currentLevel a)) as (d & Hd & Hne).
  exists d. split; [done|].
  unfold renderHangmanGame. rewrite Hd. unfold updateHangmanUI. simpl.
  rewrite displayWord_nothing_guessed by done. reflexivity.
Qed.

(** What one call of [guessHangman] does to the hangman state and to the
    feedback overlay. *)
Lemma guessHangman_step (l : ascii) (a : App) :
  let w := hangmanWord a in
  let g := {[l]} ∪ guessedLetters a in
  let m := if JS.includes w l then mistakes a else S (mistakes a) in
  ∃ e,
    libraries.hangman !! (currentLevel a mod length libraries.hangman) = Some e ∧
    hangmanWord (guessHangman l a) = w ∧
    guessedLetters (guessHangman l a) = g ∧
    mistakes (guessHangman l a) = m ∧
    maxMistakes (guessHangman l a) = maxMistakes a ∧
    content (guessHangman l a) =
      HangmanView (hint e) (displayWordOf w g) (hangmanKeys g) ∧
    feedback (guessHangman l a) =
      feedback a ++
        (if negb (JS.includes (displayWordOf w g) "_") then [(Succeeded, w)]
         else if decide (maxMistakes a ≤ m) then [(Failed, w)] else []).
Proof.
  intros w g m.
  destruct (hangman_corpus_lookup (currentLevel a)) as [e He].
  exists e. split; [done|].
  subst w g m. unfold guessHangman. app_simpl.
  destruct (JS.includes (hangmanWord a) l) eqn:Hin; app_simpl; rewrite He;
    unfold updateHangmanUI; app_simpl;
    (destruct (JS.includes (displayWordOf _ _) "_"); cbn [negb];
     [ case_decide; app_simpl; rewrite ?app_nil_r; done
     | match goal with |- context [successAction ?t ?b] =>
         destruct (successAction_shape t b) as (p & ms & ->) end; done ]).
Qed.

Lemma covered_spec (w : string) (g : gset ascii) :
  covered w g = true ↔ ∀ c, c ∈ JS.split w → c ∈ g.
Proof.
  unfold covered. rewrite forallb_forall. split.
  - intros H c Hc. apply list_elem_of_In in Hc. apply H in Hc.
    by apply bool_decide_eq_true in Hc.
  - intros H c Hc. apply list_elem_of_In in Hc.
    apply bool_decide_eq_true. by apply H.
Qed.

Lemma displayWord_has_blank (w : string) (g : gset ascii) (c : ascii) :
  c ∈ JS.split w → c ∉ g → JS.includes (displayWordOf w g) "_" = true.
Proof.
  intros Hc Hg. unfold displayWordOf. rewrite includes_join by done.
  apply existsb_exists. exists "_". split; [|done].
  apply list_elem_of_In, list_elem_of_fmap. exists c. split; [|done].
  by rewrite decide_False.
Qed.

Lemma guessAll_snoc (ls : list ascii) (l : ascii) (a : App) :
  guessAll (ls ++ [l]) a = guessHangman l (guessAll ls a).
Proof. unfold guessAll. by rewrite foldl_app. Qed.

(** Guessing letters of the word: no mistake is counted, and nothing is
    reported as long as some letter of the word is still missing. *)
Lemma guessAll_present (w : string) (a : App) (ls : list ascii) :
  freshHangman w a →
  "_"%char ∉ JS.split w →
  (∀ c, c ∈ ls → c ∈ JS.split w) →
  (∃ c, c ∈ JS.split w ∧ c ∉ ls) →
  (∀ c, c ∈ guessedLetters (guessAll ls a) ↔ c ∈ ls) ∧
  hangmanWord (guessAll ls a) = w ∧
  mistakes (guessAll ls a) = 0 ∧
  maxMistakes (guessAll ls a) = 6 ∧
  feedback (guessAll ls a) = feedback a.
Proof.
  intros (Hw & Hg & Hm & Hmax) Hblank.
  induction ls as [|l ls IH] using rev_ind; intros Hin Hmiss.
  - cbn. rewrite Hg. repeat split; try done; set_solver.
  - destruct IH as (IHg & IHw & IHm & IHmax & IHf).
    { intros c Hc. apply Hin. set_solver. }
    { destruct Hmiss as (c & Hc & Hn). exists c. set_solver. }
    rewrite guessAll_snoc.
    destruct (guessHangman_step l (guessAll ls a))
      as (e & _ & Ew & Eg & Em & Emax & _ & Ef).
    rewrite IHw, IHm, IHmax in *.
    assert (Hl : JS.includes w l = true).
    { rewrite includes_elem_of. apply bool_decide_eq_true. apply Hin. set_solver. }
    rewrite Hl in Em, Ef.
    assert (Hmem : ∀ c, c ∈ guessedLetters (guessHangman l (guessAll ls a)) ↔ c ∈ ls ++ [l]).
    { intros c. rewrite Eg. rewrite elem_of_union, IHg. set_solver. }
    destruct Hmiss as (c & Hc & Hn).
    rewrite (displayWord_has_blank w _ c) in Ef; [|done|].
    2:{ rewrite <- Eg, Hmem. done. }
    cbn [negb] in Ef. rewrite decide_False in Ef by lia. rewrite app_nil_r in Ef.
    rewrite Ef, IHf. repeat split; try done; apply Hmem.
Qed.

(** Guessing letters that are not in the word: each one is counted, and
    nothing is reported before the sixth. *)
Lemma guessAll_absent (w : string) (a : App) (ls : list ascii) :
  freshHangman w a →
  w ≠ "" →
  (∀ c, c ∈ ls → c ∉ JS.split w) →
  length ls < 6 →
  (∀ c, c ∈ guessedLetters (guessAll ls a) ↔ c ∈ ls) ∧
  hangmanWord (guessAll ls a) = w ∧
  mistakes (guessAll ls a) = length ls ∧
  maxMistakes (guessAll ls a) = 6 ∧
  feedback (guessAll ls a) = feedback a.
Proof.
  intros (Hw & Hg & Hm & Hmax) Hne.
  induction ls as [|l ls IH] using rev_ind; intros Hout Hlen.
  - cbn. rewrite Hg. repeat split; try done; set_solver.
  - rewrite length_app in Hlen. cbn in Hlen.
    destruct IH as (IHg & IHw & IHm & IHmax & IHf).
    { intros c Hc. apply Hout. set_solver. }
    { lia. }
    rewrite guessAll_snoc.
    destruct (guessHangman_step l (guessAll ls a))
      as (e & _ & Ew & Eg & Em & Emax & _ & Ef).
    rewrite IHw, IHm, IHmax in *.
    assert (Hl : JS.includes w l = false).
    { rewrite includes_elem_of. apply bool_decide_eq_false. apply Hout. set_solver. }
    rewrite Hl in Em, Ef.
    assert (Hmem : ∀ c, c ∈ guessedLetters (guessHangman l (guessAll ls a)) ↔ c ∈ ls ++ [l]).
    { intros c. rewrite Eg. rewrite elem_of_union, IHg. set_solver. }
    destruct w as [|c0 w0]; [done|].
    rewrite (displayWord_has_blank _ _ c0) in Ef.
    2:{ apply list_elem_of_here. }
    2:{ rewrite <- Eg, Hmem. intros Hc0. apply Hout in Hc0. apply Hc0, list_elem_of_here. }
    cbn [negb] in Ef. rewrite decide_False in Ef by lia. rewrite app_nil_r in Ef.
    rewrite Ef, IHf, Em, length_app. cbn. repeat split; try done; try lia; apply Hmem.
Qed.

(** C5. From the state [renderHangmanGame] sets up for a word [w]: guessing
    exactly the distinct letters of [w], in any order and without repeats,
    reports success with the last guess and nothing before; guessing six
    letters that are not in [w] reports failure with the sixth guess, when
    six mistakes have been counted, and nothing before. *)
Theorem hangman_win_and_loss (w : string) (a : App) :
  freshHangman w a →
  w ≠ "" →
  (∀ ls,
     "_"%char ∉ JS.split w →
     NoDup ls →
     (∀ c, c ∈ ls ↔ c ∈ JS.split w) →
     feedback (guessAll ls a) = feedback a ++ [(Succeeded, w)] ∧
     ∀ n, n < length ls → feedback (guessAll (take n ls) a) = feedback a) ∧
  (∀ ls,
     length ls = 6 →
     (∀ c, c ∈ ls → c ∉ JS.split w) →
     feedback (guessAll ls a) = feedback a ++ [(Failed, w)] ∧
     mistakes (guessAll ls a) = 6 ∧
     ∀ n, n < 6 →
       feedback (guessAll (take n ls) a) = feedback a ∧
       mistakes (guessAll (take n ls) a) = n).
Proof.
  intros Hfresh Hne. split.
  - intros ls Hblank Hnd Hls.
    assert (Hprefix : ∀ n, n < length ls →
              (∀ c, c ∈ take n ls → c ∈ JS.split w) ∧
              ∃ c, c ∈ JS.split w ∧ c ∉ take n ls).
    { intros n Hn. split.
      - intros c Hc. apply Hls. eapply subseteq_take, Hc.
      - destruct (lookup_lt_is_Some_2 ls n Hn) as [c Hc]. exists c. split.
        + apply Hls. eapply list_elem_of_lookup_2, Hc.
        + intros Hin. apply list_elem_of_lookup in Hin as [i Hi].
          assert (i < n).
          { apply lookup_lt_Some in Hi. rewrite length_take in Hi. lia. }
          rewrite lookup_take_lt in Hi by done.
          pose proof (NoDup_lookup _ _ _ _ Hnd Hi Hc). lia. }
    split.
    + destruct ls as [|l0 ls0] using rev_ind.
      { destruct w as [|c0 w0]; [done|].
        exfalso. eapply not_elem_of_nil, Hls, list_elem_of_here. }
      clear IHls0. rewrite guessAll_snoc.
      destruct (Hprefix (length ls0)) as [Hin Hmiss].
      { rewrite length_app. cbn. lia. }
      rewrite take_app_length in Hin, Hmiss.
      destruct (guessAll_present w a ls0 Hfresh Hblank Hin Hmiss)
        as (IHg & IHw & IHm & IHmax & IHf).
      destruct (guessHangman_step l0 (guessAll ls0 a))
        as (e & _ & _ & _ & _ & _ & _ & Ef).
      rewrite IHw, IHm, IHmax, IHf in Ef. rewrite Ef. f_equal.
      rewrite displayWord_blank by done.
      assert (Hcov : covered w ({[l0]} ∪ guessedLetters (guessAll ls0 a)) = true).
      { apply covered_spec. intros c Hc. apply Hls in Hc.
        rewrite elem_of_union, IHg. set_solver. }
      by rewrite Hcov.
    + intros n Hn. destruct (Hprefix n Hn) as [Hin Hmiss].
      by destruct (guessAll_present w a (take n ls) Hfresh Hblank Hin Hmiss)
        as (_ & _ & _ & _ & ->).
  - intros ls Hlen Hout.
    assert (Hprefix : ∀ n, n < 6 →
              feedback (guessAll (take n ls) a) = feedback a ∧
              mistakes (guessAll (take n ls) a) = n ∧
              hangmanWord (guessAll (take n ls) a) = w ∧
              maxMistakes (guessAll (take n ls) a) = 6 ∧
              ∀ c, c ∈ guessedLetters (guessAll (take n ls) a) ↔ c ∈ take n ls).
    { intros n Hn.
      destruct (guessAll_absent w a (take n ls) Hfresh Hne)
        as (Hg & Hw & Hm & Hmax & Hf).
      { intros c Hc. apply Hout. eapply subseteq_take, Hc. }
      { rewrite length_take. lia. }
      rewrite length_take in Hm. repeat split; try done; try lia; apply Hg. }
    assert (Hall : feedback (guessAll ls a) = feedback a ++ [(Failed, w)] ∧
                   mistakes (guessAll ls a) = 6).
    { destruct ls as [|l0 ls0] using rev_ind; [done|]. clear IHls0.
      rewrite length_app in Hlen. cbn in Hlen.
      destruct (Hprefix 5) as (Hf & Hm & Hw & Hmax & Hg); [lia|].
      replace (take 5 (ls0 ++ [l0])) with ls0 in *.
      2:{ rewrite take_app_le by lia. rewrite take_ge by lia. done. }
      rewrite guessAll_snoc.
      destruct (guessHangman_step l0 (guessAll ls0 a))
        as (e & _ & _ & Eg & Em & _ & _ & Ef).
      rewrite Hw, Hm, Hmax, Hf in *.
      assert (Hl : JS.includes w l0 = false).
      { rewrite includes_elem_of. apply bool_decide_eq_false. apply Hout. set_solver. }
      rewrite Hl in Em, Ef. split; [|done].
      destruct w as [|c0 w0]; [done|].
      rewrite (displayWord_has_blank _ _ c0) in Ef.
      2:{ apply list_elem_of_here. }
      2:{ rewrite elem_of_union, Hg. intros [Hc0|Hc0].
          - apply (Hout c0); [set_solver|apply list_elem_of_here].
          - apply (Hout c0); [set_solver|apply list_elem_of_here]. }
      cbn [negb] in Ef. by rewrite decide_True in Ef by lia. }
    destruct Hall as [Hf Hm]. repeat split; try done; by apply Hprefix.
Qed.

Lemma hangman_win_and_loss_witness :
  let a := renderHangmanGame (newApp NoItem (fun k => k)) in
  freshHangman "GALAXY" a ∧
  feedback (guessAll ["Y"; "X"; "L"; "A"; "G"]%char a)
    = feedback a ++ [(Succeeded, "GALAXY")] ∧
  feedback (guessAll ["B"; "C"; "D"; "E"; "F"; "H"]%char a)
    = feedback a ++ [(Failed, "GALAXY")].
Proof.
  intros a.
  assert (Hfresh : freshHangman "GALAXY" a).
  { split; [vm_compute; reflexivity|]. split; [vm_compute; reflexivity|].
    split; vm_compute; reflexivity. }
  assert (Hne : "GALAXY" ≠ "") by discriminate.
  destruct (hangman_win_and_loss "GALAXY" a Hfresh Hne) as [Hwin Hloss].
  assert (H1 : "_"%char ∉ JS.split "GALAXY") by compute_done.
  assert (H2 : NoDup ["Y"; "X"; "L"; "A"; "G"]%char) by compute_done.
  assert (H3 : ∀ c, c ∈ ["Y"; "X"; "L"; "A"; "G"]%char ↔ c ∈ JS.split "GALAXY").
  { intros c. cbn. rewrite !elem_of_cons, !elem_of_nil. tauto. }
  assert (H4 : length ["B"; "C"; "D"; "E"; "F"; "H"]%char = 6) by reflexivity.
  assert (H5 : ∀ c, c ∈ ["B"; "C"; "D"; "E"; "F"; "H"]%char → c ∉ JS.split "GALAXY")
    by (apply Forall_forall; compute_done).
  split; [exact Hfresh|]. split.
  - exact (proj1 (Hwin _ H1 H2 H3)).
  - exact (proj1 (Hloss _ H4 H5)).
Defined.

(** C10. The word to guess is entry [level mod 4] of the list inside
    [renderHangmanGame], shown with its own hint; the hint put on screen by
    every later guess is that of entry [level mod 14] of the hangman corpus.
    Whenever the two indices differ, that entry is another word with another
    hint. *)
Theorem hangman_hint_from_the_corpus (a : App) (l : ascii) :
  length hangmanWords = 4 ∧
  length libraries.hangman = 14 ∧
  ∃ d e,
    hangmanWords !! (currentLevel a mod 4) = Some d ∧
    libraries.hangman !! (currentLevel a mod 14) = Some e ∧
    hangmanWord (renderHangmanGame a) = word d ∧
    shownHint (renderHangmanGame a) = Some (hint d) ∧
    (∀ b, currentLevel b = currentLevel a →
          hangmanWord b = word d →
          hangmanWord (guessHangman l b) = word d ∧
          shownHint (guessHangman l b) = Some (hint e)) ∧
    (currentLevel a mod 4 ≠ currentLevel a mod 14 →
     word e ≠ word d ∧ hint e ≠ hint d).
Proof.
  split; [reflexivity|]. split; [reflexivity|].
  destruct (renderHangmanGame_fresh a) as (d & Hd & Hr).
  destruct (hangman_corpus_lookup (currentLevel a)) as [e He].
  change (length hangmanWords) with 4 in Hd.
  change (length libraries.hangman) with 14 in He.
  exists d, e. rewrite Hr. repeat split; try done.
  - destruct (guessHangman_step l b) as (e' & He' & Hw & _). by rewrite Hw.
  - destruct (guessHangman_step l b) as (e' & He' & _ & _ & _ & _ & Hc & _).
    change (length libraries.hangman) with 14 in He'.
    unfold shownHint. rewrite Hc. congruence.
  - revert H. revert Hd He.
    pose proof (Nat.mod_upper_bound (currentLevel a) 4) as Hi.
    pose proof (Nat.mod_upper_bound (currentLevel a) 14) as Hj.
    generalize dependent (currentLevel a mod 4).
    generalize dependent (currentLevel a mod 14).
    intros j Hj i Hi Hd He Hij.
    do 4 (destruct i as [|i];
          [ do 14 (destruct j as [|j]; [by simplify_eq/= |]); lia |]).
    lia.
  - revert H. revert Hd He.
    pose proof (Nat.mod_upper_bound (currentLevel a) 4) as Hi.
    pose proof (Nat.mod_upper_bound (currentLevel a) 14) as Hj.
    generalize dependent (currentLevel a mod 4).
    generalize dependent (currentLevel a mod 14).
    intros j Hj i Hi Hd He Hij.
    do 4 (destruct i as [|i];
          [ do 14 (destruct j as [|j]; [by simplify_eq/= |]); lia |]).
    lia.
Qed.

Lemma hangman_hint_from_the_corpus_witness :
  let a := set_currentLevel 4 (newApp NoItem (fun k => k)) in
  ∃ d e,
    word d = "GALAXY" ∧ word e = "COMPUTER" ∧
    hangmanWord (guessHangman "G" (renderHangmanGame a)) = word d ∧
    shownHint (guessHangman "G" (renderHangmanGame a)) = Some (hint e) ∧
    hint e ≠ hint d.
Proof.
  intros a.
  destruct (hangman_hint_from_the_corpus a "G")
    as (_ & _ & d & e & Hd & He & Hw & Hh & Hguess & Hne).
  vm_compute in Hd. vm_compute in He.
  injection Hd as Hd. injection He as He.
  assert (Hlvl : currentLevel (renderHangmanGame a) = currentLevel a)
    by (vm_compute; reflexivity).
  assert (Hij : currentLevel a mod 4 ≠ currentLevel a mod 14)
    by (vm_compute; discriminate).
  exists d, e. split; [by rewrite <- Hd|]. split; [by rewrite <- He|].
  split; [exact (proj1 (Hguess _ Hlvl Hw))|].
  split; [exact (proj2 (Hguess _ Hlvl Hw))|].
  exact (proj2 (Hne Hij)).
Defined.

(** ** Word guessing: placing and undoing letters *)

Lemma length_snoc (s : string) (c : ascii) :
  String.length (s +:+ String c "") = S (String.length s).
Proof. induction s as [|d s IH]; simpl; [done|]. by rewrite IH. Qed.

Lemma get_snoc (s : string) (c : ascii) :
  String.get (String.length s) (s +:+ String c "") = Some c.
Proof. induction s as [|d s IH]; simpl; done. Qed.

Lemma dropLast_snoc (s : string) (c : ascii) : JS.dropLast (s +:+ String c "") = s.
Proof.
  unfold JS.dropLast, JS.unsplit, JS.split.
  assert (H : list_ascii_of_string (s +:+ String c "") = list_ascii_of_string s ++ [c]).
  { induction s as [|d s IH]; simpl; [done|]. by rewrite IH. }
  rewrite H, removelast_last. apply string_of_list_ascii_of_string.
Qed.

Lemma releaseTile_markUsed (n btn : nat) (b : LetterBtn) (pool : list LetterBtn) :
  Forall (tileOk n) pool →
  pool !! btn = Some b →
  spent b = false →
  releaseTile (letter b) n (alter (markUsed n) btn pool) = pool.
Proof.
  intros Hok. revert btn. induction Hok as [|x pool Hx Hpool IH]; intros btn Hb Hfree.
  - done.
  - destruct btn as [|btn]; simpl in *.
    + injection Hb as ->. rewrite decide_True by done.
      destruct b as [c u s]. unfold tileOk in Hx. simpl in *. subst s.
      destruct u as [i|]; [by destruct Hx|done].
    + rewrite decide_False.
      * f_equal. by apply IH.
      * intros [_ Hu]. unfold tileOk in Hx. rewrite Hu in Hx. lia.
Qed.

Lemma tileOk_markUsed (n btn : nat) (pool : list LetterBtn) :
  Forall (tileOk n) pool → Forall (tileOk (S n)) (alter (markUsed n) btn pool).
Proof.
  intros Hok. apply Forall_lookup. intros i x Hx.
  destruct (decide (i = btn)) as [->|Hne].
  - rewrite list_lookup_alter_eq in Hx.
    destruct (pool !! btn); [|done]. injection Hx as <-.
    unfold tileOk. simpl. split; [done|lia].
  - rewrite list_lookup_alter_ne in Hx by done.
    pose proof (Forall_lookup_1 _ _ _ _ Hok Hx) as Hi.
    unfold tileOk in *. destruct (usedIdx x); [|done]. split; [tauto|lia].
Qed.

(** The engine does not look at the rest of the state. *)
Lemma undoLetter_engine (a b : App) :
  engineState a = engineState b →
  engineState (undoLetter a) = engineState (undoLetter b).
Proof.
  unfold engineState. intros [= Hg Hc]. unfold undoLetter. rewrite Hg, Hc.
  destruct (decide (String.length (currentGuess b) = 0)); [congruence|].
  destruct (content b) eqn:Hcb; try congruence.
  destruct (decide (_ < _)); [|congruence].
  destruct (String.get _ _); [|congruence].
  app_simpl. by rewrite Hg.
Qed.

Lemma undoLetter_iter_engine (n : nat) (a b : App) :
  engineState a = engineState b →
  engineState (Nat.iter n undoLetter a) = engineState (Nat.iter n undoLetter b).
Proof.
  intros H. induction n as [|n IH]; [done|]. simpl. by apply undoLetter_engine.
Qed.

(** A click on a tile either changes nothing, or puts the letter of the tile
    at the end of the buffer; in the second case [undoLetter] brings the
    buffer, the slots and the tiles back. *)
Lemma letterClick_cases (btn : nat) (a : App) :
  guessInv a →
  gameClick (LetterClick btn) a = a ∨
  ∃ c,
    currentGuess (gameClick (LetterClick btn) a) = currentGuess a +:+ String c "" ∧
    guessInv (gameClick (LetterClick btn) a) ∧
    engineState (undoLetter (gameClick (LetterClick btn) a)) = engineState a.
Proof.
  intros Hinv. unfold gameClick.
  destruct (content a) as [|im slots pool| | | | | |] eqn:Hc; try by left.
  destruct (pool !! btn) as [b|] eqn:Hb; [|by left].
  destruct (spent b) eqn:Hfree; [by left|].
  unfold handleLetterClick. rewrite Hc.
  destruct (guessPool !! _) as [levelData|]; [|by left].
  case_decide as Hroom; [|by left].
  case_decide as Hslot; [|by left].
  right. exists (letter b). app_simpl.
  rewrite length_snoc.
  replace (S (String.length (currentGuess a)) - 1)
    with (String.length (currentGuess a)) by lia.
  set (n := String.length (currentGuess a)) in *.
  set (placed := set_content _ (set_currentGuess _ a)).
  unfold guessInv in Hinv. rewrite Hc in Hinv. destruct Hinv as [Hpool Hslots].
  assert (Hplaced :
    currentGuess placed = currentGuess a +:+ String (letter b) "" ∧
    guessInv placed ∧
    engineState (undoLetter placed) = engineState a).
  { subst placed. split; [done|]. split.
    - unfold guessInv. app_simpl. rewrite length_snoc. fold n. split.
      + by apply tileOk_markUsed.
      + intros i Hi Hlen. rewrite length_insert in Hlen.
        rewrite list_lookup_insert_ne by lia. apply Hslots; lia.
    - unfold undoLetter, engineState. app_simpl. rewrite length_snoc. fold n.
      rewrite decide_False by lia. replace (S n - 1) with n by lia.
      rewrite decide_True by (by rewrite length_insert).
      subst n. rewrite get_snoc. app_simpl. rewrite dropLast_snoc.
      rewrite releaseTile_markUsed by done.
      rewrite list_insert_insert_eq, list_insert_id by (apply Hslots; lia).
      by rewrite Hc. }
  assert (Hsame : ∀ x, currentGuess x = currentGuess placed →
                       content x = content placed →
                       currentGuess x = currentGuess a +:+ String (letter b) "" ∧
                       guessInv x ∧
                       engineState (undoLetter x) = engineState a).
  { intros x Hg Hcx. destruct Hplaced as (H1 & H2 & H3). split; [congruence|]. split.
    - unfold guessInv in *. by rewrite Hcx, Hg.
    - rewrite <- H3. apply undoLetter_engine. unfold engineState. congruence. }
  case_decide; [|by apply Hsame].
  case_decide.
  - match goal with |- context [successAction ?t ?x] =>
      destruct (successAction_shape t x) as (p & ms & ->) end.
    by apply Hsame.
  - by apply Hsame.
Qed.

(** ** The random source: only the draw counter moves *)

Lemma set_drawn_same (a : App) : a = set_drawn (drawn a) a.
Proof. by destruct a. Qed.

Lemma drawExtras_state (n : nat) (extras : string) (a : App) :
  ∃ k, (drawExtras n extras a).2 = set_drawn k a.
Proof.
  revert extras a. induction n as [|n IH]; intros extras a; simpl.
  - exists (drawn a). apply set_drawn_same.
  - destruct (IH (extras +:+ String (nth (randomBelow 26 a).1 (JS.split alphabet) "A"%char) "")
                 (set_drawn (S (drawn a)) a)) as [k Hk].
    exists k. exact Hk.
Qed.

Lemma shuffleFrom_state {A} (i : nat) (array : list A) (a : App) :
  ∃ k, (shuffleFrom i array a).2 = set_drawn k a.
Proof.
  revert array a. induction i as [|i IH]; intros array a; simpl.
  - exists (drawn a). apply set_drawn_same.
  - destruct (IH (swap (S i) (randomBelow (S i + 1) a).1 array)
                 (set_drawn (S (drawn a)) a)) as [k Hk].
    exists k. exact Hk.
Qed.

Lemma shuffleArray_state {A} (array : list A) (a : App) :
  ∃ k, (shuffleArray array a).2 = set_drawn k a.
Proof. apply shuffleFrom_state. Qed.

Lemma pickOrder_state {A} (n : nat) (l : list A) (a : App) :
  ∃ k, (pickOrder n l a).2 = set_drawn k a.
Proof.
  revert l a. induction n as [|n IH]; intros l a; simpl.
  - exists (drawn a). apply set_drawn_same.
  - destruct (l !! _) as [x|]; simpl; [|exists (S (drawn a)); reflexivity].
    destruct (IH (delete (randomBelow (length l) a).1 l) (set_drawn (S (drawn a)) a))
      as [k Hk].
    destruct (pickOrder n _ _) as [rest a']. simpl in *. by exists k.
Qed.

Lemma sortRandom_state {A} (l : list A) (a : App) :
  ∃ k, (sortRandom l a).2 = set_drawn k a.
Proof. apply pickOrder_state. Qed.

Lemma shuffleString_state (str : string) (a : App) :
  ∃ k, (shuffleString str a).2 = set_drawn k a.
Proof.
  unfold shuffleString. destruct (sortRandom_state (JS.split str) a) as [k Hk].
  destruct (sortRandom _ _) as [l a']. by exists k.
Qed.

Lemma drawDistinct_state `{EqDecision A} (fuel bound : nat) (pick : nat → A)
    (options res : list A) (a a' : App) :
  drawDistinct fuel bound pick options a = Some (res, a') →
  ∃ k, a' = set_drawn k a.
Proof.
  revert options a. induction fuel as [|fuel IH]; intros options a; simpl.
  - case_decide; [done|]. intros [= _ <-]. exists (drawn a). apply set_drawn_same.
  - case_decide; [|intros [= _ <-]; exists (drawn a); apply set_drawn_same].
    case_decide; intros Hrec; apply IH in Hrec as [k ->]; by exists k.
Qed.

(** ** The screen of the guessing game *)

Lemma guessPool_lookup (lvl : nat) :
  is_Some (guessPool !! (lvl mod length guessPool)).
Proof. apply lookup_lt_is_Some_2, Nat.mod_upper_bound. done. Qed.

Lemma renderGuessGame_view (a : App) :
  ∃ item letters k,
    guessPool !! (currentLevel a mod length guessPool) = Some item ∧
    renderGuessGame a =
      set_currentGuess ""
        (set_content
           (GuessView (img item) ((fun _ => "") <$> JS.split (answer item))
              (freshTile <$> JS.split letters))
           (set_drawn k a)).
Proof.
  destruct (guessPool_lookup (currentLevel a)) as [item Hitem].
  unfold renderGuessGame. rewrite Hitem.
  destruct (drawExtras_state (3 + Nat.min 6 (currentLevel a / 5)) "" a) as [k1 Hk1].
  destruct (drawExtras _ _ _) as [extras a1]. simpl in Hk1. subst a1.
  destruct (shuffleString_state (answer item +:+ extras) (set_drawn k1 a)) as [k2 Hk2].
  destruct (shuffleString _ _) as [letters a2]. simpl in Hk2. subst a2.
  by exists item, letters, k2.
Qed.

Lemma renderGuessGame_inv (a : App) : guessInv (renderGuessGame a).
Proof.
  destruct (renderGuessGame_view a) as (item & letters & k & _ & ->).
  unfold guessInv. app_simpl. split.
  - apply Forall_fmap, Forall_forall. intros l _. by unfold tileOk.
  - intros i _ Hi. rewrite length_fmap in Hi.
    destruct (lookup_lt_is_Some_2 _ _ Hi) as [c Hc].
    by rewrite list_lookup_fmap, Hc.
Qed.

Lemma tapAll_inv (btns : list nat) (a : App) : guessInv a → guessInv (tapAll btns a).
Proof.
  revert a. induction btns as [|b btns IH]; intros a Ha; [done|].
  cbn [tapAll foldl]. apply IH.
  destruct (letterClick_cases b a Ha) as [->|(c & _ & H & _)]; done.
Qed.

(** C8. After [renderGuessGame] and any sequence of clicks on letter tiles:
    a click that places a letter, followed by [undoLetter], leaves the guess
    buffer, the slots and the tiles exactly as they were before the click;
    undoing as many times as there are letters in the buffer brings back the
    buffer, slots and tiles of the freshly rendered level; and [undoLetter]
    on the empty buffer changes nothing. *)
Theorem undo_restores_engine_state (a0 : App) (btns : list nat) :
  let start := renderGuessGame a0 in
  let a := tapAll btns start in
  undoLetter start = start ∧
  (∀ btn,
     currentGuess (gameClick (LetterClick btn) a) ≠ currentGuess a →
     engineState (undoLetter (gameClick (LetterClick btn) a)) = engineState a) ∧
  engineState (Nat.iter (String.length (currentGuess a)) undoLetter a)
    = engineState start.
Proof.
  intros start a. split; [|split].
  - subst start. destruct (renderGuessGame_view a0) as (item & letters & k & _ & ->).
    reflexivity.
  - intros btn Hplaced.
    destruct (letterClick_cases btn a) as [Hsame|(c & _ & _ & H)].
    + apply tapAll_inv, renderGuessGame_inv.
    + by rewrite Hsame in Hplaced.
    + exact H.
  - subst a. induction btns as [|b btns IH] using rev_ind.
    + simpl. subst start.
      destruct (renderGuessGame_view a0) as (item & letters & k & _ & ->).
      reflexivity.
    + unfold tapAll in *. rewrite foldl_app. cbn [foldl].
      set (a := foldl _ start btns) in *.
      destruct (letterClick_cases b a) as [->|(c & Hg & _ & Hundo)].
      * apply (tapAll_inv btns start), renderGuessGame_inv.
      * exact IH.
      * rewrite Hg, length_snoc, Nat.iter_succ_r.
        rewrite <- IH. by apply undoLetter_iter_engine.
Qed.

Lemma undo_restores_engine_state_witness :
  let a := tapAll [0] (renderGuessGame (newApp NoItem (fun k => k))) in
  engineState (undoLetter (gameClick (LetterClick 3) a)) = engineState a.
Proof.
  intros a.
  assert (Hplaced : currentGuess (gameClick (LetterClick 3) a) ≠ currentGuess a)
    by (vm_compute; discriminate).
  exact (proj1 (proj2 (undo_restores_engine_state (newApp NoItem (fun k => k)) [0]))
           3 Hplaced).
Defined.

(** ** What the engines leave alone *)


Lemma frameOf_set_drawn (k : nat) (a : App) : frameOf (set_drawn k a) = frameOf a.
Proof. reflexivity. Qed.

Lemma successAction_facts (t : string) (b : App) :
  let a' := successAction t b in
  let key := progressKey (currentGame b) in
  score a' = score b + 10 ∧
  currentLevel a' = S (currentLevel b) ∧
  currentGame a' = currentGame b ∧
  maxLevels a' = maxLevels b ∧
  localStorage a' = localStorage b ∧
  feedback a' = feedback b ++ [(Succeeded, t)] ∧
  (∃ ms, timeouts a' = timeouts b ++ [(CbNextLevel, ms)]) ∧
  progress a' !! key =
    Some (with_level (S (currentLevel b)) (default freshRecord (progress b !! key))) ∧
  (∀ k, k ≠ key → progress a' !! k = progress b !! k) ∧
  pendingGameType a' = pendingGameType b ∧
  gameScreenHidden a' = gameScreenHidden b ∧
  modalHidden a' = modalHidden b ∧
  content a' = content b.
Proof.
  intros a' key. subst a'. unfold successAction. app_simpl. fold key.
  destruct (bool_decide (t ≠ "") && isLongSequence _);
    destruct (progress b !! key) eqn:Hr; app_simpl;
    (repeat split; try done; try (by eexists);
     [ by rewrite lookup_alter_eq, ?lookup_insert_eq, ?Hr
     | intros k Hk; by rewrite lookup_alter_ne, ?lookup_insert_ne by done ]).
Qed.

(** ** The engines, one by one *)






Lemma updateGrammarUI_frame (a : App) : frameOf (updateGrammarUI a) = frameOf a.
Proof.
  unfold updateGrammarUI. destruct (currentGrammarData a) as [data|]; [|done].
  case_decide; [|done].
  destruct (shuffleArray_state (options data) a) as [k Hk].
  destruct (shuffleArray _ _) as [l a1]. simpl in Hk. by subst a1.
Qed.








(** ** Rendering a level leaves the progression alone *)

Ltac random_shape :=
  repeat match goal with
  | |- context [shuffleArray ?l ?a] =>
      let k := fresh "k" in let H := fresh "H" in
      destruct (shuffleArray_state l a) as [k H];
      destruct (shuffleArray l a) as [? ?]; simpl in H; subst
  | |- context [sortRandom ?l ?a] =>
      let k := fresh "k" in let H := fresh "H" in
      destruct (sortRandom_state l a) as [k H];
      destruct (sortRandom l a) as [? ?]; simpl in H; subst
  | |- context [drawDistinct ?f ?b ?p ?o ?a] =>
      let k := fresh "k" in let H := fresh "H" in
      destruct (drawDistinct f b p o a) as [[? ?]|] eqn:H;
      [apply drawDistinct_state in H as [k ->]|]
  end.

Lemma renderTranslateGame_frame (fuel : nat) (a a' : App) :
  renderTranslateGame fuel a = Some a' → frameOf a' = frameOf a.
Proof.
  unfold renderTranslateGame. app_simpl.
  destruct (_ !! _) as [item|]; [|by intros [= <-]].
  random_shape; cbn [mbind option_bind]; [|done].
  random_shape. by intros [= <-].
Qed.

Lemma renderSentenceGame_frame (a : App) : frameOf (renderSentenceGame a) = frameOf a.
Proof.
  unfold renderSentenceGame. destruct (_ !! _) as [data|]; [|done].
  by random_shape.
Qed.

Lemma renderGrammarGame_frame (a : App) : frameOf (renderGrammarGame a) = frameOf a.
Proof. unfold renderGrammarGame. by rewrite updateGrammarUI_frame. Qed.

Lemma renderNumToWordGame_frame (fuel : nat) (a a' : App) :
  renderNumToWordGame fuel a = Some a' → frameOf a' = frameOf a.
Proof.
  unfold renderNumToWordGame, randomBelow.
  random_shape; cbn [mbind option_bind]; [|done].
  random_shape. by intros [= <-].
Qed.

Lemma renderWordToNumGame_frame (fuel : nat) (a a' : App) :
  renderWordToNumGame fuel a = Some a' → frameOf a' = frameOf a.
Proof.
  unfold renderWordToNumGame, randomBelow.
  random_shape; cbn [mbind option_bind]; [|done].
  random_shape. by intros [= <-].
Qed.

Lemma renderColorsGame_frame (a : App) : frameOf (renderColorsGame a) = frameOf a.
Proof.
  unfold renderColorsGame. destruct (_ !! _) as [data|]; [|done].
  by random_shape.
Qed.

Lemma renderCategoryChoiceGame_frame (category : string) (fuel : nat) (a a' : App) :
  renderCategoryChoiceGame category fuel a = Some a' → frameOf a' = frameOf a.
Proof.
  unfold renderCategoryChoiceGame.
  destruct (_ !! _) as [data|]; [|by intros [= <-]].
  random_shape; cbn [mbind option_bind]; [|done].
  random_shape. by intros [= <-].
Qed.

Lemma renderSequencePlacementGame_frame (l : list string) (title : string)
    (fuel : nat) (a a' : App) :
  renderSequencePlacementGame l title fuel a = Some a' → frameOf a' = frameOf a.
Proof.
  unfold renderSequencePlacementGame.
  random_shape; cbn [mbind option_bind]; [|done].
  random_shape. by intros [= <-].
Qed.

Lemma renderLevel_frame (fuel : nat) (a a' : App) :
  renderLevel fuel a = Some a' → frameOf a' = frameOf a.
Proof.
  unfold renderLevel. app_simpl.
  destruct (currentGame a) as [[]|] eqn:Hg; intros H;
    try (injection H as <-);
    change (frameOf a) with (frameOf (set_content Blank a)).
  - destruct (renderGuessGame_view (set_content Blank a)) as (? & ? & ? & _ & ->). done.
  - by apply renderTranslateGame_frame in H.
  - apply renderSentenceGame_frame.
  - apply renderGrammarGame_frame.
  - destruct (renderHangmanGame_fresh (set_content Blank a)) as (? & _ & ->). done.
  - by apply renderNumToWordGame_frame in H.
  - by apply renderWordToNumGame_frame in H.
  - apply renderColorsGame_frame.
  - by apply renderCategoryChoiceGame_frame in H.
  - by apply renderCategoryChoiceGame_frame in H.
  - by apply renderSequencePlacementGame_frame in H.
  - by apply renderSequencePlacementGame_frame in H.
  - by apply renderCategoryChoiceGame_frame in H.
  - by apply renderCategoryChoiceGame_frame in H.
  - by apply renderCategoryChoiceGame_frame in H.
  - by apply renderCategoryChoiceGame_frame in H.
  - by apply renderCategoryChoiceGame_frame in H.
  - done.
Qed.

(** ** One click inside the game *)


(** ** Failure *)









(** The countdown of the translate game: [n] ticks with more than [n]
    seconds left only count down. *)
Lemma countdown_running (fuel n : nat) (a : App) :
  timerInterval a = true →
  (Z.of_nat n < timeLeft a)%Z →
  ∃ a', run fuel (replicate n TimerTick) a = Some a' ∧
        frameOf a' = frameOf a ∧
        timerInterval a' = true ∧
        timeLeft a' = (timeLeft a - Z.of_nat n)%Z.
Proof.
  revert a. induction n as [|n IH]; intros a Hon Hleft.
  - exists a. repeat split; try done. cbn. lia.
  - cbn [replicate run handle]. rewrite Hon. cbn [mbind option_bind].
    destruct (IH (timerTick a)) as (a' & Hrun & Hframe & Hon' & Hleft').
    + unfold timerTick. app_simpl. by rewrite decide_False by lia.
    + unfold timerTick. app_simpl. rewrite decide_False by lia. app_simpl. lia.
    + exists a'. split; [done|].
      unfold timerTick in Hframe, Hleft'. app_simpl.
      rewrite decide_False in Hframe, Hleft' by lia.
      split; [done|]. split; [done|]. app_simpl. lia.
Qed.

(** Letting the countdown run out: the tick that reaches zero reports one
    failure without answer text, stops the countdown and registers the
    re-render; the ticks before it report nothing. *)
Lemma countdown_expiry (fuel n : nat) (a : App) :
  timerInterval a = true →
  timeLeft a = Z.of_nat (S n) →
  ∃ a1 a',
    run fuel (replicate n TimerTick) a = Some a1 ∧ feedback a1 = feedback a ∧
    run fuel (replicate (S n) TimerTick) a = Some a' ∧
    feedback a' = feedback a ++ [(Failed, "")] ∧
    progress a' = progress a ∧ localStorage a' = localStorage a ∧
    score a' = score a ∧ currentLevel a' = currentLevel a ∧
    currentGame a' = currentGame a ∧
    timerInterval a' = false ∧
    timeouts a' = timeouts a ++ [(CbRenderLevel, 1000)].
Proof.
  intros Hon Hleft.
  destruct (countdown_running fuel n a Hon) as (a1 & Hrun & Hframe & Hon1 & Hleft1); [lia|].
  exists a1, (timerTick a1). injection Hframe as ? ? ? ? ? ? ? ? ? ? ?.
  split; [done|]. split; [done|]. split.
  - replace (S n) with (n + 1) by lia. rewrite replicate_add.
    clear -Hrun Hon1. revert a Hrun.
    induction n as [|n IH]; intros a Hrun.
    + injection Hrun as ->. cbn. by rewrite Hon1.
    + cbn [replicate app run] in *.
      destruct (handle fuel TimerTick a) as [b|]; [|done]. cbn in *. by apply IH.
  - unfold timerTick. app_simpl. rewrite decide_True by lia. app_simpl.
    repeat split; congruence.
Qed.

Lemma translate_countdown_starts_at_ten (fuel : nat) (a a' : App) :
  currentLevel a < 5 →
  renderTranslateGame fuel a = Some a' →
  timerInterval a' = true ∧ timeLeft a' = 10%Z.
Proof.
  intros Hlvl. unfold renderTranslateGame.
  replace (currentLevel a / 5) with 0 by (symmetry; by apply Nat.div_small).
  app_simpl.
  destruct (_ !! _) as [item|]; [|by intros [= <-]].
  random_shape; cbn [mbind option_bind]; [|done].
  random_shape. by intros [= <-].
Qed.

(** ** Success *)

(** What [successAction] records, and what the [nextLevel] it registers does
    with it: below the last level the session is saved and rendered again,
    at the last level the record is completed. *)
Lemma nextLevel_after_success
    (text : string) (fuel : nat) (a : App) (g : GameType) :
  let key := GAME_TYPES g in
  let r := default freshRecord (progress a !! key) in
  let a1 := successAction text a in
  currentGame a = Some g →
  maxLevels a = 200 →
  level r = currentLevel a →
  score a1 = score a + 10 ∧
  progress a1 !! key = Some (with_level (level r + 1) r) ∧
  if decide (200 ≤ level r + 1) then
    ∃ a2,
      nextLevel fuel a1 = Some a2 ∧
      progress a2 !! key =
        Some {| level := 0; medals := medals r + 1; completed := true |} ∧
      localStorage a2 = Document (progress a2) ∧
      timeouts a2 = timeouts a1 ++ [(CbShowMenu, 1000)] ∧
      content a2 = content a ∧
      score a2 = score a + 10 ∧
      gameScreenHidden (showMenu a2) = true
  else
    let a2 := saveProgress a1 in
    nextLevel fuel a1 = renderLevel fuel a2 ∧
    currentGame a2 = Some g ∧
    currentLevel a2 = level r + 1 ∧
    progress a2 !! key = Some (with_level (level r + 1) r) ∧
    localStorage a2 = Document (progress a2).
Proof.
  intros key r a1 Hg Hmax Hlvl.
  destruct (successAction_facts text a)
    as (Hs & Hl & Hg1 & Hm1 & _ & _ & Ht & Hp & _ & _ & _ & _ & Hc).
  fold a1 in Hs, Hl, Hg1, Hm1, Ht, Hp, Hc.
  rewrite Hg in Hp, Hg1. cbn [progressKey] in Hp. fold key r in Hp.
  rewrite <- Hlvl, <- Nat.add_1_r in Hp, Hl.
  split; [done|]. split; [done|].
  unfold nextLevel. rewrite Hm1, Hmax, Hl.
  destruct (decide (200 ≤ level r + 1)) as [Hdone|Hmore].
  - rewrite Hg1. cbn [progressKey]. fold key. rewrite Hp.
    eexists. split; [reflexivity|]. app_simpl. rewrite lookup_insert_eq.
    repeat split; done.
  - app_simpl. by rewrite Hl, Hg1, Hp.
Qed.

Lemma succeedN_below_max (n : nat) (text : string) (fuel : nat) (a a' : App)
    (g : GameType) :
  let key := GAME_TYPES g in
  let r := default freshRecord (progress a !! key) in
  currentGame a = Some g →
  maxLevels a = 200 →
  level r = currentLevel a →
  currentLevel a + n < 200 →
  succeedN n text fuel a = Some a' →
  currentGame a' = Some g ∧ maxLevels a' = 200 ∧
  currentLevel a' = currentLevel a + n ∧
  score a' = score a + 10 * n ∧
  default freshRecord (progress a' !! key) = with_level (currentLevel a + n) r.
Proof.
  intros key. revert a. induction n as [|n IH]; intros a r Hg Hmax Hlvl Hn Hrun.
  - injection Hrun as <-. rewrite !Nat.add_0_r. repeat split; try done; try lia.
    subst r. rewrite <- Hlvl. by destruct (default _ _).
  - cbn [succeedN] in Hrun.
    destruct (nextLevel_after_success text fuel a g Hg Hmax Hlvl)
      as (Hs & Hp & Hnext).
    fold key r in Hp, Hnext. rewrite decide_False in Hnext by (fold r in Hlvl; lia).
    destruct Hnext as (Hnext & Hg2 & Hl2 & Hp2 & _).
    rewrite Hnext in Hrun.
    destruct (renderLevel fuel _) as [b|] eqn:Hb; [|done]. cbn in Hrun.
    apply renderLevel_frame in Hb. injection Hb as Hbs Hbl Hbg Hbm Hbp _ _ _ _ _ _.
    destruct (successAction_facts text a) as (_ & _ & _ & Hm1 & _).
    app_simpl.
    destruct (IH b) as (H1 & H2 & H3 & H4 & H5); try done.
    + congruence.
    + app_simpl. congruence.
    + fold key. rewrite Hbp, Hp2. cbn. rewrite Hbl, Hl2. done.
    + rewrite Hbl, Hl2. fold r in Hlvl. lia.
    + fold r in Hlvl. rewrite Hbl, Hl2 in H3. rewrite Hbs in H4. app_simpl.
      rewrite Hs in H4.
      repeat split; try done; try lia.
      fold key in H5. rewrite H5, Hbp, Hp2, Hbl, Hl2. cbn.
      unfold with_level. cbn. f_equal. lia.
Qed.

(** After [maxLevels] successes in a row from level 0, the record is
    completed, has one medal more and is back at level 0. *)
Lemma after_maxLevels_successes (text : string) (fuel : nat) (a a' : App)
    (g : GameType) :
  let key := GAME_TYPES g in
  let r := default freshRecord (progress a !! key) in
  currentGame a = Some g →
  maxLevels a = 200 →
  level r = 0 →
  currentLevel a = 0 →
  succeedN 200 text fuel a = Some a' →
  progress a' !! key = Some {| level := 0; medals := medals r + 1; completed := true |}.
Proof.
  intros key r Hg Hmax Hl0 Hc0 Hrun.
  change 200 with (199 + 1) in Hrun.
  assert (Hsplit : ∀ n m x, succeedN (n + m) text fuel x
                            = x' ← succeedN n text fuel x; succeedN m text fuel x').
  { induction n as [|n IH]; intros m x; [done|]. cbn [Nat.add succeedN].
    destruct (nextLevel fuel _); [|done]. cbn. apply IH. }
  rewrite Hsplit in Hrun.
  destruct (succeedN 199 text fuel a) as [b|] eqn:Hb; [|done]. cbn [mbind option_bind] in Hrun.
  apply (succeedN_below_max 199 text fuel a b g) in Hb as (H1 & H2 & H3 & _ & H5);
    try done; try lia; try (fold key r; congruence).
  fold key r in H5. rewrite Hc0 in H3, H5. cbn in H3, H5.
  cbn [succeedN] in Hrun.
  destruct (nextLevel fuel _) as [c|] eqn:Hc; [|done]. injection Hrun as <-.
  destruct (nextLevel_after_success text fuel b g H1 H2) as (_ & _ & Hnext).
  { fold key. rewrite H5. cbn. done. }
  fold key in Hnext. rewrite H5 in Hnext. cbn in Hnext.
  destruct Hnext as (a2 & Ha2 & Hp & _). rewrite Hc in Ha2. injection Ha2 as <-.
  done.
Qed.

Lemma after_maxLevels_successes_colors :
  let a := default (newApp NoItem (fun k => k))
             (run 0 [MenuClick COLORS] (newApp NoItem (fun k => k))) in
  ∃ a', succeedN 200 "" 0 a = Some a' ∧
        progress a' !! "colors" = Some {| level := 0; medals := 1; completed := true |}.
Proof.
  intros a. destruct (succeedN 200 "" 0 a) as [a'|] eqn:Ha.
  - exists a'. split; [done|].
    apply (after_maxLevels_successes "" 0 a a' COLORS); try done.
  - vm_compute in Ha. discriminate Ha.
Qed.

(** ** Persistence *)

















(** ** Shuffling *)

Lemma swap_Permutation {A} (i j : nat) (l : list A) : swap i j l ≡ₚ l.
Proof.
  unfold swap. destruct (l !! i) as [x|] eqn:Hi; [|done].
  destruct (l !! j) as [y|] eqn:Hj; [|done].
  by apply Permutation_insert_swap.
Qed.

Lemma shuffleFrom_Permutation {A} (i : nat) (l : list A) (a : App) :
  (shuffleFrom i l a).1 ≡ₚ l.
Proof.
  revert l a. induction i as [|i IH]; intros l a; [done|].
  cbn [shuffleFrom]. unfold randomBelow. rewrite IH. apply swap_Permutation.
Qed.

Lemma shuffleArray_Permutation {A} (l : list A) (a : App) : (shuffleArray l a).1 ≡ₚ l.
Proof. apply shuffleFrom_Permutation. Qed.

Lemma pickOrder_Permutation {A} (l : list A) (a : App) :
  (pickOrder (length l) l a).1 ≡ₚ l.
Proof.
  remember (length l) as n eqn:Hn. revert l a Hn.
  induction n as [|n IH]; intros l a Hn.
  - by destruct l.
  - cbn [pickOrder]. unfold randomBelow. rewrite <- Hn.
    set (r := random a (drawn a) mod S n).
    assert (Hr : r < length l) by (rewrite <- Hn; apply Nat.mod_upper_bound; lia).
    destruct (lookup_lt_is_Some_2 l r Hr) as [x Hx]. rewrite Hx.
    specialize (IH (delete r l) (set_drawn (S (drawn a)) a)).
    destruct (pickOrder n _ _) as [rest a']. cbn [fst] in *.
    rewrite IH.
    + symmetry. by apply delete_Permutation.
    + rewrite length_delete by eauto. lia.
Qed.

Lemma sortRandom_Permutation {A} (l : list A) (a : App) : (sortRandom l a).1 ≡ₚ l.
Proof. apply pickOrder_Permutation. Qed.

(** ** The rejection loop *)

Lemma nextDraws_S {A} (bound : nat) (pick : nat → A) (fuel : nat) (a : App) :
  nextDraws bound pick (S fuel) a
  = drawnAt bound pick a (drawn a)
      :: nextDraws bound pick fuel (set_drawn (S (drawn a)) a).
Proof. done. Qed.

Section rejection_loop.
Context `{EqDecision A}.
Variables (bound : nat) (pick : nat → A).

Lemma drawDistinct_S (fuel : nat) (options : list A) (a : App) :
  length options < 4 →
  drawDistinct (S fuel) bound pick options a =
    let opt := drawnAt bound pick a (drawn a) in
    drawDistinct fuel bound pick
      (if decide (opt ∈ options) then options else options ++ [opt])
      (set_drawn (S (drawn a)) a).
Proof.
  intros Hlen. cbn [drawDistinct]. rewrite decide_True by done.
  unfold randomBelow, drawnAt. cbn zeta. by case_decide.
Qed.

Lemma drawDistinct_full (fuel : nat) (options : list A) (a : App) :
  ¬ length options < 4 →
  drawDistinct fuel bound pick options a = Some (options, a).
Proof. intros Hlen. destruct fuel; cbn [drawDistinct]; by rewrite decide_False. Qed.

(** What the loop returns: the options it started from, followed by drawn
    values, four in all and pairwise distinct. *)
Lemma drawDistinct_result (fuel : nat) (options res : list A) (a a' : App) :
  NoDup options →
  length options ≤ 4 →
  drawDistinct fuel bound pick options a = Some (res, a') →
  NoDup res ∧ length res = 4 ∧ options `prefix_of` res ∧
  ∀ x, x ∈ res → x ∈ options ∨ x ∈ nextDraws bound pick fuel a.
Proof.
  revert options a. induction fuel as [|fuel IH]; intros options a Hnd Hlen.
  - cbn [drawDistinct]. case_decide; [done|]. intros [= <- <-].
    repeat split; try done; [lia|by left].
  - destruct (decide (length options < 4)) as [Hlt|Hge].
    + rewrite drawDistinct_S by done. cbn zeta. rewrite nextDraws_S.
      set (opt := drawnAt bound pick a (drawn a)).
      case_decide as Hin; intros Hrun.
      * apply IH in Hrun as (H1 & H2 & H3 & H4); [|done|done].
        repeat split; try done. intros x Hx. destruct (H4 x Hx); [by left|].
        right. by apply list_elem_of_further.
      * apply IH in Hrun as (H1 & H2 & H3 & H4).
        -- repeat split; try done.
           ++ etrans; [|exact H3]. by apply prefix_app_r.
           ++ intros x Hx. destruct (H4 x Hx) as [Ho|Hd].
              ** apply elem_of_app in Ho as [?|Ho]; [by left|].
                 apply list_elem_of_singleton in Ho as ->. right. apply list_elem_of_here.
              ** right. by apply list_elem_of_further.
        -- apply NoDup_app. repeat split; try done.
           ++ intros x Hx ->%list_elem_of_singleton. done.
           ++ apply NoDup_singleton.
        -- rewrite length_app. cbn. lia.
    + rewrite drawDistinct_full by done. intros [= <- <-].
      repeat split; try done; [lia|by left].
Qed.

(** The loop exits within [fuel] iterations exactly when the options it
    starts from and the values of the next [fuel] draws make up four
    distinct values. *)
Lemma drawDistinct_exits_iff (fuel : nat) (options : list A) (a : App) :
  NoDup options →
  is_Some (drawDistinct fuel bound pick options a) ↔
  4 ≤ length (remove_dups (options ++ nextDraws bound pick fuel a)).
Proof.
  revert options a. induction fuel as [|fuel IH]; intros options a Hnd.
  - unfold nextDraws. cbn [seq fmap list_fmap drawDistinct]. rewrite app_nil_r.
    assert (Hfix : length (remove_dups options) = length options).
    { apply Permutation_length, NoDup_Permutation;
        [apply NoDup_remove_dups|done|apply elem_of_remove_dups]. }
    rewrite Hfix. case_decide; split; intros H'; try done; try lia.
  - destruct (decide (length options < 4)) as [Hlt|Hge].
    + rewrite drawDistinct_S by done. cbn zeta. rewrite nextDraws_S.
      set (opt := drawnAt bound pick a (drawn a)).
      assert (Hlen : ∀ l k : list A, (∀ x, x ∈ l ↔ x ∈ k) →
                       length (remove_dups l) = length (remove_dups k)).
      { intros l k Hlk. apply Permutation_length, NoDup_Permutation;
          try apply NoDup_remove_dups.
        intros x. by rewrite !elem_of_remove_dups. }
      case_decide as Hin.
      * rewrite IH by done. erewrite Hlen; [done|].
        intros x. rewrite !elem_of_app, elem_of_cons.
        split; [tauto|]. intros [?|[->|?]]; auto.
      * rewrite IH.
        -- erewrite Hlen; [done|].
           intros x. rewrite !elem_of_app, !elem_of_cons, elem_of_nil. tauto.
        -- apply NoDup_app. repeat split; try done.
           ++ intros x Hx ->%list_elem_of_singleton. done.
           ++ apply NoDup_singleton.
    + rewrite drawDistinct_full by done. split; [intros _|by eexists].
      assert (Hsub : options ⊆+ remove_dups (options ++ nextDraws bound pick (S fuel) a)).
      { apply NoDup_submseteq; [done|]. intros x Hx.
        apply elem_of_remove_dups, elem_of_app. by left. }
      apply submseteq_length in Hsub. lia.
Qed.

(** If every draw selects a value that is already an option, the loop never
    exits. *)
Lemma drawDistinct_stuck (fuel : nat) (options : list A) (a : App) :
  length options < 4 →
  (∀ k, drawnAt bound pick a k ∈ options) →
  drawDistinct fuel bound pick options a = None.
Proof.
  intros Hlen Hall. revert a Hall. induction fuel as [|fuel IH]; intros a Hall.
  - cbn [drawDistinct]. by rewrite decide_True.
  - rewrite drawDistinct_S by done. cbn zeta. rewrite decide_True by apply Hall.
    apply IH. intros k. apply Hall.
Qed.
End rejection_loop.

(** The category game, once the entry of the level is known. *)
Lemma renderCategoryChoiceGame_eq (category : string) (fuel : nat) (a : App)
    (data : VocabItem) :
  getVocabData category !! (currentLevel a mod length (getVocabData category))
    = Some data →
  renderCategoryChoiceGame category fuel a =
    '(options, a1) ← drawDistinct fuel (length (getVocabData category))
                       (fun r => en (nth r (getVocabData category) data)) [en data] a;
    let '(options, a2) := shuffleArray options a1 in
    Some (set_content (ChoiceView (fa data) (VStr <$> options) (VStr (en data))) a2).
Proof. intros H. unfold renderCategoryChoiceGame. by rewrite H. Qed.

(** C6 as stated fails: with a random source that always selects the entry
    of the correct answer, the option loop of a category game is still
    running after any number of iterations. *)
Lemma category_options_never_complete :
  ¬ ∃ fuel,
      is_Some (renderLevel fuel (set_currentGame (Some ANIMAL)
                                   (newApp NoItem (fun _ => 0)))).
Proof.
  intros [fuel [a' Hrun]].
  unfold renderLevel in Hrun. app_simpl.
  rewrite (renderCategoryChoiceGame_eq _ _ _ {| en := "Cat"; fa := "گربه" |}) in Hrun
    by reflexivity.
  rewrite drawDistinct_stuck in Hrun; [done|cbn; lia|].
  intros k. apply list_elem_of_here.
Qed.

(** ** C1: what the choice games generate *)

(** C1 as stated fails: the hangman game generates no options at all. *)
Lemma hangman_generates_no_options :
  let a := set_currentGame (Some HANGMAN) (newApp NoItem (fun k => k)) in
  ∃ a', renderLevel 0 a = Some a' ∧
        hangmanWord a' = "GALAXY" ∧
        challengeOf (content a') = None.
Proof. intros a. eexists. split; [vm_compute; reflexivity|]. split; reflexivity. Qed.

Lemma distractors_length (opts : list string) (ans : string) :
  NoDup opts → ans ∈ opts → S (length (distractors opts ans)) = length opts.
Proof.
  unfold distractors. induction 1 as [|x l Hx Hl IH]; intros Hin.
  - by apply elem_of_nil in Hin.
  - apply elem_of_cons in Hin as [->|Hin].
    + rewrite filter_cons_False by (intros Hne; by apply Hne).
      cbn. f_equal. clear IH Hl. induction l as [|y l IH]; [done|].
      apply not_elem_of_cons in Hx as [Hy Hx].
      rewrite filter_cons_True by done. cbn. f_equal. by apply IH.
    + rewrite filter_cons_True by (intros ->; done). cbn. f_equal. by apply IH.
Qed.

Lemma indexOf_lookup (x : string) (l : list string) :
  x ∈ l → JS.indexOf x l ≫= (l !!.) = Some x.
Proof.
  induction l as [|y l IH]; intros Hin.
  - by apply elem_of_nil in Hin.
  - cbn [JS.indexOf]. case_decide as Hy; [by subst|].
    apply elem_of_cons in Hin as [->|Hin]; [done|].
    specialize (IH Hin). destruct (JS.indexOf x l) as [i|]; [|done]. exact IH.
Qed.

Lemma nextDraws_ext {A} (bound : nat) (f g : nat → A) (fuel : nat) (a : App) :
  (∀ r, f r = g r) → nextDraws bound f fuel a = nextDraws bound g fuel a.
Proof.
  intros Hfg. unfold nextDraws. apply list_fmap_ext. intros _ k _.
  unfold drawnAt. apply Hfg.
Qed.

(** The four options of a screen built from the result of the loop. *)
Lemma shuffled_options (fuel bound : nat) (pick : nat → string) (ans : string)
    (opts sh : list string) (a a1 a2 : App) :
  drawDistinct fuel bound pick [ans] a = Some (opts, a1) →
  shuffleArray opts a1 = (sh, a2) →
  length sh = 4 ∧ NoDup sh ∧ ans ∈ sh.
Proof.
  intros Hloop Hsh.
  apply drawDistinct_result in Hloop as (Hnd & Hlen & Hpre & _);
    [|apply NoDup_singleton|cbn; lia].
  pose proof (shuffleArray_Permutation opts a1) as Hperm. rewrite Hsh in Hperm.
  cbn [fst] in Hperm. rewrite Hperm. repeat split; try done.
  destruct Hpre as [k ->]. apply list_elem_of_here.
Qed.

Lemma randomBelow_lt (n : nat) (a : App) :
  0 < n →
  (randomBelow n a).1 < n ∧ (randomBelow n a).2 = set_drawn (S (drawn a)) a.
Proof.
  intros Hn. unfold randomBelow. destruct n; [lia|]. cbn [fst snd].
  split; [|done]. apply Nat.mod_upper_bound. lia.
Qed.

Lemma drawn_options `{EqDecision A} (fuel bound : nat) (pick : nat → A) (target : A)
    (opts sh : list A) (a a1 a2 : App) :
  0 < bound →
  drawDistinct fuel bound pick [target] a = Some (opts, a1) →
  shuffleArray opts a1 = (sh, a2) →
  length sh = 4 ∧ NoDup sh ∧ target ∈ sh ∧
  ∀ x, x ∈ sh → x = target ∨ ∃ k, k < bound ∧ x = pick k.
Proof.
  intros Hbound Hloop Hsh.
  apply drawDistinct_result in Hloop as (Hnd & Hlen & Hpre & Hfrom);
    [|apply NoDup_singleton|cbn; lia].
  pose proof (shuffleArray_Permutation opts a1) as Hperm. rewrite Hsh in Hperm.
  cbn [fst] in Hperm. rewrite Hperm. repeat split; try done.
  - destruct Hpre as [k ->]. apply list_elem_of_here.
  - intros x Hx. rewrite Hperm in Hx. destruct (Hfrom x Hx) as [Hin|Hin].
    + left. by apply list_elem_of_singleton in Hin.
    + right. unfold nextDraws in Hin.
      apply list_elem_of_fmap in Hin as (k & -> & _). unfold drawnAt.
      destruct bound; [lia|]. eexists. split; [|done].
      apply Nat.mod_upper_bound. lia.
Qed.

Lemma fmap_toString_VStr (l : list string) : Val_toString <$> (VStr <$> l) = l.
Proof. rewrite <- list_fmap_compose. by rewrite list_fmap_id. Qed.

(** The screen of a category game. *)
Lemma renderCategoryChoiceGame_options (category : string) (fuel : nat) (a : App)
    (data : VocabItem) :
  let library := getVocabData category in
  library !! (currentLevel a mod length library) = Some data →
  (∀ a', renderCategoryChoiceGame category fuel a = Some a' →
     ∃ opts, content a' = ChoiceView (fa data) (VStr <$> opts) (VStr (en data)) ∧
             length opts = 4 ∧ NoDup opts ∧ en data ∈ opts) ∧
  (is_Some (renderCategoryChoiceGame category fuel a) ↔
   is_Some (drawDistinct fuel (length library)
              (fun r => en (nth r library data)) [en data] a)).
Proof.
  intros library Hdata. rewrite (renderCategoryChoiceGame_eq _ _ _ data Hdata).
  fold library.
  destruct (drawDistinct fuel _ _ _ a) as [[opts a1]|] eqn:Hloop; cbn [mbind option_bind].
  - destruct (shuffleArray opts a1) as [sh a2] eqn:Hsh. split.
    + intros a' [= <-]. exists sh. split; [done|].
      by apply (shuffled_options _ _ _ _ _ _ _ _ _ Hloop Hsh).
    + split; intros _; by eexists.
  - split; [done|]. split; intros [? ?]; done.
Qed.

(** The screen of the translate game. *)
Lemma renderTranslateGame_options (fuel : nat) (a : App) (item : VocabItem) :
  let library := getVocabData "translate" in
  library !! (currentLevel a mod length library) = Some item →
  (∀ a', renderTranslateGame fuel a = Some a' →
     ∃ opts i, content a' = TranslateView (en item) opts (Some i) ∧
               opts !! i = Some (fa item) ∧
               length opts = 4 ∧ NoDup opts ∧ fa item ∈ opts) ∧
  (is_Some (renderTranslateGame fuel a) ↔
   is_Some (drawDistinct fuel (length library)
              (fun r => fa (nth r library item)) [fa item] a)).
Proof.
  intros library Hitem. unfold renderTranslateGame. fold library.
  set (t := Z.max 3 _). app_simpl. rewrite Hitem.
  assert (Hstate : ∀ res,
            drawDistinct fuel (length library) (fun r => fa (nth r library item))
              [fa item] (startTimer t a) =
            res →
            is_Some res ↔
            is_Some (drawDistinct fuel (length library)
                       (fun r => fa (nth r library item)) [fa item] a)).
  { intros res <-. rewrite !drawDistinct_exits_iff by apply NoDup_singleton. done. }
  destruct (drawDistinct fuel _ _ _ (startTimer t a)) as [[opts a1]|] eqn:Hloop;
    cbn [mbind option_bind].
  - destruct (shuffleArray opts a1) as [sh a2] eqn:Hsh. split.
    + intros a' [= <-].
      destruct (shuffled_options _ _ _ _ _ _ _ _ _ Hloop Hsh) as (Hlen & Hnd & Hin).
      pose proof (indexOf_lookup _ _ Hin) as Hidx.
      destruct (JS.indexOf (fa item) sh) as [i|]; [|done].
      exists sh, i. by repeat split.
    + rewrite <- (Hstate _ eq_refl). split; intros _; by eexists.
  - split; [done|]. rewrite <- (Hstate _ eq_refl). split; intros [? ?]; done.
Qed.

(** The screen of the colors game, which draws no option by rejection. *)
Lemma renderColorsGame_options (a : App) (data : ColorItem) :
  colors !! (currentLevel a mod length colors) = Some data →
  ∃ opts, content (renderColorsGame a)
            = ChoiceView (hex data) (VStr <$> opts) (VStr (name data)) ∧
          length opts = 4 ∧ NoDup opts ∧ name data ∈ opts.
Proof.
  intros Hdata. unfold renderColorsGame. rewrite Hdata.
  assert (Hnd5 : NoDup [name data; "ORANGE"; "BLACK"; "WHITE"; "BROWN"]).
  { apply list_elem_of_lookup_2 in Hdata.
    repeat (apply elem_of_cons in Hdata as [->|Hdata]; [compute_done|]).
    by apply elem_of_nil in Hdata. }
  pose proof (shuffleArray_Permutation
                [name data; "ORANGE"; "BLACK"; "WHITE"; "BROWN"] a) as Hp1.
  destruct (shuffleArray _ a) as [sh1 a1]. cbn [fst] in Hp1.
  set (opts0 := JS.slice0 4 sh1).
  assert (Hlen0 : length opts0 = 4).
  { subst opts0. unfold JS.slice0. rewrite length_take, Hp1. done. }
  assert (Hnd0 : NoDup opts0).
  { subst opts0. apply (sublist_NoDup _ sh1); [by rewrite Hp1|apply sublist_take]. }
  set (opts1 := if decide (name data ∈ opts0) then opts0 else <[0:=name data]> opts0).
  assert (H1 : length opts1 = 4 ∧ NoDup opts1 ∧ name data ∈ opts1).
  { subst opts1. case_decide as Hin; [done|].
    destruct opts0 as [|y rest]; [done|]. cbn in *.
    apply not_elem_of_cons in Hin as [_ Hin]. apply NoDup_cons in Hnd0 as [_ Hrest].
    split; [done|]. split; [by apply NoDup_cons|apply list_elem_of_here]. }
  pose proof (shuffleArray_Permutation opts1 a1) as Hp2.
  destruct (shuffleArray opts1 a1) as [sh2 a2]. cbn [fst] in Hp2.
  exists sh2. split; [done|]. by rewrite Hp2.
Qed.

Lemma nextDraws_snd_fmap {A} (f : A → string * string) (l : list A) (d : A)
    (fuel : nat) (a : App) :
  nextDraws (length (f <$> l)) (fun r => (nth r (f <$> l) (f d)).2) fuel a
  = nextDraws (length l) (fun r => (f (nth r l d)).2) fuel a.
Proof.
  rewrite length_fmap. apply nextDraws_ext. intros r.
  change (f <$> l) with (map f l). by rewrite map_nth.
Qed.

(** The translate game, the colors game and the seven category games: the
    entry of the corpus at index [level mod length] gives the prompt and the
    correct answer; whenever the screen is generated it shows four pairwise
    distinct options, the correct answer among them; and it is generated
    within [fuel] iterations of the option loop exactly when the game is the
    colors game, which has no such loop, or the correct answer and the
    answers the next [fuel] draws select make up four distinct values. *)
Lemma corpus_game_generation
    (g : GameType) (corpus : list (string * string)) (fuel : nat) (a : App) :
  choiceCorpus g = Some corpus →
  currentGame a = Some g →
  ∃ prompt answer,
    corpus !! (currentLevel a mod length corpus) = Some (prompt, answer) ∧
    (∀ a', renderLevel fuel a = Some a' →
       ∃ opts,
         challengeOf (content a') = Some (prompt, opts, answer) ∧
         length opts = 4 ∧ NoDup opts ∧ answer ∈ opts ∧
         length (distractors opts answer) = 3 ∧
         answer ∉ distractors opts answer) ∧
    (is_Some (renderLevel fuel a) ↔
       g = COLORS ∨
       4 ≤ length (remove_dups
                     ([answer] ++
                      nextDraws (length corpus)
                        (fun r => (nth r corpus (prompt, answer)).2) fuel a))).
Proof.
  intros Hcorpus Hg.
  assert (Hdis : ∀ opts answer,
            length opts = 4 → NoDup opts → answer ∈ opts →
            length (distractors opts answer) = 3 ∧ answer ∉ distractors opts answer).
  { intros opts answer Hlen Hnd Hin. split.
    - pose proof (distractors_length opts answer Hnd Hin). lia.
    - unfold distractors. rewrite list_elem_of_filter. tauto. }
  assert (Hcat : ∀ category,
            corpus = (fun i => (fa i, en i)) <$> getVocabData category →
            renderLevel fuel a = renderCategoryChoiceGame category fuel (set_content Blank a) →
            getVocabData category ≠ [] →
            g ≠ COLORS →
            ∃ prompt answer,
              corpus !! (currentLevel a mod length corpus) = Some (prompt, answer) ∧
              (∀ a', renderLevel fuel a = Some a' →
                 ∃ opts,
                   challengeOf (content a') = Some (prompt, opts, answer) ∧
                   length opts = 4 ∧ NoDup opts ∧ answer ∈ opts ∧
                   length (distractors opts answer) = 3 ∧
                   answer ∉ distractors opts answer) ∧
              (is_Some (renderLevel fuel a) ↔
                 g = COLORS ∨
                 4 ≤ length (remove_dups
                               ([answer] ++
                                nextDraws (length corpus)
                                  (fun r => (nth r corpus (prompt, answer)).2) fuel a)))).
  { intros category -> Hrender Hne Hnc.
    set (library := getVocabData category) in *.
    destruct (lookup_lt_is_Some_2 library (currentLevel a mod length library))
      as [data Hdata].
    { apply Nat.mod_upper_bound. by destruct library. }
    exists (fa data), (en data).
    assert (Hdraws :
      nextDraws (length ((fun i => (fa i, en i)) <$> library))
        (fun r => (nth r ((fun i => (fa i, en i)) <$> library) (fa data, en data)).2)
        fuel a
      = nextDraws (length library) (fun r => en (nth r library data)) fuel
          (set_content Blank a))
      by apply (nextDraws_snd_fmap (fun i => (fa i, en i)) library data fuel a).
    rewrite Hdraws, length_fmap, list_lookup_fmap, Hdata.
    split; [done|]. rewrite Hrender.
    destruct (renderCategoryChoiceGame_options category fuel (set_content Blank a) data Hdata)
      as [Hopts Hsome].
    split.
    - intros a' Ha'. destruct (Hopts a' Ha') as (opts & -> & Hlen & Hnd & Hin).
      exists opts. cbn [challengeOf Val_toString]. rewrite fmap_toString_VStr.
      destruct (Hdis opts (en data) Hlen Hnd Hin). by repeat split.
    - rewrite Hsome. fold library.
      rewrite drawDistinct_exits_iff by apply NoDup_singleton.
      split; [intros H; right; exact H|]. intros [?|H]; [done|exact H]. }
  destruct g; try discriminate Hcorpus;
    cbn [choiceCorpus] in Hcorpus; apply (inj Some) in Hcorpus; subst corpus.
  - (* translate *)
    set (library := getVocabData "translate").
    destruct (lookup_lt_is_Some_2 library (currentLevel a mod length library))
      as [item Hitem]; [by apply Nat.mod_upper_bound|].
    exists (en item), (fa item).
    assert (Hdraws :
      nextDraws (length ((fun i => (en i, fa i)) <$> library))
        (fun r => (nth r ((fun i => (en i, fa i)) <$> library) (en item, fa item)).2)
        fuel a
      = nextDraws (length library) (fun r => fa (nth r library item)) fuel
          (set_content Blank a))
      by apply (nextDraws_snd_fmap (fun i => (en i, fa i)) library item fuel a).
    fold library. rewrite Hdraws, length_fmap, list_lookup_fmap.
    rewrite Hitem. split; [done|].
    unfold renderLevel. cbv zeta. cbn [currentGame set_content]. rewrite Hg.
    destruct (renderTranslateGame_options fuel (set_content Blank a) item Hitem)
      as [Hopts Hsome].
    split.
    + intros a' Ha'. destruct (Hopts a' Ha') as (opts & i & -> & Hi & Hlen & Hnd & Hin).
      exists opts. cbn [challengeOf mbind option_bind]. rewrite Hi. cbn [mbind option_bind].
      destruct (Hdis opts (fa item) Hlen Hnd Hin). by repeat split.
    + rewrite Hsome. fold library.
      rewrite drawDistinct_exits_iff by apply NoDup_singleton.
      split; [intros H; right; exact H|]. intros [?|H]; [done|exact H].
  - (* colors *)
    destruct (lookup_lt_is_Some_2 colors (currentLevel a mod length colors))
      as [data Hdata]; [by apply Nat.mod_upper_bound|].
    exists (hex data), (name data). rewrite length_fmap, list_lookup_fmap, Hdata.
    split; [done|]. unfold renderLevel. cbv zeta. cbn [currentGame set_content]. rewrite Hg.
    destruct (renderColorsGame_options (set_content Blank a) data Hdata)
      as (opts & Hc & Hlen & Hnd & Hin).
    split.
    + intros a' [= <-]. exists opts. rewrite Hc. cbn [challengeOf Val_toString].
      rewrite fmap_toString_VStr.
      destruct (Hdis opts (name data) Hlen Hnd Hin). by repeat split.
    + split; [by left|by eexists].
  - apply (Hcat "animals"); [done|by unfold renderLevel; cbv zeta; cbn [currentGame set_content]; rewrite Hg|done|done].
  - apply (Hcat "jobs"); [done|by unfold renderLevel; cbv zeta; cbn [currentGame set_content]; rewrite Hg|done|done].
  - apply (Hcat "family"); [done|by unfold renderLevel; cbv zeta; cbn [currentGame set_content]; rewrite Hg|done|done].
  - apply (Hcat "places"); [done|by unfold renderLevel; cbv zeta; cbn [currentGame set_content]; rewrite Hg|done|done].
  - apply (Hcat "objects"); [done|by unfold renderLevel; cbv zeta; cbn [currentGame set_content]; rewrite Hg|done|done].
  - apply (Hcat "clothes"); [done|by unfold renderLevel; cbv zeta; cbn [currentGame set_content]; rewrite Hg|done|done].
  - apply (Hcat "adjectives"); [done|by unfold renderLevel; cbv zeta; cbn [currentGame set_content]; rewrite Hg|done|done].
Qed.

(** ** What each game generates, and when *)

Lemma fourOptions_intro (opts : list string) (answer : string) :
  length opts = 4 → NoDup opts → answer ∈ opts → fourOptions opts answer.
Proof.
  intros Hlen Hnd Hin. repeat split; try done.
  - pose proof (distractors_length opts answer Hnd Hin). lia.
  - unfold distractors. rewrite list_elem_of_filter. tauto.
Qed.

Lemma isSafeInteger_small (n : nat) : n ≤ 1000 → JS.isSafeInteger n = true.
Proof. intros Hn. unfold JS.isSafeInteger, JS.MAX_SAFE_INTEGER. apply N.leb_le. lia. Qed.

Lemma numberAsked_drawn (a : App) :
  let range := Nat.min 300 (20 + currentLevel a) in
  randomBelow range a = (numberAsked a, set_drawn (S (drawn a)) a) ∧
  numberAsked a < range.
Proof.
  intros range. assert (Hrange : 0 < range) by (subst range; lia).
  unfold randomBelow, numberAsked. fold range. split.
  - by destruct range; [lia|].
  - apply Nat.mod_upper_bound. lia.
Qed.

(** The screen of the number-to-word game. *)
Lemma renderNumToWordGame_options (fuel : nat) (a : App) :
  let range := Nat.min 300 (20 + currentLevel a) in
  let val := numberAsked a in
  let a1 := set_drawn (S (drawn a)) a in
  (is_Some (renderNumToWordGame fuel a) ↔
   4 ≤ length (remove_dups
                 ([numberToWords val] ++ nextDraws (range + 10) numberToWords fuel a1))) ∧
  ∀ a', renderNumToWordGame fuel a = Some a' →
    ∃ opts,
      content a' = ChoiceView (JS.toString val) (VStr <$> opts) (VStr (numberToWords val)) ∧
      length opts = 4 ∧ NoDup opts ∧ numberToWords val ∈ opts.
Proof.
  intros range val a1.
  destruct (numberAsked_drawn a) as [Hdraw _]. fold range val a1 in Hdraw.
  unfold renderNumToWordGame. fold range. rewrite Hdraw. split.
  - rewrite <- drawDistinct_exits_iff by apply NoDup_singleton.
    destruct (drawDistinct fuel _ _ _ a1) as [[opts b]|]; cbn [mbind option_bind].
    + destruct (shuffleArray opts b). split; intros _; by eexists.
    + split; intros [? ?]; done.
  - intros a'.
    destruct (drawDistinct fuel _ _ _ a1) as [[opts b]|] eqn:Hloop;
      cbn [mbind option_bind]; [|done].
    destruct (shuffleArray opts b) as [sh b'] eqn:Hsh. intros [= <-].
    destruct (shuffled_options _ _ _ _ _ _ _ _ _ Hloop Hsh) as (Hlen & Hnd & Hin).
    exists sh. by app_simpl.
Qed.

(** The screen of the word-to-number game. *)
Lemma renderWordToNumGame_options (fuel : nat) (a : App) :
  let range := Nat.min 300 (20 + currentLevel a) in
  let val := numberAsked a in
  let a1 := set_drawn (S (drawn a)) a in
  (is_Some (renderWordToNumGame fuel a) ↔
   4 ≤ length (remove_dups ([val] ++ nextDraws (range + 10) id fuel a1))) ∧
  ∀ a', renderWordToNumGame fuel a = Some a' →
    ∃ opts,
      content a' = ChoiceView (numberToWords val) (VNum <$> opts) (VNum val) ∧
      length opts = 4 ∧ NoDup opts ∧ val ∈ opts ∧ ∀ o, o ∈ opts → o < range + 10.
Proof.
  intros range val a1.
  destruct (numberAsked_drawn a) as [Hdraw Hlt]. fold range val a1 in Hdraw, Hlt.
  unfold renderWordToNumGame. fold range. rewrite Hdraw. split.
  - rewrite <- drawDistinct_exits_iff by apply NoDup_singleton.
    destruct (drawDistinct fuel _ _ _ a1) as [[opts b]|]; cbn [mbind option_bind].
    + destruct (shuffleArray opts b). split; intros _; by eexists.
    + split; intros [? ?]; done.
  - intros a'.
    destruct (drawDistinct fuel _ _ _ a1) as [[opts b]|] eqn:Hloop;
      cbn [mbind option_bind]; [|done].
    destruct (shuffleArray opts b) as [sh b'] eqn:Hsh. intros [= <-].
    destruct (drawn_options fuel (range + 10) id val opts sh a1 _ _ ltac:(lia) Hloop Hsh)
      as (Hlen & Hnd & Hin & Hfrom).
    exists sh. app_simpl. repeat (split; [done|]).
    intros o Ho. destruct (Hfrom o Ho) as [->|(k & Hk & ->)]; [lia|done].
Qed.

(** The screen of the days and months games. *)
Lemma renderSequencePlacementGame_returns (l : list string) (title : string)
    (fuel : nat) (a : App) :
  (is_Some (renderSequencePlacementGame l title fuel a) ↔
   4 ≤ length (remove_dups (nextDraws (length l) id fuel a))) ∧
  ∀ a', renderSequencePlacementGame l title fuel a = Some a' →
    challengeOf (content a') = None.
Proof.
  unfold renderSequencePlacementGame. split.
  - change (nextDraws (length l) id fuel a) with ([] ++ nextDraws (length l) id fuel a).
    rewrite <- drawDistinct_exits_iff by apply NoDup_nil_2.
    destruct (drawDistinct fuel _ _ _ a) as [[picked b]|]; cbn [mbind option_bind].
    + destruct (sortRandom _ b). split; intros _; by eexists.
    + split; intros [? ?]; done.
  - intros a'.
    destruct (drawDistinct fuel _ _ _ a) as [[picked b]|]; cbn [mbind option_bind]; [|done].
    destruct (sortRandom _ b). by intros [= <-].
Qed.

(** The games without options always return a screen, one that is no
    choice among options. *)
Lemma renderLevel_without_options (g : GameType) (fuel : nat) (a : App) :
  g ∈ [GUESS; SENTENCE; GRAMMAR; HANGMAN] →
  currentGame a = Some g →
  ∃ a', renderLevel fuel a = Some a' ∧ challengeOf (content a') = None.
Proof.
  intros Hin Hg. unfold renderLevel. cbv zeta. cbn [currentGame set_content]. rewrite Hg.
  repeat (apply elem_of_cons in Hin as [->|Hin]); [| | | |by apply elem_of_nil in Hin];
    eexists; (split; [reflexivity|]).
  - destruct (renderGuessGame_view (set_content Blank a)) as (? & ? & ? & _ & ->). done.
  - unfold renderSentenceGame. destruct (_ !! _) as [data|]; [|done].
    by destruct (sortRandom _ _).
  - unfold renderGrammarGame, updateGrammarUI. app_simpl.
    destruct (_ !! _) as [data|]; [|done].
    case_decide; [|done]. by destruct (shuffleArray _ _).
  - destruct (renderHangmanGame_fresh (set_content Blank a)) as (? & _ & ->). done.
Qed.

Lemma expectedChallenge_corpus (g : GameType) (corpus : list (string * string)) (a : App) :
  choiceCorpus g = Some corpus →
  expectedChallenge g a = corpus !! (currentLevel a mod length corpus).
Proof.
  intros Hcorpus. destruct g; try discriminate Hcorpus;
    cbn [expectedChallenge]; by rewrite Hcorpus.
Qed.

Lemma distinctValues_corpus (g : GameType) (corpus : list (string * string))
    (prompt answer : string) (fuel : nat) (a : App) :
  choiceCorpus g = Some corpus →
  corpus !! (currentLevel a mod length corpus) = Some (prompt, answer) →
  distinctValues g fuel a =
    if decide (g = COLORS) then None
    else Some (length (remove_dups
                         ([answer]
                          ++ nextDraws (length corpus)
                               (fun r => (nth r corpus (prompt, answer)).2) fuel a))).
Proof.
  intros Hcorpus Hentry. destruct g; try discriminate Hcorpus;
    cbn [distinctValues]; cbv zeta; try (by rewrite decide_True);
    rewrite decide_False by done; rewrite Hcorpus; cbn [mbind option_bind];
    by rewrite Hentry.
Qed.

(** Game by game: when [renderLevel] returns, and what is on the screen
    then. *)
Lemma generation_by_game (g : GameType) (fuel : nat) (a : App) :
  currentGame a = Some g →
  (is_Some (renderLevel fuel a) ↔
   match distinctValues g fuel a with Some n => 4 ≤ n | None => True end) ∧
  ∀ a', renderLevel fuel a = Some a' →
    match expectedChallenge g a with
    | Some (prompt, answer) =>
        ∃ opts, challengeOf (content a') = Some (prompt, opts, answer) ∧
                fourOptions opts answer
    | None => challengeOf (content a') = None
    end.
Proof.
  intros Hg.
  assert (Hcorpus : ∀ corpus, choiceCorpus g = Some corpus →
            (is_Some (renderLevel fuel a) ↔
             match distinctValues g fuel a with Some n => 4 ≤ n | None => True end) ∧
            ∀ a', renderLevel fuel a = Some a' →
              match expectedChallenge g a with
              | Some (prompt, answer) =>
                  ∃ opts, challengeOf (content a') = Some (prompt, opts, answer) ∧
                          fourOptions opts answer
              | None => challengeOf (content a') = None
              end).
  { intros corpus Hc.
    destruct (corpus_game_generation g corpus fuel a Hc Hg)
      as (prompt & answer & Hentry & Hopts & Hsome).
    rewrite (expectedChallenge_corpus g corpus a Hc), Hentry.
    rewrite (distinctValues_corpus g corpus prompt answer fuel a Hc Hentry).
    split.
    - rewrite Hsome. destruct (decide (g = COLORS)); [tauto|]. tauto.
    - intros a' Ha'. destruct (Hopts a' Ha') as (opts & H1 & H2 & H3 & H4 & _).
      exists opts. split; [done|]. by apply fourOptions_intro. }
  assert (Hplain : g ∈ [GUESS; SENTENCE; GRAMMAR; HANGMAN] →
            distinctValues g fuel a = None → expectedChallenge g a = None →
            (is_Some (renderLevel fuel a) ↔
             match distinctValues g fuel a with Some n => 4 ≤ n | None => True end) ∧
            ∀ a', renderLevel fuel a = Some a' →
              match expectedChallenge g a with
              | Some (prompt, answer) =>
                  ∃ opts, challengeOf (content a') = Some (prompt, opts, answer) ∧
                          fourOptions opts answer
              | None => challengeOf (content a') = None
              end).
  { intros Hin -> ->.
    destruct (renderLevel_without_options g fuel a Hin Hg) as (b & Hb & Hnone).
    rewrite Hb. split; [split; [done|by eexists]|]. by intros a' [= <-]. }
  assert (Hrender : renderLevel fuel a =
            match g with
            | NUM_TO_WORD => renderNumToWordGame fuel (set_content Blank a)
            | WORD_TO_NUM => renderWordToNumGame fuel (set_content Blank a)
            | DAYS => renderSequencePlacementGame days
                        "جاهای خالی روزهای هفته را پر کنید:" fuel (set_content Blank a)
            | MONTHS => renderSequencePlacementGame months
                          "جاهای خالی ماه‌های سال را پر کنید:" fuel (set_content Blank a)
            | _ => renderLevel fuel a
            end).
  { unfold renderLevel. cbv zeta. cbn [currentGame set_content]. rewrite Hg.
    by destruct g. }
  destruct g.
  - apply Hplain; [repeat constructor|done|done].
  - by apply (Hcorpus _ eq_refl).
  - apply Hplain; [repeat constructor|done|done].
  - apply Hplain; [repeat constructor|done|done].
  - apply Hplain; [repeat constructor|done|done].
  - (* number to word *)
    rewrite Hrender. cbn [distinctValues expectedChallenge].
    destruct (renderNumToWordGame_options fuel (set_content Blank a)) as [Hsome Hopts].
    split; [exact Hsome|].
    intros a' Ha'. destruct (Hopts a' Ha') as (opts & -> & Hlen & Hnd & Hin).
    exists opts. cbn [challengeOf Val_toString]. rewrite fmap_toString_VStr.
    split; [done|]. by apply fourOptions_intro.
  - (* word to number *)
    rewrite Hrender. cbn [distinctValues expectedChallenge].
    destruct (renderWordToNumGame_options fuel (set_content Blank a)) as [Hsome Hopts].
    split; [exact Hsome|].
    intros a' Ha'. destruct (Hopts a' Ha') as (opts & -> & Hlen & Hnd & Hin & Hlt).
    exists (JS.toString <$> opts). cbn [challengeOf Val_toString].
    rewrite <- list_fmap_compose. split; [done|].
    apply fourOptions_intro.
    + by rewrite length_fmap.
    + apply NoDup_fmap_2_strong; [|done].
      intros x y Hx Hy. apply toString_inj; apply isSafeInteger_small.
      * specialize (Hlt x Hx). app_simpl. lia.
      * specialize (Hlt y Hy). app_simpl. lia.
    + apply list_elem_of_fmap. by exists (numberAsked (set_content Blank a)).
  - by apply (Hcorpus _ eq_refl).
  - by apply (Hcorpus _ eq_refl).
  - by apply (Hcorpus _ eq_refl).
  - rewrite Hrender. cbn [distinctValues expectedChallenge choiceCorpus mbind option_bind].
    apply (renderSequencePlacementGame_returns days _ fuel (set_content Blank a)).
  - rewrite Hrender. cbn [distinctValues expectedChallenge choiceCorpus mbind option_bind].
    apply (renderSequencePlacementGame_returns months _ fuel (set_content Blank a)).
  - by apply (Hcorpus _ eq_refl).
  - by apply (Hcorpus _ eq_refl).
  - by apply (Hcorpus _ eq_refl).
  - by apply (Hcorpus _ eq_refl).
  - by apply (Hcorpus _ eq_refl).
Qed.

Lemma remove_dups_constant `{EqDecision A} (start ds : list A) (v : A) :
  (∀ x, x ∈ ds → x = v) → length (remove_dups (start ++ ds)) ≤ length start + 1.
Proof.
  intros Hds.
  assert (Hsub : remove_dups (start ++ ds) ⊆+ start ++ [v]).
  { apply NoDup_submseteq; [apply NoDup_remove_dups|].
    intros x Hx. apply elem_of_remove_dups, elem_of_app in Hx as [Hx|Hx].
    - apply elem_of_app. by left.
    - apply elem_of_app. right. rewrite (Hds x Hx). apply list_elem_of_here. }
  apply submseteq_length in Hsub. rewrite length_app in Hsub. exact Hsub.
Qed.

Lemma nextDraws_constant {A} (bound : nat) (pick : nat → A) (fuel : nat) (a b : App) :
  (∀ k, random a k = random a 0) →
  (∀ k, random b k = random a k) →
  ∀ x, x ∈ nextDraws bound pick fuel b → x = drawnAt bound pick a 0.
Proof.
  intros Hconst Hb x Hx. unfold nextDraws in Hx.
  apply list_elem_of_fmap in Hx as (k & -> & _).
  unfold drawnAt. by rewrite Hb, Hconst.
Qed.

(** With a random source that always draws the same number, a rejection
    loop sees at most two values. *)
Lemma distinctValues_constant (g : GameType) (fuel : nat) (a : App) (d : nat) :
  (∀ k, random a k = random a 0) →
  distinctValues g fuel a = Some d → d ≤ 2.
Proof.
  intros Hconst.
  assert (Hone : ∀ `{EqDecision A} (bound : nat) (pick : nat → A) (x : A) (b : App),
            (∀ k, random b k = random a k) →
            length (remove_dups ([x] ++ nextDraws bound pick fuel b)) ≤ 2).
  { intros A ? bound pick x b Hb.
    etrans; [apply (remove_dups_constant [x] _ (drawnAt bound pick a 0))|done].
    by apply nextDraws_constant. }
  assert (Hnone : ∀ (bound : nat) (b : App),
            (∀ k, random b k = random a k) →
            length (remove_dups (nextDraws bound id fuel b)) ≤ 2).
  { intros bound b Hb.
    etrans; [apply (remove_dups_constant [] _ (drawnAt bound id a 0))|cbn; lia].
    by apply nextDraws_constant. }
  unfold distinctValues. cbv zeta.
  destruct g; try discriminate;
    try (intros [= <-]; first [by apply Hone | by apply Hnone]);
    (destruct (choiceCorpus _) as [corpus|]; [|discriminate]; cbn [mbind option_bind];
     destruct (corpus !! _) as [[prompt answer]|]; [|discriminate]; cbn [mbind option_bind];
     intros [= <-]; by apply Hone).
Qed.

Lemma distinctValues_None (g : GameType) (fuel : nat) (a : App) :
  currentGame a = Some g →
  distinctValues g fuel a = None ↔ g ∈ [GUESS; SENTENCE; GRAMMAR; HANGMAN; COLORS].
Proof.
  intros Hg. split.
  - intros Hnone. destruct (choiceCorpus g) as [corpus|] eqn:Hc.
    + destruct (corpus_game_generation g corpus fuel a Hc Hg)
        as (prompt & answer & Hentry & _).
      rewrite (distinctValues_corpus g corpus prompt answer fuel a Hc Hentry) in Hnone.
      case_decide as Hcol; [subst g; repeat constructor|discriminate Hnone].
    + destruct g; try discriminate Hc; try discriminate Hnone; repeat constructor.
  - intros Hin.
    repeat (apply elem_of_cons in Hin as [->|Hin]); try reflexivity.
    by apply elem_of_nil in Hin.
Qed.

Lemma expectedChallenge_None (g : GameType) (fuel : nat) (a : App) :
  currentGame a = Some g →
  expectedChallenge g a = None ↔ g ∈ [GUESS; SENTENCE; GRAMMAR; HANGMAN; DAYS; MONTHS].
Proof.
  intros Hg. split.
  - intros Hnone. destruct (choiceCorpus g) as [corpus|] eqn:Hc.
    + destruct (corpus_game_generation g corpus fuel a Hc Hg)
        as (prompt & answer & Hentry & _).
      rewrite (expectedChallenge_corpus g corpus a Hc), Hentry in Hnone.
      discriminate Hnone.
    + destruct g; try discriminate Hc; try discriminate Hnone; repeat constructor.
  - intros Hin.
    repeat (apply elem_of_cons in Hin as [->|Hin]); try reflexivity.
    by apply elem_of_nil in Hin.
Qed.

(** ** C1: the options of a challenge *)

(** C1, amended.  The translate game, the colors game and the seven category
    games take the entry of their corpus at index [level mod length] as
    prompt and correct answer; the two number games take a number drawn at
    random below [min 300 (20 + level)], shown in digits and asked in words
    or the other way round.  Whenever one of these eleven games generates its
    screen, the screen shows that prompt and four pairwise distinct options,
    the correct answer among them, so exactly three distractors, none equal
    to the correct answer.  The other six games (guess, sentence, grammar,
    hangman, days, months) generate a screen without options.  The screen is
    generated within [fuel] iterations exactly when the game has no
    rejection loop or the values its loop starts from and those the next
    [fuel] draws select make up four distinct values. *)
Theorem choice_generation (g : GameType) (fuel : nat) (a : App) :
  currentGame a = Some g →
  (expectedChallenge g a = None ↔
   g ∈ [GUESS; SENTENCE; GRAMMAR; HANGMAN; DAYS; MONTHS]) ∧
  (is_Some (renderLevel fuel a) ↔
   match distinctValues g fuel a with Some n => 4 ≤ n | None => True end) ∧
  ∀ a', renderLevel fuel a = Some a' →
    match expectedChallenge g a with
    | Some (prompt, answer) =>
        ∃ opts, challengeOf (content a') = Some (prompt, opts, answer) ∧
                fourOptions opts answer
    | None => challengeOf (content a') = None
    end.
Proof.
  intros Hg. split; [by apply (expectedChallenge_None g fuel)|].
  by apply generation_by_game.
Qed.

Lemma choice_generation_witness :
  let a := set_currentGame (Some ANIMAL) (newApp NoItem (fun k => k)) in
  ∃ a' opts,
    renderLevel 8 a = Some a' ∧
    challengeOf (content a') = Some ("گربه", opts, "Cat") ∧
    fourOptions opts "Cat".
Proof.
  intros a.
  assert (Hg : currentGame a = Some ANIMAL) by reflexivity.
  destruct (choice_generation ANIMAL 8 a Hg) as (_ & Hsome & Hopts).
  assert (Hd : distinctValues ANIMAL 8 a = Some 8) by (vm_compute; reflexivity).
  assert (Hex : expectedChallenge ANIMAL a = Some ("گربه", "Cat"))
    by (vm_compute; reflexivity).
  rewrite Hd in Hsome. rewrite Hex in Hopts.
  destruct (proj2 Hsome) as [a' Ha']; [lia|].
  destruct (Hopts a' Ha') as (opts & Hc & Hfour).
  by exists a', opts.
Defined.

(** ** C6: when the generation returns *)

(** C6, amended.  The guess, sentence, grammar, hangman and colors games
    have no rejection loop and [renderLevel] always returns for them.  The
    translate game, the seven category games, the two number games and the
    days and months games draw until they have four distinct values, without
    a bound on the retries and without a fallback: [renderLevel] returns
    within [fuel] iterations exactly when the values the loop starts from and
    those the next [fuel] draws select make up four distinct values, and with
    a random source that always draws the same number it never returns. *)
Theorem generation_returns_iff_four_distinct (g : GameType) (fuel : nat) (a : App) :
  currentGame a = Some g →
  (distinctValues g fuel a = None ↔ g ∈ [GUESS; SENTENCE; GRAMMAR; HANGMAN; COLORS]) ∧
  (is_Some (renderLevel fuel a) ↔
   match distinctValues g fuel a with Some n => 4 ≤ n | None => True end) ∧
  ((∀ k, random a k = random a 0) →
   g ∉ [GUESS; SENTENCE; GRAMMAR; HANGMAN; COLORS] →
   ∀ n, renderLevel n a = None).
Proof.
  intros Hg. split; [by apply distinctValues_None|].
  split; [by apply generation_by_game|].
  intros Hconst Hloop n.
  destruct (generation_by_game g n a Hg) as [Hsome _].
  destruct (distinctValues g n a) as [d|] eqn:Hd.
  - apply (distinctValues_constant g n a d Hconst) in Hd.
    destruct (renderLevel n a) eqn:Hr; [|done].
    assert (4 ≤ d) by (apply Hsome; by eexists). lia.
  - by apply (distinctValues_None g n a Hg) in Hd.
Qed.

Lemma generation_returns_iff_four_distinct_witness :
  let stuck := set_currentGame (Some DAYS) (newApp NoItem (fun _ => 0)) in
  let a := set_currentGame (Some DAYS) (newApp NoItem (fun k => k)) in
  renderLevel 1000 stuck = None ∧
  distinctValues DAYS 4 a = Some 4 ∧ is_Some (renderLevel 4 a).
Proof.
  intros stuck a.
  assert (Hg : currentGame stuck = Some DAYS) by reflexivity.
  assert (Hg' : currentGame a = Some DAYS) by reflexivity.
  assert (Hconst : ∀ k, random stuck k = random stuck 0) by reflexivity.
  assert (Hloop : DAYS ∉ [GUESS; SENTENCE; GRAMMAR; HANGMAN; COLORS]) by compute_done.
  assert (Hd : distinctValues DAYS 4 a = Some 4) by (vm_compute; reflexivity).
  split.
  - exact (proj2 (proj2 (generation_returns_iff_four_distinct DAYS 0 stuck Hg))
             Hconst Hloop 1000).
  - split; [exact Hd|].
    destruct (generation_returns_iff_four_distinct DAYS 4 a Hg') as (_ & Hsome & _).
    rewrite Hd in Hsome. by apply Hsome.
Defined.

(** ** C7: a letter already guessed *)

Lemma keysInv_keepsKeys (a a' : App) : keepsKeys a a' → keysInv a → keysInv a'.
Proof.
  intros [Hg [Hc|Hc]]; unfold keysInv.
  - by rewrite Hc, Hg.
  - by destruct (content a').
Qed.

Ltac keys_leaf :=
  repeat match goal with
  | |- context [successAction ?t ?b] =>
      let p := fresh "p" in let ms := fresh "ms" in
      destruct (successAction_shape t b) as (p & ms & ->)
  end;
  unfold keepsKeys; app_simpl;
  split; [reflexivity | first [left; reflexivity | left; assumption | right; exact I]].

Lemma handleLetterClick_keys (btn : nat) (c : ascii) (a : App) :
  keepsKeys a (handleLetterClick btn c a).
Proof.
  unfold handleLetterClick.
  repeat (first [case_match | case_decide]); keys_leaf.
Qed.

Lemma undoLetter_keys (a : App) : keepsKeys a (undoLetter a).
Proof.
  unfold undoLetter.
  repeat (first [case_match | case_decide]); keys_leaf.
Qed.

Lemma checkTranslate_keys (i : nat) (ci : option nat) (a : App) :
  keepsKeys a (checkTranslate i ci a).
Proof.
  unfold checkTranslate. app_simpl.
  repeat (first [case_match | case_decide]); keys_leaf.
Qed.

Lemma moveWord_keys (id : nat) (a : App) : keepsKeys a (moveWord id a).
Proof.
  unfold moveWord.
  destruct (content a) eqn:Hc; try keys_leaf.
  destruct (list_find _ pool) as [[? chip]|];
    [|destruct (list_find _ target) as [[? chip]|]];
    repeat (first [case_match | case_decide]); keys_leaf.
Qed.

Lemma checkGrammarCorrection_keys (s : string) (a : App) :
  keepsKeys a (checkGrammarCorrection s a).
Proof.
  unfold checkGrammarCorrection.
  repeat (first [case_match | case_decide]); keys_leaf.
Qed.

Lemma updateGrammarUI_keys (a : App) : keepsKeys a (updateGrammarUI a).
Proof.
  unfold updateGrammarUI. destruct (currentGrammarData a) as [data|]; [|keys_leaf].
  case_decide; [|keys_leaf].
  destruct (shuffleArray_state (options data) a) as [k Hk].
  destruct (shuffleArray _ _) as [l a1]. simpl in Hk. subst a1. keys_leaf.
Qed.

Lemma checkGrammarMistake_keys (idx : nat) (a : App) :
  keepsKeys a (checkGrammarMistake idx a).
Proof.
  unfold checkGrammarMistake.
  case_decide; [keys_leaf|].
  destruct (currentGrammarData a) as [data|] eqn:Hd; [|keys_leaf].
  case_decide; [|keys_leaf].
  destruct (updateGrammarUI_keys (set_grammarStep 2 a)) as [Hg Hc].
  split; [exact Hg|exact Hc].
Qed.

Lemma checkChoice_keys (v w : Val) (a : App) : keepsKeys a (checkChoice v w a).
Proof. unfold checkChoice. case_decide; keys_leaf. Qed.

Lemma placeInSlot_keys (btn : nat) (a : App) : keepsKeys a (placeInSlot btn a).
Proof.
  unfold placeInSlot, checkSequenceStatus.
  destruct (content a) eqn:Hc; try keys_leaf.
  destruct (pool !! btn) as [b|]; [|keys_leaf].
  destruct (fillFirstEmpty _ _) as [cells'|]; [|keys_leaf].
  app_simpl. repeat (first [case_match | case_decide]); keys_leaf.
Qed.

Lemma removeFromSlot_keys (slot : nat) (a : App) : keepsKeys a (removeFromSlot slot a).
Proof.
  unfold removeFromSlot.
  repeat (first [case_match | case_decide]); keys_leaf.
Qed.

Lemma keysInv_guessHangman (l : ascii) (a : App) : keysInv (guessHangman l a).
Proof.
  destruct (guessHangman_step l a) as (e & _ & _ & Hg & _ & _ & Hc & _).
  unfold keysInv. by rewrite Hc, Hg.
Qed.

Lemma keysInv_gameClick (ev : Event) (a : App) : keysInv a → keysInv (gameClick ev a).
Proof.
  intros Ha. unfold gameClick.
  destruct ev; destruct (content a) eqn:Hc; try exact Ha.
  - destruct (_ !! _) as [b|]; [|done]. destruct (spent b); [done|].
    apply (keysInv_keepsKeys a); [apply handleLetterClick_keys|done].
  - apply (keysInv_keepsKeys a); [apply undoLetter_keys|done].
  - case_decide; [|done]. apply (keysInv_keepsKeys a); [apply checkTranslate_keys|done].
  - destruct (_ !! _); [|done]. apply (keysInv_keepsKeys a); [apply checkGrammarCorrection_keys|done].
  - destruct (_ !! _); [|done]. apply (keysInv_keepsKeys a); [apply checkChoice_keys|done].
  - apply (keysInv_keepsKeys a); [apply moveWord_keys|done].
  - case_decide; [|done]. apply (keysInv_keepsKeys a); [apply checkGrammarMistake_keys|done].
  - case_bool_decide; [|done]. apply keysInv_guessHangman.
  - destruct (_ !! _) as [b|]; [|done]. destruct (hidden b); [done|].
    apply (keysInv_keepsKeys a); [apply placeInSlot_keys|done].
  - apply (keysInv_keepsKeys a); [apply removeFromSlot_keys|done].
Qed.

(** Whatever was on screen, a rendered level shows the keys of its own
    guessed letters. *)
Lemma keysInv_renderLevel (fuel : nat) (a a' : App) :
  renderLevel fuel a = Some a' → keysInv a'.
Proof.
  unfold renderLevel. app_simpl.
  destruct (currentGame a) as [[]|]; intros H; try (injection H as <-).
  - destruct (renderGuessGame_view (set_content Blank a)) as (? & ? & ? & _ & ->). done.
  - revert H. unfold renderTranslateGame. app_simpl.
    destruct (_ !! _) as [item|]; [|by intros [= <-]].
    random_shape; cbn [mbind option_bind]; [|done].
    random_shape. by intros [= <-].
  - unfold renderSentenceGame. destruct (_ !! _) as [data|]; [|done]. by random_shape.
  - unfold renderGrammarGame.
    match goal with |- keysInv (updateGrammarUI ?b) =>
      apply (keysInv_keepsKeys b); [apply updateGrammarUI_keys|done] end.
  - destruct (renderHangmanGame_fresh (set_content Blank a)) as (? & _ & ->). done.
  - revert H. unfold renderNumToWordGame, randomBelow.
    random_shape; cbn [mbind option_bind]; [|done].
    random_shape. by intros [= <-].
  - revert H. unfold renderWordToNumGame, randomBelow.
    random_shape; cbn [mbind option_bind]; [|done].
    random_shape. by intros [= <-].
  - unfold renderColorsGame. destruct (_ !! _) as [data|]; [|done]. by random_shape.
  - revert H. unfold renderCategoryChoiceGame.
    destruct (_ !! _) as [data|]; [|by intros [= <-]].
    random_shape; cbn [mbind option_bind]; [|done]. random_shape. by intros [= <-].
  - revert H. unfold renderCategoryChoiceGame.
    destruct (_ !! _) as [data|]; [|by intros [= <-]].
    random_shape; cbn [mbind option_bind]; [|done]. random_shape. by intros [= <-].
  - revert H. unfold renderSequencePlacementGame.
    random_shape; cbn [mbind option_bind]; [|done]. random_shape. by intros [= <-].
  - revert H. unfold renderSequencePlacementGame.
    random_shape; cbn [mbind option_bind]; [|done]. random_shape. by intros [= <-].
  - revert H. unfold renderCategoryChoiceGame.
    destruct (_ !! _) as [data|]; [|by intros [= <-]].
    random_shape; cbn [mbind option_bind]; [|done]. random_shape. by intros [= <-].
  - revert H. unfold renderCategoryChoiceGame.
    destruct (_ !! _) as [data|]; [|by intros [= <-]].
    random_shape; cbn [mbind option_bind]; [|done]. random_shape. by intros [= <-].
  - revert H. unfold renderCategoryChoiceGame.
    destruct (_ !! _) as [data|]; [|by intros [= <-]].
    random_shape; cbn [mbind option_bind]; [|done]. random_shape. by intros [= <-].
  - revert H. unfold renderCategoryChoiceGame.
    destruct (_ !! _) as [data|]; [|by intros [= <-]].
    random_shape; cbn [mbind option_bind]; [|done]. random_shape. by intros [= <-].
  - revert H. unfold renderCategoryChoiceGame.
    destruct (_ !! _) as [data|]; [|by intros [= <-]].
    random_shape; cbn [mbind option_bind]; [|done]. random_shape. by intros [= <-].
  - done.
Qed.

Lemma keysInv_handle (fuel : nat) (ev : Event) (a a' : App) :
  keysInv a → handle fuel ev a = Some a' → keysInv a'.
Proof.
  intros Ha.
  assert (Hgame : (if gameScreenHidden a then Some a else Some (gameClick ev a))
                  = Some a' → keysInv a').
  { destruct (gameScreenHidden a); intros [= <-]; [done|by apply keysInv_gameClick]. }
  destruct ev; cbn [handle]; try exact Hgame; clear Hgame.
  - destruct (_ && _); [|by intros [= <-]].
    unfold startGame. destruct (completed _); [by intros [= <-]|].
    apply keysInv_renderLevel.
  - destruct (modalHidden a); [by intros [= <-]|].
    unfold confirmReset. app_simpl.
    destruct (pendingGameType a) as [type|]; [|by intros [= <-]].
    destruct (progress a !! GAME_TYPES type) as [r|]; [|by intros [= <-]].
    apply keysInv_renderLevel.
  - by intros [= <-].
  - destruct (gameScreenHidden a); by intros [= <-].
  - destruct (timerInterval a); intros [= <-]; [|done].
    unfold timerTick. app_simpl. by case_decide.
  - destruct (timeouts a !! i) as [[cb ms]|]; [|by intros [= <-]].
    destruct cb; cbn [runCallback].
    + apply keysInv_renderLevel.
    + unfold nextLevel. app_simpl. case_decide; [|apply keysInv_renderLevel].
      destruct (_ !! _); by intros [= <-].
    + by intros [= <-].
Qed.

Lemma keysInv_run (fuel : nat) (evs : list Event) (a a' : App) :
  keysInv a → run fuel evs a = Some a' → keysInv a'.
Proof.
  revert a. induction evs as [|ev evs IH]; intros a Ha; cbn [run].
  - by intros [= <-].
  - destruct (handle fuel ev a) as [b|] eqn:Hb; [|done]. cbn.
    apply IH. by apply (keysInv_handle fuel ev a).
Qed.

Lemma guessed_key_disabled (l : ascii) (a : App) :
  keysInv a → l ∈ guessedLetters a → gameClick (KeyClick l) a = a.
Proof.
  intros Ha Hl. unfold gameClick, keysInv in *.
  destruct (content a); try done. subst keys.
  rewrite bool_decide_eq_false_2; [done|].
  unfold hangmanKeys. rewrite list_elem_of_fmap. intros (c & [= -> Hdis] & _).
  symmetry in Hdis. by apply bool_decide_eq_false in Hdis.
Qed.

Lemma keyClick_twice (l : ascii) (a : App) :
  keysInv a →
  gameClick (KeyClick l) (gameClick (KeyClick l) a) = gameClick (KeyClick l) a.
Proof.
  intros Ha.
  assert (Hcases : gameClick (KeyClick l) a = a ∨
                   gameClick (KeyClick l) a = guessHangman l a).
  { unfold gameClick. destruct (content a); auto. case_bool_decide; auto. }
  destruct Hcases as [Hsame|Hguess].
  - by rewrite !Hsame.
  - rewrite Hguess. apply guessed_key_disabled; [apply keysInv_guessHangman|].
    destruct (guessHangman_step l a) as (e & _ & _ & -> & _). set_solver.
Qed.

(** C7. In every state the program reaches, a click on the key of a letter
    that is already in [guessedLetters] changes nothing at all: the key is
    rendered disabled, so [guessHangman] is not called, and [guessedLetters]
    and [mistakes] stay as they are.  In particular the same key clicked a
    second time, whatever the first click did, changes nothing: an absent
    letter counts one mistake, once. *)
Theorem guessed_letter_is_rejected
    (saved : Stored) (rnd : nat → nat) (fuel : nat) (evs : list Event) (a : App)
    (l : ascii) :
  run fuel evs (newApp saved rnd) = Some a →
  (l ∈ guessedLetters a →
   handle fuel (KeyClick l) a = Some a ∧
   ∀ a', handle fuel (KeyClick l) a = Some a' →
         guessedLetters a' = guessedLetters a ∧ mistakes a' = mistakes a) ∧
  (∀ a1, handle fuel (KeyClick l) a = Some a1 →
         handle fuel (KeyClick l) a1 = Some a1).
Proof.
  intros Hrun.
  assert (Ha : keysInv a) by (by apply (keysInv_run fuel evs (newApp saved rnd))).
  split.
  - intros Hl.
    assert (Hsame : handle fuel (KeyClick l) a = Some a).
    { cbn [handle]. rewrite guessed_key_disabled by done.
      by destruct (gameScreenHidden a). }
    split; [exact Hsame|]. intros a' Ha'. rewrite Hsame in Ha'. by injection Ha' as <-.
  - intros a1 H1. cbn [handle] in *.
    destruct (gameScreenHidden a) eqn:Hhid.
    + assert (a1 = a) as -> by congruence. by rewrite Hhid.
    + assert (a1 = gameClick (KeyClick l) a) as -> by congruence.
      rewrite keyClick_twice by done.
      by destruct (gameScreenHidden (gameClick (KeyClick l) a)).
Qed.

Lemma guessed_letter_is_rejected_witness :
  let start := newApp NoItem (fun k => k) in
  let a := default start (run 0 [MenuClick HANGMAN; KeyClick "Z"] start) in
  "Z"%char ∈ guessedLetters a ∧ mistakes a = 1 ∧
  handle 0 (KeyClick "Z") a = Some a.
Proof.
  intros start a.
  assert (Hrun : run 0 [MenuClick HANGMAN; KeyClick "Z"] (newApp NoItem (fun k => k))
                 = Some a) by (vm_compute; reflexivity).
  assert (Hl : "Z"%char ∈ guessedLetters a) by compute_done.
  split; [exact Hl|]. split; [reflexivity|].
  exact (proj1 (proj1 (guessed_letter_is_rejected NoItem (fun k => k) 0 _ a "Z" Hrun) Hl)).
Defined.

(** ** C2: success, level by level *)













(** ** Further properties: persistence, start and reset *)

Lemma lookup_foldr_insert_GAME_TYPES (l : list GameType) (key : string) :
  foldr (fun k m => <[GAME_TYPES k := freshRecord]> m) (∅ : gmap string ProgressRecord) l !! key
  = if decide (key ∈ GAME_TYPES <$> l) then Some freshRecord else None.
Proof.
  induction l as [|g l IH]; cbn [foldr fmap list_fmap].
  - by rewrite lookup_empty, decide_False by apply not_elem_of_nil.
  - destruct (decide (GAME_TYPES g = key)) as [<-|Hne].
    + rewrite lookup_insert_eq. by rewrite decide_True by apply list_elem_of_here.
    + rewrite lookup_insert_ne by done. rewrite IH.
      destruct (decide (key ∈ GAME_TYPES <$> l)) as [Hin|Hout].
      * by rewrite decide_True by (by apply list_elem_of_further).
      * rewrite decide_False; [done|]. intros [?|?]%elem_of_cons; congruence.
Qed.

Lemma GAME_TYPES_all (g : GameType) : GAME_TYPES g ∈ GAME_TYPES <$> allGameTypes.
Proof. apply list_elem_of_fmap. exists g. split; [done|]. destruct g; compute_done. Qed.

(** X1. With nothing stored, or with a stored text that does not parse,
    [loadProgress] gives every one of the 17 games a record at level 0
    without medals, and the map has no other key; no two games share a key,
    so no two games share a record. *)
Theorem fresh_progress_has_every_game (saved : Stored) :
  (∀ doc, saved ≠ Document doc) →
  (∀ g, loadProgress saved !! GAME_TYPES g = Some freshRecord) ∧
  (∀ key, is_Some (loadProgress saved !! key) → ∃ g, key = GAME_TYPES g) ∧
  size (loadProgress saved) = 17 ∧
  (∀ g h, GAME_TYPES g = GAME_TYPES h → g = h).
Proof.
  intros Hno.
  assert (Hload : loadProgress saved = initialProgress)
    by (destruct saved; [done|done|by destruct (Hno doc)]).
  rewrite Hload. unfold initialProgress.
  split; [|split; [|split]].
  - intros g. rewrite lookup_foldr_insert_GAME_TYPES.
    by rewrite decide_True by apply GAME_TYPES_all.
  - intros key. rewrite lookup_foldr_insert_GAME_TYPES.
    case_decide as Hin; [|by intros [? ?]].
    intros _. apply list_elem_of_fmap in Hin as (g & -> & _). by exists g.
  - vm_compute. reflexivity.
  - intros g h. destruct g, h; (done || discriminate).
Qed.

Lemma fresh_progress_has_every_game_witness :
  loadProgress Unparsable !! "hangman" = Some freshRecord ∧
  size (loadProgress Unparsable) = 17.
Proof.
  assert (Hno : ∀ doc, Unparsable ≠ Document doc) by (intros doc; discriminate).
  split.
  - exact (proj1 (fresh_progress_has_every_game Unparsable Hno) HANGMAN).
  - exact (proj1 (proj2 (proj2 (fresh_progress_has_every_game Unparsable Hno)))).
Defined.

(** X2. A click on the card of a game whose record is completed starts no
    session: it opens the confirmation modal with the game pending and
    leaves the session, the progress map, the stored document and the screen
    as they are.  Cancelling closes the modal and still changes no record. *)
Theorem completed_game_asks_before_restart
    (type : GameType) (fuel : nat) (a : App) (r : ProgressRecord) :
  progress a !! GAME_TYPES type = Some r →
  completed r = true →
  ∃ a',
    startGame type fuel a = Some a' ∧
    modalHidden a' = false ∧ pendingGameType a' = Some type ∧
    (progress a', localStorage a', currentGame a', currentLevel a', score a',
     content a', gameScreenHidden a', timeouts a', feedback a')
    = (progress a, localStorage a, currentGame a, currentLevel a, score a,
       content a, gameScreenHidden a, timeouts a, feedback a) ∧
    ∃ a'', handle fuel ModalCancel a' = Some a'' ∧
           modalHidden a'' = true ∧
           progress a'' = progress a ∧ localStorage a'' = localStorage a ∧
           currentGame a'' = currentGame a.
Proof.
  intros Hr Hc. unfold startGame. cbv zeta. rewrite Hr.
  change (default freshRecord (Some r)) with r. rewrite Hc.
  eexists. split; [reflexivity|]. app_simpl. repeat split.
  eexists. split; [reflexivity|]. app_simpl. done.
Qed.

Lemma completed_game_asks_before_restart_witness :
  let r := {| level := 0; medals := 1; completed := true |} in
  let a := newApp (Document {[ "colors" := r ]}) (fun k => k) in
  ∃ a', startGame COLORS 0 a = Some a' ∧
        modalHidden a' = false ∧ pendingGameType a' = Some COLORS.
Proof.
  intros r a.
  assert (Hr : progress a !! GAME_TYPES COLORS = Some r) by (vm_compute; reflexivity).
  assert (Hc : completed r = true) by reflexivity.
  destruct (completed_game_asks_before_restart COLORS 0 a r Hr Hc)
    as (a' & Hstart & Hmodal & Hpending & _).
  exists a'. split; [exact Hstart|]. split; [exact Hmodal|exact Hpending].
Defined.

(** X3. Confirming the reset of the pending game: its record goes back to
    level 0 and not completed and keeps its medals, the map is saved, the
    modal is closed, and the level is rendered for a session of that game at
    level 0 with score 0; rendering changes none of this. *)
Theorem confirm_reset_restarts_from_level_zero
    (type : GameType) (fuel : nat) (a : App) (r : ProgressRecord) :
  pendingGameType a = Some type →
  progress a !! GAME_TYPES type = Some r →
  ∃ b,
    confirmReset fuel a = renderLevel fuel b ∧
    ∀ a', (a' = b ∨ renderLevel fuel b = Some a') →
      progress a' = <[GAME_TYPES type :=
                        {| level := 0; medals := medals r; completed := false |}]>
                      (progress a) ∧
      localStorage a' = Document (progress a') ∧
      currentGame a' = Some type ∧ currentLevel a' = 0 ∧ score a' = 0 ∧
      modalHidden a' = true ∧ gameScreenHidden a' = false ∧
      timeouts a' = timeouts a ∧ feedback a' = feedback a.
Proof.
  intros Hp Hr. unfold confirmReset. app_simpl. rewrite Hp, Hr. unfold actualStart.
  eexists. split; [reflexivity|].
  intros a' [->|Hrender].
  - app_simpl. done.
  - apply renderLevel_frame in Hrender.
    injection Hrender as -> -> -> _ -> -> -> -> _ -> ->. app_simpl. done.
Qed.

Lemma confirm_reset_restarts_from_level_zero_witness :
  let r := {| level := 0; medals := 1; completed := true |} in
  let a := showModal (set_pendingGameType (Some COLORS)
                        (newApp (Document {[ "colors" := r ]}) (fun k => k))) in
  ∃ a', confirmReset 0 a = Some a' ∧
        progress a' = <[ "colors" := {| level := 0; medals := 1; completed := false |} ]>
                        (progress a) ∧
        localStorage a' = Document (progress a').
Proof.
  intros r a.
  assert (Hp : pendingGameType a = Some COLORS) by reflexivity.
  assert (Hr : progress a !! GAME_TYPES COLORS = Some r) by (vm_compute; reflexivity).
  destruct (confirm_reset_restarts_from_level_zero COLORS 0 a r Hp Hr) as (b & Hb & Hall).
  destruct (renderLevel 0 b) as [a'|] eqn:Hrender.
  - exists a'. split; [exact Hb|].
    destruct (Hall a' (or_intror eq_refl)) as (H1 & H2 & _).
    split; [exact H1|exact H2].
  - exfalso. clear Hall Hrender. vm_compute in Hb. discriminate Hb.
Defined.

(** X4. A click on the card of a game that is not completed resumes it:
    the level is rendered for a session of that game with score 0 at the
    level its record holds (level 0 when it has no record); the progress map
    and the stored document are not touched. *)
Theorem start_resumes_at_recorded_level (type : GameType) (fuel : nat) (a : App) :
  let r := default freshRecord (progress a !! GAME_TYPES type) in
  completed r = false →
  ∃ b,
    startGame type fuel a = renderLevel fuel b ∧
    ∀ a', (a' = b ∨ renderLevel fuel b = Some a') →
      currentGame a' = Some type ∧ currentLevel a' = level r ∧ score a' = 0 ∧
      gameScreenHidden a' = false ∧
      progress a' = progress a ∧ localStorage a' = localStorage a ∧
      timeouts a' = timeouts a ∧ feedback a' = feedback a.
Proof.
  intros r Hc. unfold startGame. fold r. rewrite Hc. unfold actualStart.
  eexists. split; [reflexivity|].
  intros a' [->|Hrender].
  - app_simpl. done.
  - apply renderLevel_frame in Hrender.
    injection Hrender as -> -> -> _ -> -> -> -> _ -> _. app_simpl. done.
Qed.

Lemma start_resumes_at_recorded_level_witness :
  let r := {| level := 7; medals := 0; completed := false |} in
  let a := newApp (Document {[ "hangman" := r ]}) (fun k => k) in
  ∃ a', startGame HANGMAN 0 a = Some a' ∧
        currentGame a' = Some HANGMAN ∧ currentLevel a' = 7 ∧ score a' = 0.
Proof.
  intros r a.
  assert (Hc : completed (default freshRecord (progress a !! GAME_TYPES HANGMAN)) = false)
    by (vm_compute; reflexivity).
  destruct (start_resumes_at_recorded_level HANGMAN 0 a Hc) as (b & Hb & Hall).
  destruct (renderLevel 0 b) as [a'|] eqn:Hrender.
  - exists a'. split; [exact Hb|].
    destruct (Hall a' (or_intror eq_refl)) as (H1 & H2 & H3 & _).
    split; [exact H1|]. split; [|exact H3].
    rewrite H2. vm_compute. reflexivity.
  - exfalso. clear Hall Hrender. vm_compute in Hb. discriminate Hb.
Defined.

(** ** Further properties: the countdown *)

Lemma renderTranslateGame_timer (fuel : nat) (a a' : App) :
  renderTranslateGame fuel a = Some a' →
  timerInterval a' = true ∧
  timeLeft a' = Z.max 3 (10 - Z.of_nat (currentLevel a / 5)).
Proof.
  unfold renderTranslateGame. app_simpl.
  destruct (_ !! _) as [item|]; [|by intros [= <-]].
  random_shape; cbn [mbind option_bind]; [|done].
  random_shape. by intros [= <-].
Qed.

Lemma ticks_when_stopped (fuel n : nat) (a : App) :
  timerInterval a = false → run fuel (replicate n TimerTick) a = Some a.
Proof.
  intros Hoff. induction n as [|n IH]; [done|].
  cbn [replicate run handle]. by rewrite Hoff.
Qed.

(** X5. The countdown of the translate game starts at
    [max 3 (10 - level / 5)] seconds, between 3 and 10.  Without an answer,
    the ticks before the last one report nothing, and the tick that brings
    the countdown to zero reports exactly one failure without answer text,
    stops the countdown and registers a re-render after one second; score,
    level, progress and the stored document stay as they are. *)
Theorem translate_times_out_after_limit (fuel : nat) (a a1 : App) :
  renderTranslateGame fuel a = Some a1 →
  let limit := Nat.max 3 (10 - currentLevel a / 5) in
  3 ≤ limit ≤ 10 ∧
  timerInterval a1 = true ∧ timeLeft a1 = Z.of_nat limit ∧
  (∀ k, k < limit →
     ∃ b, run fuel (replicate k TimerTick) a1 = Some b ∧
          feedback b = feedback a1 ∧ timeouts b = timeouts a1 ∧
          timerInterval b = true) ∧
  ∃ a2, run fuel (replicate limit TimerTick) a1 = Some a2 ∧
        feedback a2 = feedback a1 ++ [(Failed, "")] ∧
        timeouts a2 = timeouts a1 ++ [(CbRenderLevel, 1000)] ∧
        timerInterval a2 = false ∧
        progress a2 = progress a1 ∧ localStorage a2 = localStorage a1 ∧
        score a2 = score a1 ∧ currentLevel a2 = currentLevel a1.
Proof.
  intros Hrender limit.
  apply renderTranslateGame_timer in Hrender as [Hon Hleft].
  assert (Hlimit : timeLeft a1 = Z.of_nat limit) by (rewrite Hleft; subst limit; lia).
  split; [subst limit; lia|]. split; [done|]. split; [done|]. split.
  - intros k Hk.
    destruct (countdown_running fuel k a1 Hon) as (b & Hrun & Hframe & Hon' & _); [lia|].
    exists b. injection Hframe as _ _ _ _ _ _ ? ? _ _ _. done.
  - assert (Hpos : ∃ n, limit = S n) by (exists (limit - 1); subst limit; lia).
    destruct Hpos as [n Hn]. rewrite Hn in Hlimit |- *.
    destruct (countdown_expiry fuel n a1 Hon Hlimit)
      as (_ & a2 & _ & _ & Hrun & Hfb & Hp & Hs & Hsc & Hl & _ & Hoff & Ht).
    exists a2. done.
Qed.

Lemma translate_times_out_after_limit_witness :
  let a := set_currentGame (Some TRANSLATE) (newApp NoItem (fun k => k)) in
  ∃ a1 a2, renderTranslateGame 8 a = Some a1 ∧
           run 0 (replicate 10 TimerTick) a1 = Some a2 ∧
           feedback a2 = feedback a1 ++ [(Failed, "")].
Proof.
  intros a.
  destruct (renderTranslateGame 8 a) as [a1|] eqn:Hrender;
    [|vm_compute in Hrender; discriminate Hrender].
  destruct (translate_times_out_after_limit 8 a a1 Hrender)
    as (_ & _ & _ & _ & a2 & Hrun & Hfb & _).
  exists a1, a2. split; [reflexivity|]. split; [exact Hrun|exact Hfb].
Defined.

(** X6. An answer in the translate game stops the countdown, and so does
    leaving for the menu: no number of ticks changes anything afterwards, so
    the countdown cannot add a failure to an answer already given. *)
Theorem answer_stops_countdown
    (fuel n selected : nat) (correctIdx : option nat) (a : App) :
  timerInterval (checkTranslate selected correctIdx a) = false ∧
  run fuel (replicate n TimerTick) (checkTranslate selected correctIdx a)
    = Some (checkTranslate selected correctIdx a) ∧
  run fuel (replicate n TimerTick) (showMenu a) = Some (showMenu a).
Proof.
  assert (Hoff : timerInterval (checkTranslate selected correctIdx a) = false).
  { unfold checkTranslate. app_simpl.
    destruct (content a); try done.
    destruct (correctIdx ≫= _); [|done].
    case_decide; [|done].
    unfold successAction. app_simpl. by repeat case_match. }
  split; [done|]. split; by apply ticks_when_stopped.
Qed.

(** X7. Leaving for the menu cancels the countdown but none of the
    registered timeouts.  A re-render registered in a translate session
    before the back button is pressed still runs afterwards, and starts the
    countdown again although the game screen is hidden; when that countdown
    runs out, a failure is reported on the menu and the next re-render is
    registered. *)
Theorem rerender_after_back_restarts_countdown
    (fuel i ms : nat) (a a' : App) :
  gameScreenHidden a = false →
  currentGame a = Some TRANSLATE →
  timeouts a !! i = Some (CbRenderLevel, ms) →
  run fuel [BackClick; TimeoutFires i] a = Some a' →
  let limit := Nat.max 3 (10 - currentLevel a / 5) in
  gameScreenHidden a' = true ∧ timerInterval a' = true ∧
  timeLeft a' = Z.of_nat limit ∧
  timeouts a' = delete i (timeouts a) ∧
  ∃ a'', run fuel (replicate limit TimerTick) a' = Some a'' ∧
         gameScreenHidden a'' = true ∧
         feedback a'' = feedback a ++ [(Failed, "")] ∧
         timeouts a'' = delete i (timeouts a) ++ [(CbRenderLevel, 1000)].
Proof.
  intros Hshown Hg Hi Hrun limit.
  cbn [run handle] in Hrun. rewrite Hshown in Hrun. cbn [mbind option_bind] in Hrun.
  app_simpl. rewrite Hi in Hrun. cbn [runCallback] in Hrun.
  destruct (renderLevel fuel _) as [b|] eqn:Hb; [|done].
  cbn [mbind option_bind] in Hrun. injection Hrun as <-.
  pose proof (renderLevel_frame _ _ _ Hb) as Hframe.
  unfold renderLevel in Hb. cbv zeta in Hb. app_simpl. rewrite Hg in Hb.
  apply renderTranslateGame_timer in Hb as [Hon Hleft]. app_simpl.
  assert (Hlimit : timeLeft b = Z.of_nat limit) by (rewrite Hleft; subst limit; lia).
  assert (Hpos : ∃ n, limit = S n) by (exists (limit - 1); subst limit; lia).
  destruct Hpos as [n Hn].
  destruct (countdown_expiry fuel n b Hon) as (_ & a'' & _ & _ & Hticks & Hfb & _ & _ & _ & _ & _ & _ & Ht);
    [by rewrite Hlimit, Hn|].
  rewrite <- Hn in Hticks. clear Hleft.
  injection Hframe as _ _ _ _ _ _ Hfb' Ht' _ Hh _. app_simpl.
  split; [done|]. split; [done|]. split; [done|]. split; [done|].
  exists a''. split; [done|]. split; [|by rewrite Hfb, Ht, Hfb', Ht'].
  clear -Hticks Hh. revert b Hticks Hh.
  induction limit as [|n IH]; intros b Hticks Hh.
  - by injection Hticks as <-.
  - cbn [replicate run handle] in Hticks.
    destruct (timerInterval b); cbn [mbind option_bind] in Hticks; [|by eapply IH].
    eapply IH; [done|]. unfold timerTick. app_simpl. case_decide; by app_simpl.
Qed.

Lemma rerender_after_back_restarts_countdown_witness :
  let a0 := newApp NoItem (fun k => k) in
  let a := default a0 (run 8 [MenuClick TRANSLATE; OptionClick 0] a0) in
  ∃ a', run 8 [BackClick; TimeoutFires 0] a = Some a' ∧
        gameScreenHidden a' = true ∧ timerInterval a' = true ∧
        timeLeft a' = 10%Z.
Proof.
  intros a0 a.
  assert (Hshown : gameScreenHidden a = false) by (vm_compute; reflexivity).
  assert (Hg : currentGame a = Some TRANSLATE) by (vm_compute; reflexivity).
  assert (Hi : timeouts a !! 0 = Some (CbRenderLevel, 2000)) by (vm_compute; reflexivity).
  destruct (run 8 [BackClick; TimeoutFires 0] a) as [a'|] eqn:Hrun;
    [|vm_compute in Hrun; discriminate Hrun].
  destruct (rerender_after_back_restarts_countdown 8 0 2000 a a' Hshown Hg Hi Hrun)
    as (H1 & H2 & H3 & _).
  exists a'. split; [reflexivity|]. split; [exact H1|]. split; [exact H2|].
  rewrite H3. vm_compute. reflexivity.
Defined.

(** ** Further properties: the shuffle *)

Lemma shuffleFrom_drawn {A} (i : nat) (array : list A) (a : App) :
  (shuffleFrom i array a).2 = set_drawn (drawn a + i) a.
Proof.
  revert array a. induction i as [|i IH]; intros array a; cbn [shuffleFrom].
  - rewrite Nat.add_0_r. apply set_drawn_same.
  - unfold randomBelow. rewrite IH. destruct a. unfold set_drawn. cbn. f_equal. lia.
Qed.

Lemma shuffleFrom_ext {A} (i : nat) (array : list A) (a b : App) :
  drawn a = drawn b →
  (∀ k, drawn a ≤ k → random a k = random b k) →
  (shuffleFrom i array a).1 = (shuffleFrom i array b).1.
Proof.
  revert array a b. induction i as [|i IH]; intros array a b Hd Hr; cbn [shuffleFrom].
  - done.
  - unfold randomBelow. rewrite <- Hd, <- (Hr (drawn a)) by done.
    apply IH; app_simpl; [done|]. intros k Hk. apply Hr. lia.
Qed.

Lemma take_swap {A} (n i j : nat) (l : list A) :
  i < n → j < n → take n (swap i j l) = swap i j (take n l).
Proof.
  intros Hi Hj. unfold swap. rewrite !lookup_take_lt by done.
  destruct (l !! i), (l !! j); try done.
  by rewrite !take_insert_lt by done.
Qed.

Lemma drop_swap {A} (n i j : nat) (l : list A) :
  i < n → j < n → drop n (swap i j l) = drop n l.
Proof.
  intros Hi Hj. unfold swap. destruct (l !! i), (l !! j); try done.
  by rewrite !drop_insert_lt by done.
Qed.

Lemma lookup_swap_l {A} (i j : nat) (l : list A) (x y : A) :
  l !! i = Some x → l !! j = Some y → swap i j l !! i = Some y.
Proof.
  intros Hi Hj. unfold swap. rewrite Hi, Hj.
  destruct (decide (i = j)) as [->|Hne].
  - rewrite list_lookup_insert_eq; [congruence|].
    rewrite length_insert. by eapply lookup_lt_Some.
  - rewrite list_lookup_insert_ne by done.
    rewrite list_lookup_insert_eq; [done|]. by eapply lookup_lt_Some.
Qed.

Lemma shuffleFrom_reaches {A} (i : nat) (array target : list A) (a : App) :
  i < length array →
  take (S i) target ≡ₚ take (S i) array →
  drop (S i) target = drop (S i) array →
  ∃ rnd, (shuffleFrom i array (set_random rnd a)).1 = target.
Proof.
  revert array a. induction i as [|i IH]; intros array a Hlen Htake Hdrop.
  - exists (random a). cbn [shuffleFrom fst].
    destruct array as [|x array]; [cbn in Hlen; lia|].
    destruct target as [|y target].
    + apply Permutation_length in Htake. done.
    + cbn in Htake, Hdrop. apply Permutation_length_1_inv in Htake.
      rewrite !drop_0 in Hdrop. congruence.
  - assert (Hlt : S i < length target).
    { apply Permutation_length in Htake. rewrite !length_take in Htake. lia. }
    destruct (lookup_lt_is_Some_2 array (S i) Hlen) as [x Hx].
    destruct (lookup_lt_is_Some_2 target (S i) Hlt) as [t Ht].
    assert (Hin : t ∈ take (S (S i)) array).
    { rewrite <- Htake. rewrite (take_S_r _ _ _ Ht). set_solver. }
    apply list_elem_of_lookup in Hin as [j Hj].
    apply lookup_take_Some in Hj as [Hj Hjlt].
    set (array' := swap (S i) j array).
    assert (Hnew : array' !! S i = Some t) by (by eapply lookup_swap_l).
    destruct (IH array' (set_drawn (S (drawn a)) a)) as [rnd' Hrnd'].
    + unfold array'.
      rewrite (Permutation_length (swap_Permutation _ _ _)). lia.
    + apply (Permutation_app_inv_r [t]).
      rewrite <- (take_S_r _ _ _ Ht), <- (take_S_r _ _ _ Hnew), Htake.
      unfold array'. rewrite take_swap by lia. symmetry. apply swap_Permutation.
    + rewrite (drop_S _ _ _ Ht), (drop_S _ _ _ Hnew), Hdrop.
      unfold array'. by rewrite drop_swap by lia.
    + exists (fun k => if decide (k = drawn a) then j else rnd' k).
      cbn [shuffleFrom]. unfold randomBelow. app_simpl.
      rewrite decide_True by done.
      replace (S i + 1) with (S (S i)) by lia.
      rewrite Nat.mod_small by done. fold array'.
      rewrite <- Hrnd'. apply shuffleFrom_ext; app_simpl; [done|].
      intros k Hk. by rewrite decide_False by lia.
Qed.

(** X8. [shuffleArray] is a Fisher-Yates shuffle: what it returns is a
    permutation of the array it was given, it takes one random draw for each
    position but the first, and every permutation of the array is returned
    for some sequence of draws. *)
Theorem shuffleArray_permutes {A} (array : list A) (a : App) :
  (shuffleArray array a).1 ≡ₚ array ∧
  (shuffleArray array a).2 = set_drawn (drawn a + (length array - 1)) a ∧
  ∀ target, target ≡ₚ array →
    ∃ rnd, (shuffleArray array (set_random rnd a)).1 = target.
Proof.
  split; [apply shuffleArray_Permutation|]. split; [apply shuffleFrom_drawn|].
  intros target Hperm. unfold shuffleArray.
  destruct array as [|x array].
  - apply Permutation_nil_r in Hperm as ->. by exists (random a).
  - pose proof (Permutation_length Hperm) as Hlen.
    apply shuffleFrom_reaches.
    + cbn. lia.
    + rewrite !take_ge; [done|lia|lia].
    + rewrite !drop_ge; [done|lia|lia].
Qed.

(** ** Further properties: the word-guessing game *)

Lemma split_app (s1 s2 : string) : JS.split (s1 +:+ s2) = JS.split s1 ++ JS.split s2.
Proof.
  induction s1 as [|c s1 IH]; [done|].
  change (JS.split (String c (s1 +:+ s2)) = c :: JS.split s1 ++ JS.split s2).
  cbn [JS.split list_ascii_of_string]. f_equal. exact IH.
Qed.

Lemma length_split (s : string) : length (JS.split s) = String.length s.
Proof. induction s as [|c s IH]; [done|]. cbn. by rewrite <- IH. Qed.

Lemma drawExtras_letters (n : nat) (extras : string) (a : App) :
  ∃ added,
    JS.split (drawExtras n extras a).1 = JS.split extras ++ added ∧
    length added = n ∧
    Forall (fun c => c ∈ JS.split alphabet) added.
Proof.
  revert extras a. induction n as [|n IH]; intros extras a; cbn [drawExtras].
  - exists []. by rewrite app_nil_r.
  - unfold randomBelow.
    set (c := nth (random a (drawn a) mod 26) (JS.split alphabet) "A"%char).
    destruct (IH (extras +:+ String c "") (set_drawn (S (drawn a)) a))
      as (added & Hsplit & Hlen & Hall).
    exists (c :: added). rewrite Hsplit, split_app, <- app_assoc.
    split; [done|]. split; [cbn; lia|].
    apply Forall_cons. split; [|done].
    unfold c. apply list_elem_of_In, nth_In.
    change (length (JS.split alphabet)) with 26. apply Nat.mod_upper_bound. lia.
Qed.

(** What [renderGuessGame] builds. *)
Lemma renderGuessGame_tiles (a : App) :
  ∃ item extras tiles k,
    guessPool !! (currentLevel a mod 5) = Some item ∧
    length extras = 3 + Nat.min 6 (currentLevel a / 5) ∧
    Forall (fun c => c ∈ JS.split alphabet) extras ∧
    tiles ≡ₚ JS.split (answer item) ++ extras ∧
    renderGuessGame a =
      set_currentGuess ""
        (set_content
           (GuessView (img item) (replicate (String.length (answer item)) "")
              (freshTile <$> tiles))
           (set_drawn k a)).
Proof.
  destruct (guessPool_lookup (currentLevel a)) as [item Hitem].
  change (length guessPool) with 5 in Hitem.
  unfold renderGuessGame. change (length guessPool) with 5. rewrite Hitem.
  destruct (drawExtras_letters (3 + Nat.min 6 (currentLevel a / 5)) "" a)
    as (extras & Hsplit & Hlen & Hall).
  destruct (drawExtras_state (3 + Nat.min 6 (currentLevel a / 5)) "" a) as [k1 Hk1].
  destruct (drawExtras _ _ _) as [extraStr a1]. cbn [fst snd] in Hsplit, Hk1. subst a1.
  unfold shuffleString.
  pose proof (sortRandom_Permutation (JS.split (answer item +:+ extraStr))
                (set_drawn k1 a)) as Hperm.
  destruct (sortRandom_state (JS.split (answer item +:+ extraStr)) (set_drawn k1 a))
    as [k2 Hk2].
  destruct (sortRandom _ _) as [letters a2]. cbn [fst snd] in Hperm, Hk2. subst a2.
  exists item, extras, letters, k2.
  split; [done|]. split; [done|]. split; [done|]. split.
  - by rewrite Hperm, split_app, Hsplit.
  - app_simpl. do 3 f_equal.
    + rewrite <- length_split. by apply const_fmap.
    + unfold JS.split, JS.unsplit. by rewrite list_ascii_of_string_of_list_ascii.
Qed.

(** X9. The tiles of the word-guessing game are the letters of the answer
    and [3 + min 6 (level / 5)] further capital letters, in some order: the
    letters of the answer are always among the tiles.  There is one empty
    slot for each letter of the answer, every tile is free, and the guess
    buffer is empty. *)
Theorem guess_tiles_spell_the_word (a : App) :
  ∃ item extras tiles,
    guessPool !! (currentLevel a mod 5) = Some item ∧
    length extras = 3 + Nat.min 6 (currentLevel a / 5) ∧
    Forall (fun c => c ∈ JS.split alphabet) extras ∧
    tiles ≡ₚ JS.split (answer item) ++ extras ∧
    content (renderGuessGame a)
      = GuessView (img item) (replicate (String.length (answer item)) "")
          (freshTile <$> tiles) ∧
    currentGuess (renderGuessGame a) = "" ∧
    length tiles = String.length (answer item) + 3 + Nat.min 6 (currentLevel a / 5).
Proof.
  destruct (renderGuessGame_tiles a)
    as (item & extras & tiles & k & Hitem & Hlen & Hall & Hperm & ->).
  exists item, extras, tiles. app_simpl.
  repeat (split; [done|]).
  rewrite Hperm, length_app, length_split, Hlen. lia.
Qed.

(** A click on a free tile while a slot is empty, written out. *)
Lemma letterClick_eq
    (btn : nat) (a : App) (item : GuessItem) (b : LetterBtn)
    (im : string) (slots : list string) (pool : list LetterBtn) :
  content a = GuessView im slots pool →
  guessPool !! (currentLevel a mod 5) = Some item →
  length slots = String.length (answer item) →
  pool !! btn = Some b →
  spent b = false →
  String.length (currentGuess a) < String.length (answer item) →
  let guess := currentGuess a +:+ String (letter b) "" in
  let a1 :=
    set_content
      (GuessView im (<[String.length (currentGuess a) := String (letter b) ""]> slots)
         (alter (markUsed (String.length (currentGuess a))) btn pool))
      (set_currentGuess guess a) in
  gameClick (LetterClick btn) a =
    if decide (S (String.length (currentGuess a)) = String.length (answer item)) then
      if decide (guess = answer item) then successAction (answer item) a1
      else setTimeout CbRenderLevel 2000 (failAction (answer item) a1)
    else a1.
Proof.
  intros Hc Hitem Hslots Hb Hfree Hroom guess a1.
  unfold gameClick. rewrite Hc, Hb, Hfree.
  unfold handleLetterClick. change (length guessPool) with 5. rewrite Hc, Hitem.
  rewrite decide_True by done.
  rewrite (decide_True (P := String.length (currentGuess a) < length slots)) by lia.
  app_simpl. fold guess.
  assert (Hlen : String.length guess = S (String.length (currentGuess a)))
    by apply length_snoc.
  rewrite Hlen. replace (S (String.length (currentGuess a)) - 1)
    with (String.length (currentGuess a)) by lia.
  done.
Qed.

(** X10. A click on a free tile while a slot is empty puts the letter in
    the next slot.  Nothing is judged before the last slot is filled; the
    click that fills it reports success when the buffer spells the answer,
    and otherwise a failure showing the answer, with a re-render after two
    seconds and score and progress as they were. *)
Theorem guess_judged_when_last_slot_filled
    (btn : nat) (a : App) (item : GuessItem) (b : LetterBtn)
    (im : string) (slots : list string) (pool : list LetterBtn) :
  content a = GuessView im slots pool →
  guessPool !! (currentLevel a mod 5) = Some item →
  length slots = String.length (answer item) →
  pool !! btn = Some b →
  spent b = false →
  String.length (currentGuess a) < String.length (answer item) →
  let a' := gameClick (LetterClick btn) a in
  let guess := currentGuess a +:+ String (letter b) "" in
  currentGuess a' = guess ∧
  content a' = GuessView im (<[String.length (currentGuess a) := String (letter b) ""]> slots)
                 (alter (markUsed (String.length (currentGuess a))) btn pool) ∧
  if decide (String.length guess < String.length (answer item)) then
    feedback a' = feedback a ∧ timeouts a' = timeouts a ∧
    progress a' = progress a ∧ score a' = score a
  else if decide (guess = answer item) then
    feedback a' = feedback a ++ [(Succeeded, answer item)] ∧ score a' = score a + 10
  else
    feedback a' = feedback a ++ [(Failed, answer item)] ∧
    timeouts a' = timeouts a ++ [(CbRenderLevel, 2000)] ∧
    progress a' = progress a ∧ score a' = score a.
Proof.
  intros Hc Hitem Hslots Hb Hfree Hroom a' guess. subst a'.
  rewrite (letterClick_eq btn a item b im slots pool) by done. fold guess.
  assert (Hlen : String.length guess = S (String.length (currentGuess a)))
    by apply length_snoc.
  rewrite Hlen.
  destruct (decide (S (String.length (currentGuess a)) = String.length (answer item)))
    as [Hfull|Hmore].
  - rewrite (decide_False (P := S (String.length (currentGuess a))
                               < String.length (answer item))) by lia.
    destruct (decide (guess = answer item)) as [Hright|Hwrong]; [|by app_simpl].
    match goal with |- context [successAction ?t ?b] =>
      destruct (successAction_facts t b)
        as (Hs & _ & _ & _ & _ & Hf & _ & _ & _ & _ & _ & _ & Hcont) end.
    app_simpl. split; [|done].
    unfold successAction. app_simpl. by repeat case_match.
  - rewrite (decide_True (P := S (String.length (currentGuess a))
                              < String.length (answer item))) by lia.
    app_simpl. done.
Qed.

Lemma guess_judged_when_last_slot_filled_witness :
  let a := tapAll [2; 5; 0] (renderGuessGame
             (set_currentLevel 2 (newApp NoItem (fun k => k)))) in
  feedback (gameClick (LetterClick 4) a) = feedback a ++ [(Failed, "LION")].
Proof.
  intros a.
  set (item := {| img := "game_animal.png"; answer := "LION" |}).
  set (tile := fun l i => {| letter := l; usedIdx := i; spent := bool_decide (i ≠ None) |}).
  set (pool := [tile "N"%char (Some 2); tile "B"%char None; tile "L"%char (Some 0);
                tile "A"%char None; tile "O"%char None; tile "I"%char (Some 1);
                tile "C"%char None]).
  assert (Hc : content a = GuessView "game_animal.png" ["L"; "I"; "N"; ""] pool)
    by (vm_compute; reflexivity).
  assert (Hitem : guessPool !! (currentLevel a mod 5) = Some item)
    by (vm_compute; reflexivity).
  assert (Hslots : length ["L"; "I"; "N"; ""] = String.length (answer item))
    by reflexivity.
  assert (Hb : pool !! 4 = Some (tile "O"%char None)) by reflexivity.
  assert (Hfree : spent (tile "O"%char None) = false) by reflexivity.
  assert (Hroom : String.length (currentGuess a) < String.length (answer item))
    by (vm_compute; lia).
  assert (Hg : currentGuess a = "LIN") by (vm_compute; reflexivity).
  destruct (guess_judged_when_last_slot_filled 4 a item _ _ _ pool
              Hc Hitem Hslots Hb Hfree Hroom) as (_ & _ & Hjudged).
  rewrite Hg in Hjudged. exact (proj1 Hjudged).
Defined.

Lemma tile_positions {A} (ws extras tiles : list A) :
  tiles ≡ₚ ws ++ extras →
  ∃ btns, NoDup btns ∧ Forall2 (fun i c => tiles !! i = Some c) btns ws.
Proof.
  intros Hperm. symmetry in Hperm.
  apply Permutation_inj in Hperm as (_ & f & Hinj & Hf).
  exists (f <$> seq 0 (length ws)). split.
  - apply NoDup_fmap_2; [done|apply NoDup_seq].
  - apply Forall2_same_length_lookup_2.
    + by rewrite length_fmap, length_seq.
    + intros k i c Hi Hc. rewrite list_lookup_fmap in Hi.
      destruct (seq 0 (length ws) !! k) as [k'|] eqn:Hk; [|done].
      apply lookup_seq in Hk as [-> _]. injection Hi as <-.
      rewrite <- Hf. by rewrite lookup_app_l by (by eapply lookup_lt_Some).
Qed.

Lemma app_snoc_assoc (s : string) (c : ascii) (r : string) :
  (s +:+ String c "") +:+ r = s +:+ String c r.
Proof.
  induction s as [|d s IH]; [done|].
  change (String d ((s +:+ String c "") +:+ r) = String d (s +:+ String c r)).
  by rewrite IH.
Qed.

Lemma length_app_unsplit (s : string) (l : list ascii) :
  String.length (s +:+ JS.unsplit l) = String.length s + length l.
Proof.
  rewrite <- !length_split, split_app, length_app. f_equal.
  unfold JS.split, JS.unsplit. by rewrite list_ascii_of_string_of_list_ascii.
Qed.

(** Clicking free tiles that carry the letters still missing, in order,
    ends in a success. *)
Lemma tapAll_spells (btns : list nat) (rest : list ascii) (a : App)
    (item : GuessItem) (im : string) (slots : list string) (pool : list LetterBtn) :
  content a = GuessView im slots pool →
  guessPool !! (currentLevel a mod 5) = Some item →
  length slots = String.length (answer item) →
  answer item = currentGuess a +:+ JS.unsplit rest →
  rest ≠ [] →
  NoDup btns →
  Forall2 (fun i c => ∃ b, pool !! i = Some b ∧ letter b = c ∧ spent b = false)
    btns rest →
  feedback (tapAll btns a) = feedback a ++ [(Succeeded, answer item)] ∧
  score (tapAll btns a) = score a + 10.
Proof.
  revert rest a slots pool.
  induction btns as [|btn btns IH];
    intros rest a slots pool Hc Hitem Hslots Hans Hne Hnd Hall.
  { apply Forall2_nil_inv_l in Hall. done. }
  apply Forall2_cons_inv_l in Hall as (c & rest' & (b & Hb & Hl & Hfree) & Hall & ->).
  rename rest' into rest.
  apply NoDup_cons in Hnd as [Hnotin Hnd].
  assert (Hlen : String.length (answer item)
                 = String.length (currentGuess a) + S (length rest))
    by (rewrite Hans; apply length_app_unsplit).
  unfold tapAll. cbn [foldl].
  rewrite (letterClick_eq btn a item b im slots pool) by (done || lia).
  cbv zeta. rewrite Hl.
  change (JS.unsplit (c :: rest)) with (String c (JS.unsplit rest)) in Hans.
  rewrite <- app_snoc_assoc in Hans.
  destruct rest as [|c' rest].
  - apply Forall2_nil_inv_r in Hall as ->. cbn [foldl].
    rewrite decide_True by (cbn in Hlen; lia).
    change (JS.unsplit []) with "" in Hans.
    assert (Hright : currentGuess a +:+ String c "" = answer item).
    { rewrite Hans. clear. induction (currentGuess a +:+ String c "") as [|d s IH];
        [done|]. change (String d s = String d (s +:+ "")). by rewrite <- IH. }
    rewrite decide_True by done.
    match goal with |- context [successAction ?t ?b] =>
      destruct (successAction_facts t b)
        as (Hs & _ & _ & _ & _ & Hf & _) end.
    app_simpl. done.
  - rewrite decide_False by (cbn in Hlen; lia).
    match goal with |- context [foldl _ ?a1 btns] =>
      destruct (IH (c' :: rest) a1
                  (<[String.length (currentGuess a) := String c ""]> slots)
                  (alter (markUsed (String.length (currentGuess a))) btn pool))
        as [Hfb Hsc] end; try done.
    + by rewrite length_insert.
    + clear IH. revert Hnotin. clear -Hall.
      induction Hall as [|i d btns' rest' (b' & Hb' & Hl' & Hf') Hall' IH'];
        intros Hnotin; [done|].
      apply not_elem_of_cons in Hnotin as [Hne Hnotin].
      apply Forall2_cons. split; [|by apply IH'].
      exists b'. by rewrite list_lookup_alter_ne by done.
Qed.

(** X11. Every level of the word-guessing game can be won: among the tiles
    rendered there are distinct ones that spell the answer, and clicking
    them in order reports the success and adds 10 to the score. *)
Theorem guess_level_can_be_won (a : App) :
  ∃ item btns,
    guessPool !! (currentLevel a mod 5) = Some item ∧
    length btns = String.length (answer item) ∧
    NoDup btns ∧
    feedback (tapAll btns (renderGuessGame a))
      = feedback a ++ [(Succeeded, answer item)] ∧
    score (tapAll btns (renderGuessGame a)) = score a + 10.
Proof.
  destruct (renderGuessGame_tiles a)
    as (item & extras & tiles & k & Hitem & _ & _ & Htiles & ->).
  destruct (tile_positions _ _ _ Htiles) as (btns & Hnd & Hpos).
  exists item, btns. split; [done|].
  split; [by rewrite (Forall2_length _ _ _ Hpos), length_split|].
  split; [done|].
  assert (Hne : JS.split (answer item) ≠ []).
  { assert (Hall : Forall (fun it => JS.split (answer it) ≠ []) guessPool)
      by (repeat constructor; done).
    by apply (proj1 (Forall_lookup _ _) Hall _ _ Hitem). }
  match goal with |- context [tapAll btns ?s] =>
    destruct (tapAll_spells btns (JS.split (answer item)) s item (img item)
                (replicate (String.length (answer item)) "")
                (freshTile <$> tiles)) as [Hfb Hsc] end; try done.
  - by rewrite length_replicate.
  - app_simpl. unfold JS.split, JS.unsplit.
    by rewrite string_of_list_ascii_of_string.
  - eapply Forall2_impl; [exact Hpos|]. intros i c Hi.
    exists (freshTile c). by rewrite list_lookup_fmap, Hi.
Qed.

(** ** Further properties: the sentence builder *)

Lemma everyMatches_eq (constructed target : list string) :
  length constructed = length target →
  everyMatches constructed target = true ↔ constructed = target.
Proof.
  intros Hlen. unfold everyMatches. rewrite forallb_forall. split.
  - intros Hall. apply (list_eq_same_length _ _ (length target)); [done|done|].
    intros i x y _ Hx Hy.
    specialize (Hall (i, x)). cbn in Hall.
    rewrite bool_decide_eq_true in Hall.
    assert (target !! i = Some x); [|congruence].
    apply Hall, list_elem_of_In. by apply (elem_of_lookup_imap_2 pair).
  - intros -> [i w] Hin. apply bool_decide_eq_true.
    apply list_elem_of_In, elem_of_lookup_imap in Hin as (i' & y & [= -> ->] & Hy).
    done.
Qed.

Lemma imap_pair_fst {A} (l : list A) (g : nat → nat) :
  (imap (fun i x => (g i, x)) l).*1 = g <$> seq 0 (length l).
Proof.
  revert g. induction l as [|x l IH]; intros g; [done|].
  cbn [imap length seq fmap list_fmap fst]. f_equal.
  rewrite <- fmap_S_seq, <- list_fmap_compose. apply (IH (g ∘ S)).
Qed.

Lemma imap_pair_snd {A} (l : list A) (g : nat → nat) :
  (imap (fun i x => (g i, x)) l).*2 = l.
Proof.
  revert g. induction l as [|x l IH]; intros g; [done|].
  cbn [imap fmap list_fmap snd]. f_equal. apply (IH (g ∘ S)).
Qed.

Lemma find_chip (id : nat) (w : string) (chips : list (nat * string)) :
  NoDup chips.*1 →
  (id, w) ∈ chips →
  ∃ j, list_find (fun c => c.1 = id) chips = Some (j, (id, w)).
Proof.
  intros Hnd Hin.
  destruct (list_find (fun c => c.1 = id) chips) as [[j [id' w']]|] eqn:Hfind.
  - exists j. apply list_find_Some in Hfind as (Hj & Hid & _). cbn in Hid. subst id'.
    apply list_elem_of_lookup in Hin as [i Hi].
    assert (i = j); [|congruence].
    apply (NoDup_lookup _ _ _ id Hnd); by rewrite list_lookup_fmap, ?Hi, ?Hj.
  - apply list_find_None in Hfind.
    by apply (proj1 (Forall_forall _ _) Hfind) in Hin.
Qed.

Lemma filter_all {A} (P : A → Prop) `{∀ x, Decision (P x)} (l : list A) :
  Forall P l → filter P l = l.
Proof.
  induction 1 as [|x l Hx Hl IH]; [done|]. by rewrite filter_cons_True, IH.
Qed.

Lemma withoutChip_Permutation (chip : nat * string) (chips : list (nat * string)) :
  NoDup chips.*1 → chip ∈ chips → chips ≡ₚ chip :: withoutChip chip.1 chips.
Proof.
  unfold withoutChip. induction chips as [|c chips IH]; intros Hnd Hin.
  - by apply elem_of_nil in Hin.
  - cbn [fmap list_fmap] in Hnd. apply NoDup_cons in Hnd as [Hout Hnd].
    apply elem_of_cons in Hin as [->|Hin].
    + rewrite filter_cons_False by (by intros H; apply H).
      rewrite filter_all; [done|].
      apply Forall_forall. intros c' Hc' Heq. apply Hout.
      rewrite <- Heq. apply list_elem_of_fmap. by exists c'.
    + rewrite filter_cons_True.
      * rewrite (IH Hnd Hin) at 1. apply Permutation_swap.
      * intros Heq. apply Hout. rewrite Heq. apply list_elem_of_fmap. by exists chip.
Qed.

Lemma withoutChip_texts (chip : nat * string) (chips : list (nat * string)) :
  NoDup chips.*1 → NoDup chips.*2 → chip ∈ chips →
  filter (fun w => w ≠ chip.2) chips.*2 = (withoutChip chip.1 chips).*2.
Proof.
  unfold withoutChip. induction chips as [|c chips IH]; intros Hnd1 Hnd2 Hin; [done|].
  cbn [fmap list_fmap] in *.
  apply NoDup_cons in Hnd1 as [Hout1 Hnd1]. apply NoDup_cons in Hnd2 as [Hout2 Hnd2].
  apply elem_of_cons in Hin as [->|Hin].
  - rewrite !filter_cons_False by (by intros H; apply H).
    rewrite !filter_all; [done| |].
    + apply Forall_forall. intros c' Hc' Heq. apply Hout1.
      rewrite <- Heq. apply list_elem_of_fmap. by exists c'.
    + apply Forall_forall. intros w Hw ->. done.
  - rewrite !filter_cons_True.
    + cbn [fmap list_fmap]. f_equal. by apply IH.
    + intros Heq. apply Hout1. rewrite Heq. apply list_elem_of_fmap. by exists chip.
    + intros Heq. apply Hout2. rewrite Heq. apply list_elem_of_fmap. by exists chip.
Qed.

(** A click on a chip of the pool, written out. *)
Lemma moveWord_from_pool (id j : nat) (chip : nat * string) (a : App)
    (prompt : string) (target pool : list (nat * string)) :
  content a = SentenceView prompt target pool →
  list_find (fun c => c.1 = id) pool = Some (j, chip) →
  let built := constructedSentence a ++ [chip.2] in
  let a1 :=
    set_constructedSentence built
      (set_content (SentenceView prompt (target ++ [chip]) (withoutChip id pool)) a) in
  moveWord id a =
    if decide (length built = length (targetSentence a)) then
      if decide (built = targetSentence a)
      then successAction (JS.join " " (targetSentence a)) a1
      else setTimeout CbRenderLevel 2500 (failAction (JS.join " " (targetSentence a)) a1)
    else a1.
Proof.
  intros Hc Hfind built a1. unfold moveWord. rewrite Hc, Hfind. app_simpl.
  fold built. fold a1.
  destruct (decide (length built = length (targetSentence a))) as [Hlen|]; [|done].
  pose proof (everyMatches_eq built (targetSentence a) Hlen) as Hiff.
  destruct (decide (built = targetSentence a)) as [Heq|Hne].
  - by rewrite (proj2 Hiff Heq).
  - destruct (everyMatches built (targetSentence a)); [|done].
    by destruct Hne; apply Hiff.
Qed.

Lemma successAction_engine (t : string) (a : App) :
  content (successAction t a) = content a ∧
  constructedSentence (successAction t a) = constructedSentence a ∧
  targetSentence (successAction t a) = targetSentence a.
Proof. unfold successAction. app_simpl. by repeat case_match. Qed.

Lemma sentences_lookup (lvl : nat) :
  ∃ data, libraries.sentences !! (lvl mod 15) = Some data ∧ NoDup (s_words data).
Proof.
  assert (Hlookup : is_Some (libraries.sentences !! (lvl mod 15))).
  { apply lookup_lt_is_Some. change (length libraries.sentences) with 15.
    apply Nat.mod_upper_bound. lia. }
  destruct Hlookup as [data Hdata]. exists data. split; [done|].
  assert (Hall : Forall (fun d => NoDup (s_words d)) libraries.sentences)
    by compute_done.
  by apply (proj1 (Forall_lookup _ _) Hall _ _ Hdata).
Qed.

Lemma renderSentenceGame_view (a : App) :
  ∃ data shuffled k,
    libraries.sentences !! (currentLevel a mod 15) = Some data ∧
    NoDup (s_words data) ∧
    shuffled ≡ₚ s_words data ∧
    renderSentenceGame a =
      set_targetSentence (s_words data)
        (set_constructedSentence []
           (set_content (SentenceView (s_fa data) [] (imap pair shuffled))
              (set_drawn k a))).
Proof.
  destruct (sentences_lookup (currentLevel a)) as (data & Hdata & Hnd).
  unfold renderSentenceGame.
  change (length libraries.sentences) with 15. rewrite Hdata.
  pose proof (sortRandom_Permutation (s_words data) a) as Hperm.
  destruct (sortRandom_state (s_words data) a) as [k Hk].
  destruct (sortRandom _ _) as [shuffled a1]. cbn [fst snd] in Hperm, Hk. subst a1.
  by exists data, shuffled, k.
Qed.

Lemma sentenceInv_render (a : App) : sentenceInv (renderSentenceGame a).
Proof.
  destruct (renderSentenceGame_view a) as (data & shuffled & k & _ & Hnd & Hperm & ->).
  unfold sentenceInv. app_simpl. cbn [app].
  change (imap pair shuffled) with (imap (fun i x => (id i, x)) shuffled).
  rewrite (imap_pair_fst shuffled id), (imap_pair_snd shuffled id), list_fmap_id.
  split; [done|]. split; [apply NoDup_seq|]. split; [by rewrite Hperm|done].
Qed.

(** X12. The chips of the sentence builder are the words of the sentence of
    the level, in some order, each chip with a position of its own; no word
    occurs twice in a sentence of the corpus; the target area and the
    sentence built so far are empty. *)
Theorem sentence_chips_are_the_words (a : App) :
  ∃ data shuffled,
    libraries.sentences !! (currentLevel a mod 15) = Some data ∧
    shuffled ≡ₚ s_words data ∧
    NoDup (s_words data) ∧
    content (renderSentenceGame a) = SentenceView (s_fa data) [] (imap pair shuffled) ∧
    constructedSentence (renderSentenceGame a) = [] ∧
    targetSentence (renderSentenceGame a) = s_words data.
Proof.
  destruct (renderSentenceGame_view a) as (data & shuffled & k & Hdata & Hnd & Hperm & ->).
  exists data, shuffled. by app_simpl.
Qed.

(** X13. The sentence is judged when a chip brings the words built to the
    length of the target: success, showing the sentence, exactly when the
    words built are the words of the target in the same order, and otherwise
    a failure showing the sentence with a re-render after two and a half
    seconds.  A chip that leaves the sentence shorter reports nothing. *)
Theorem sentence_judged_on_exact_order (id j : nat) (chip : nat * string) (a : App)
    (prompt : string) (target pool : list (nat * string)) :
  content a = SentenceView prompt target pool →
  list_find (fun c => c.1 = id) pool = Some (j, chip) →
  let a' := moveWord id a in
  let built := constructedSentence a ++ [chip.2] in
  constructedSentence a' = built ∧
  content a' = SentenceView prompt (target ++ [chip]) (withoutChip id pool) ∧
  if decide (length built = length (targetSentence a)) then
    if decide (built = targetSentence a) then
      feedback a' = feedback a ++ [(Succeeded, JS.join " " (targetSentence a))] ∧
      score a' = score a + 10
    else
      feedback a' = feedback a ++ [(Failed, JS.join " " (targetSentence a))] ∧
      timeouts a' = timeouts a ++ [(CbRenderLevel, 2500)] ∧
      progress a' = progress a ∧ score a' = score a
  else
    feedback a' = feedback a ∧ timeouts a' = timeouts a ∧
    progress a' = progress a ∧ score a' = score a.
Proof.
  intros Hc Hfind a' built. subst a'.
  rewrite (moveWord_from_pool id j chip a prompt target pool Hc Hfind). cbv zeta.
  fold built.
  destruct (decide (length built = length (targetSentence a))) as [Hlen|]; [|done].
  destruct (decide (built = targetSentence a)) as [Heq|Hne]; [|done].
  match goal with |- context [successAction ?t ?b] =>
    destruct (successAction_facts t b) as (Hs & _ & _ & _ & _ & Hf & _);
    destruct (successAction_engine t b) as (Hcont & Hbuilt & _) end.
  app_simpl. done.
Qed.

Lemma judged_engine (b : App) :
  let b' :=
    if decide (length (constructedSentence b) = length (targetSentence b)) then
      if everyMatches (constructedSentence b) (targetSentence b)
      then successAction (JS.join " " (targetSentence b)) b
      else setTimeout CbRenderLevel 2500 (failAction (JS.join " " (targetSentence b)) b)
    else b in
  content b' = content b ∧ constructedSentence b' = constructedSentence b ∧
  targetSentence b' = targetSentence b.
Proof.
  cbv zeta. case_decide; [|done]. case_match; [|done].
  apply successAction_engine.
Qed.

Lemma sentenceInv_moveWord (id : nat) (a : App) :
  sentenceInv a → sentenceInv (moveWord id a).
Proof.
  unfold sentenceInv. intros Hinv. unfold moveWord.
  destruct (content a) as [| | |prompt target pool| | | |] eqn:Hc; try done.
  destruct Hinv as (Hbuilt & Hnd1 & Hnd2 & Hwords).
  match goal with |- context [decide (length (constructedSentence ?b) = _)] =>
    destruct (judged_engine b) as (-> & -> & ->) end.
  pose proof Hnd1 as Hnd1'. pose proof Hnd2 as Hnd2'.
  rewrite fmap_app in Hnd1'. rewrite fmap_app in Hnd2'.
  apply NoDup_app in Hnd1' as (Hnd1t & _ & Hnd1p).
  apply NoDup_app in Hnd2' as (Hnd2t & _ & Hnd2p).
  destruct (list_find (fun c => c.1 = id) pool) as [[j chip]|] eqn:Hpool.
  - app_simpl. apply list_find_Some in Hpool as (Hj & Hid & _).
    apply list_elem_of_lookup_2 in Hj. subst id.
    pose proof (withoutChip_Permutation chip pool Hnd1p Hj) as Hperm.
    split; [by rewrite Hbuilt, fmap_app|].
    assert (Hall : (target ++ [chip]) ++ withoutChip chip.1 pool ≡ₚ target ++ pool).
    { rewrite <- app_assoc. cbn [app]. by rewrite <- Hperm. }
    by rewrite Hall.
  - destruct (list_find (fun c => c.1 = id) target) as [[j chip]|] eqn:Htarget.
    + app_simpl. apply list_find_Some in Htarget as (Hj & Hid & _).
      apply list_elem_of_lookup_2 in Hj. subst id.
      pose proof (withoutChip_Permutation chip target Hnd1t Hj) as Hperm.
      split; [rewrite Hbuilt; by apply withoutChip_texts|].
      assert (Hall : withoutChip chip.1 target ++ pool ++ [chip] ≡ₚ target ++ pool).
      { rewrite Hperm at 2. rewrite (Permutation_app_comm pool). cbn [app].
        by rewrite Permutation_middle. }
      by rewrite Hall.
    + by rewrite Hc.
Qed.

(** X14. Whatever chips are clicked after the sentence game is rendered, in
    whatever order, the sentence built so far reads as the chips in the
    target area, and the chips on screen still carry the words of the
    sentence, each word once: moving a chip into the target appends its
    word, and taking a chip back removes exactly its word. *)
Theorem sentence_built_mirrors_target (a : App) (ids : list nat) :
  let a' := foldl (fun a id => moveWord id a) (renderSentenceGame a) ids in
  ∃ prompt target pool,
    content a' = SentenceView prompt target pool ∧
    constructedSentence a' = target.*2 ∧
    (target ++ pool).*2 ≡ₚ targetSentence a' ∧
    NoDup ((target ++ pool).*2) ∧
    targetSentence a' = targetSentence (renderSentenceGame a).
Proof.
  cbv zeta.
  assert (Hinv : sentenceInv
                   (foldl (fun a id => moveWord id a) (renderSentenceGame a) ids) ∧
                 targetSentence
                   (foldl (fun a id => moveWord id a) (renderSentenceGame a) ids)
                 = targetSentence (renderSentenceGame a)).
  { induction ids as [|id ids IH] using rev_ind; [split; [apply sentenceInv_render|done]|].
    rewrite foldl_app. cbn [foldl]. destruct IH as [IH1 IH2].
    split; [by apply sentenceInv_moveWord|].
    rewrite <- IH2. unfold moveWord.
    destruct (content _); try done.
    match goal with |- context [decide (length (constructedSentence ?b) = _)] =>
      destruct (judged_engine b) as (_ & _ & ->) end.
    by repeat case_match. }
  destruct Hinv as [Hinv Htarget]. unfold sentenceInv in Hinv.
  destruct (content _) as [| | |prompt target pool| | | |]; try done.
  destruct Hinv as (Hbuilt & _ & Hnd & Hwords).
  by exists prompt, target, pool.
Qed.

(** Clicking chips of the pool that carry the words still missing, in
    order, ends in a success. *)
Lemma moveAll_builds (ids : list nat) (rest : list string) (a : App)
    (prompt : string) (target pool : list (nat * string)) :
  content a = SentenceView prompt target pool →
  NoDup pool.*1 →
  targetSentence a = constructedSentence a ++ rest →
  rest ≠ [] →
  NoDup ids →
  Forall2 (fun id w => (id, w) ∈ pool) ids rest →
  feedback (foldl (fun a id => moveWord id a) a ids)
    = feedback a ++ [(Succeeded, JS.join " " (targetSentence a))] ∧
  score (foldl (fun a id => moveWord id a) a ids) = score a + 10.
Proof.
  revert rest a target pool.
  induction ids as [|id ids IH]; intros rest a target pool Hc Hpool Hwords Hne Hnd Hall.
  { apply Forall2_nil_inv_l in Hall. done. }
  apply Forall2_cons_inv_l in Hall as (w & rest' & Hin & Hall & ->).
  apply NoDup_cons in Hnd as [Hnotin Hnd].
  destruct (find_chip id w pool Hpool Hin) as [j Hfind].
  cbn [foldl]. rewrite (moveWord_from_pool id j (id, w) a prompt target pool Hc Hfind).
  cbv zeta. cbn [snd].
  destruct rest' as [|w' rest'].
  - apply Forall2_nil_inv_r in Hall as ->. cbn [foldl].
    rewrite decide_True by (by rewrite Hwords).
    rewrite decide_True by done.
    match goal with |- context [successAction ?t ?b] =>
      destruct (successAction_facts t b) as (Hs & _ & _ & _ & _ & Hf & _) end.
    app_simpl. done.
  - rewrite decide_False
      by (rewrite Hwords, !length_app; cbn [length]; lia).
    match goal with |- context [foldl _ ?a1 ids] =>
      destruct (IH (w' :: rest') a1 (target ++ [(id, w)]) (withoutChip id pool))
        as [Hfb Hsc] end; try done.
    + apply (sublist_NoDup _ pool.*1); [done|].
      apply fmap_sublist, sublist_filter.
    + app_simpl. by rewrite Hwords, <- app_assoc.
    + clear -Hall Hnotin. revert Hnotin.
      induction Hall as [|i d ids' rest'' Hi Hall' IH']; intros Hnotin; [done|].
      apply not_elem_of_cons in Hnotin as [Hne Hnotin].
      apply Forall2_cons. split; [|by apply IH'].
      apply list_elem_of_filter. split; [|done]. cbn. congruence.
Qed.

(** X15. Every level of the sentence builder can be won: clicking the chips
    in the order of the sentence, each chip once, reports the success with
    the full sentence and adds 10 to the score. *)
Theorem sentence_level_can_be_won (a : App) :
  ∃ data ids,
    libraries.sentences !! (currentLevel a mod 15) = Some data ∧
    length ids = length (s_words data) ∧
    NoDup ids ∧
    feedback (foldl (fun a id => moveWord id a) (renderSentenceGame a) ids)
      = feedback a ++ [(Succeeded, JS.join " " (s_words data))] ∧
    score (foldl (fun a id => moveWord id a) (renderSentenceGame a) ids)
      = score a + 10.
Proof.
  destruct (renderSentenceGame_view a) as (data & shuffled & k & Hdata & _ & Hperm & ->).
  assert (Hperm' : shuffled ≡ₚ s_words data ++ []) by (by rewrite app_nil_r).
  destruct (tile_positions _ _ _ Hperm') as (ids & Hnd & Hpos).
  exists data, ids. split; [done|].
  split; [by rewrite (Forall2_length _ _ _ Hpos)|]. split; [done|].
  assert (Hne : s_words data ≠ []).
  { assert (Hall : Forall (fun d => s_words d ≠ []) libraries.sentences)
      by (repeat constructor; done).
    by apply (proj1 (Forall_lookup _ _) Hall _ _ Hdata). }
  match goal with |- context [foldl _ ?s ids] =>
    destruct (moveAll_builds ids (s_words data) s (s_fa data) [] (imap pair shuffled))
      as [Hfb Hsc] end; try done.
  - change (imap pair shuffled) with (imap (fun i x => (id i, x)) shuffled).
    rewrite imap_pair_fst. apply NoDup_fmap_2; [apply _|apply NoDup_seq].
  - eapply Forall2_impl; [exact Hpos|]. intros i w Hi.
    by apply (elem_of_lookup_imap_2 pair).
Qed.

Lemma sentence_judged_on_exact_order_witness :
  let a := foldl (fun a id => moveWord id a)
             (renderSentenceGame (newApp NoItem (fun k => k))) [0; 2; 1] in
  feedback (moveWord 3 a) = feedback a ++ [(Succeeded, "I am a student")].
Proof.
  intros a.
  assert (Hc : content a = SentenceView "من یک دانش‌آموز هستم"
                             [(0, "I"); (2, "am"); (1, "a")] [(3, "student")])
    by (vm_compute; reflexivity).
  assert (Hfind : list_find (fun c : nat * string => c.1 = 3) [(3, "student")]
                  = Some (0, (3, "student"))) by reflexivity.
  assert (Hbuilt : constructedSentence a = ["I"; "am"; "a"]) by (vm_compute; reflexivity).
  assert (Htarget : targetSentence a = ["I"; "am"; "a"; "student"])
    by (vm_compute; reflexivity).
  destruct (sentence_judged_on_exact_order 3 0 (3, "student") a _ _ _ Hc Hfind)
    as (_ & _ & Hjudged).
  rewrite Hbuilt, Htarget in Hjudged. exact (proj1 Hjudged).
Defined.

(** ** Further properties: the grammar check *)

Lemma grammar_lookup (lvl : nat) :
  ∃ data,
    libraries.grammar !! (lvl mod 12) = Some data ∧
    wrongIdx data < length (words data) ∧
    correct data ∈ options data ∧
    words data !! wrongIdx data ≠ Some (correct data) ∧
    replaceFirst (default "undefined" (words data !! wrongIdx data)) (correct data)
      (JS.join " " (words data))
    = JS.join " " (<[wrongIdx data := correct data]> (words data)).
Proof.
  assert (Hlookup : is_Some (libraries.grammar !! (lvl mod 12))).
  { apply lookup_lt_is_Some. change (length libraries.grammar) with 12.
    apply Nat.mod_upper_bound. lia. }
  destruct Hlookup as [data Hdata]. exists data. split; [done|].
  assert (Hall : Forall (fun d =>
                   wrongIdx d < length (words d) ∧
                   correct d ∈ options d ∧
                   words d !! wrongIdx d ≠ Some (correct d) ∧
                   replaceFirst (default "undefined" (words d !! wrongIdx d)) (correct d)
                     (JS.join " " (words d))
                   = JS.join " " (<[wrongIdx d := correct d]> (words d)))
                 libraries.grammar) by compute_done.
  by apply (proj1 (Forall_lookup _ _) Hall _ _ Hdata).
Qed.

(** X16. The grammar check takes two steps.  Rendering shows the sentence
    of the level at step 1 without options.  At step 1 a click on a word
    other than the wrong one only reports a failure without text: the screen
    stays and no re-render is registered; a click on the wrong word moves to
    step 2 and shows the options of the item in some order, the correct form
    among them.  At step 2 the correct form reports success, showing the
    sentence with the wrong word replaced, and any other option reports a
    failure showing the correct form, with a re-render after two seconds. *)
Theorem grammar_two_steps (a : App) :
  let a1 := renderGrammarGame a in
  ∃ data,
    libraries.grammar !! (currentLevel a mod 12) = Some data ∧
    content a1 = GrammarView 1 (words data) [] ∧
    feedback a1 = feedback a ∧ timeouts a1 = timeouts a ∧ score a1 = score a ∧
    wrongIdx data < length (words data) ∧
    (∀ i, i < length (words data) → i ≠ wrongIdx data →
          gameClick (WordClick i) a1 = failAction "" a1) ∧
    let a2 := gameClick (WordClick (wrongIdx data)) a1 in
    ∃ opts,
      content a2 = GrammarView 2 (words data) opts ∧
      opts ≡ₚ options data ∧ correct data ∈ opts ∧
      feedback a2 = feedback a ∧ timeouts a2 = timeouts a ∧
      (∀ i, gameClick (WordClick i) a2 = a2) ∧
      ∀ j opt, opts !! j = Some opt →
        let a3 := gameClick (OptionClick j) a2 in
        if decide (opt = correct data) then
          feedback a3
            = feedback a ++ [(Succeeded,
                              JS.join " " (<[wrongIdx data := correct data]> (words data)))] ∧
          score a3 = score a + 10
        else
          feedback a3 = feedback a ++ [(Failed, correct data)] ∧
          timeouts a3 = timeouts a ++ [(CbRenderLevel, 2000)] ∧
          score a3 = score a ∧ progress a3 = progress a.
Proof.
  cbv zeta.
  destruct (grammar_lookup (currentLevel a)) as (data & Hdata & Hidx & Hin & _ & Hshown).
  exists data. split; [done|].
  assert (Hrender : renderGrammarGame a
                    = set_content (GrammarView 1 (words data) [])
                        (set_grammarStep 1 (set_currentGrammarData (Some data) a))).
  { unfold renderGrammarGame, updateGrammarUI.
    change (length libraries.grammar) with 12. rewrite Hdata. app_simpl.
    by rewrite decide_False by lia. }
  rewrite Hrender. clear Hrender.
  set (a1 := set_content _ _).
  repeat (split; [done|]). split.
  { intros i Hi Hne. unfold gameClick, a1. app_simpl. rewrite decide_True by done.
    unfold checkGrammarMistake. app_simpl.
    rewrite decide_False by (intros H; by apply H). by rewrite decide_False by done. }
  assert (Hclick : gameClick (WordClick (wrongIdx data)) a1
                   = updateGrammarUI (set_grammarStep 2 a1)).
  { unfold gameClick, a1. app_simpl. rewrite decide_True by done.
    unfold checkGrammarMistake. app_simpl.
    rewrite decide_False by (intros H; by apply H). by rewrite decide_True by done. }
  rewrite Hclick. unfold updateGrammarUI, a1. app_simpl. rewrite decide_True by done.
  pose proof (shuffleArray_Permutation (options data)
                (set_grammarStep 2 a1)) as Hperm.
  destruct (shuffleArray_state (options data) (set_grammarStep 2 a1)) as [k Hk].
  unfold a1 in Hperm, Hk.
  destruct (shuffleArray _ _) as [opts b]. cbn [fst snd] in Hperm, Hk. subst b.
  exists opts. app_simpl.
  split; [done|]. split; [done|]. split; [by rewrite Hperm|].
  split; [done|]. split; [done|]. split.
  { intros i. unfold gameClick. app_simpl. case_decide; [|done].
    unfold checkGrammarMistake. app_simpl. by rewrite decide_True by lia. }
  intros j opt Hj. unfold gameClick. app_simpl. rewrite Hj.
  unfold checkGrammarCorrection. app_simpl.
  rewrite (decide_False (P := 2 ≠ 2)) by (intros H; by apply H).
  destruct (decide (opt = correct data)) as [->|Hne]; [|by app_simpl].
  rewrite Hshown.
  match goal with |- context [successAction ?t ?b] =>
    destruct (successAction_facts t b) as (Hs & _ & _ & _ & _ & Hf & _) end.
  app_simpl. done.
Qed.

(** ** Further properties: numbers *)

Lemma numberToWords_below_1000 (n : nat) : n < 1000 → numberToWords n = below1000 n.
Proof.
  intros Hn. rewrite numberToWords_equation_1. unfold below1000, below100.
  pose proof (Nat.mod_upper_bound n 100 ltac:(lia)) as Hmod.
  repeat case_decide; try lia; try done.
  all: rewrite numberToWords_equation_1; repeat case_decide; try lia; done.
Qed.

Lemma wordsValue_below_1000 (n : nat) : n < 1000 → wordsValue (below1000 n) = n.
Proof.
  intros Hn.
  assert (H : forallb (fun n => wordsValue (below1000 n) =? n) (seq 0 1000) = true)
    by (vm_compute; reflexivity).
  rewrite forallb_forall in H. apply Nat.eqb_eq, H, in_seq. lia.
Qed.

Lemma numberToWords_below_1000_letters (n : nat) :
  n < 1000 → NilZero.uint_of_string (numberToWords n) = None.
Proof.
  intros Hn. rewrite numberToWords_below_1000 by done.
  assert (H : forallb (fun n => match NilZero.uint_of_string (below1000 n) with
                                | None => true
                                | Some _ => false
                                end) (seq 0 1000) = true)
    by (vm_compute; reflexivity).
  rewrite forallb_forall in H. specialize (H n).
  destruct (NilZero.uint_of_string (below1000 n)); [|done].
  discriminate H. apply in_seq. lia.
Qed.

Lemma numberToWords_inj (n m : nat) :
  JS.isSafeInteger n = true → JS.isSafeInteger m = true →
  numberToWords n = numberToWords m → n = m.
Proof.
  intros Hsn Hsm.
  assert (Hcross : ∀ i j, i < 1000 → 1000 ≤ j → JS.isSafeInteger j = true →
                          numberToWords i ≠ numberToWords j).
  { intros i j Hi Hj Hsj Heq.
    pose proof (numberToWords_below_1000_letters i Hi) as Hnone.
    pose proof (toString_digits j Hsj) as Hsome.
    rewrite Heq, (numberToWords_from_1000 j Hj) in Hnone. by rewrite Hnone in Hsome. }
  intros Heq.
  destruct (decide (n < 1000)) as [Hn|Hn], (decide (m < 1000)) as [Hm|Hm].
  - rewrite !numberToWords_below_1000 in Heq by done.
    rewrite <- (wordsValue_below_1000 n), <- (wordsValue_below_1000 m) by done.
    by rewrite Heq.
  - destruct (Hcross n m); (done || lia).
  - destruct (Hcross m n); (done || lia).
  - apply toString_inj; [done|done|].
    rewrite <- !numberToWords_from_1000 by lia. done.
Qed.

(** X17. On the safe integers (up to 2^53 - 1), where a number is its
    double, [numberToWords] never gives two numbers the same text, so the
    options of the number games are distinct exactly when the numbers behind
    them are; and the text of a number below 1000 never reads as a safe
    integer in digits. *)
Theorem numberToWords_injective (n m : nat) :
  JS.isSafeInteger n = true →
  JS.isSafeInteger m = true →
  numberToWords n = numberToWords m →
  n = m ∧
  (n < 1000 → ∀ k, JS.isSafeInteger k = true → numberToWords n ≠ JS.toString k).
Proof.
  intros Hsn Hsm Heq. split; [by apply numberToWords_inj|].
  intros Hn k Hsk Hk.
  pose proof (numberToWords_below_1000_letters n Hn) as Hnone.
  pose proof (toString_digits k Hsk) as Hsome.
  rewrite Hk in Hnone. by rewrite Hnone in Hsome.
Qed.

Lemma numberToWords_injective_witness :
  JS.isSafeInteger (20 + 22) = true ∧ JS.isSafeInteger 42 = true ∧
  numberToWords (20 + 22) = numberToWords 42 ∧ 20 + 22 = 42.
Proof.
  assert (Hn : JS.isSafeInteger (20 + 22) = true) by reflexivity.
  assert (Hm : JS.isSafeInteger 42 = true) by reflexivity.
  assert (Heq : numberToWords (20 + 22) = numberToWords 42) by reflexivity.
  split; [exact Hn|]. split; [exact Hm|]. split; [exact Heq|].
  exact (proj1 (numberToWords_injective (20 + 22) 42 Hn Hm Heq)).
Defined.

(** X18. The number-to-word game asks for a number below
    [min 300 (20 + level)], shown in digits.  Whenever the level is
    rendered, it offers four distinct texts, the text of the number asked
    for among them, each the text of a number below that bound plus ten; and
    the option that carries the right text is the one that wins.  Rendering
    returns exactly when the draws of the option loop give four distinct
    texts. *)
Theorem numToWord_options (fuel : nat) (a : App) :
  let range := Nat.min 300 (20 + currentLevel a) in
  let val := random a (drawn a) mod range in
  let a1 := set_drawn (S (drawn a)) a in
  val < range ∧
  (is_Some (renderNumToWordGame fuel a) ↔
   4 ≤ length (remove_dups
                 ([numberToWords val] ++ nextDraws (range + 10) numberToWords fuel a1))) ∧
  ∀ a', renderNumToWordGame fuel a = Some a' →
    ∃ opts,
      content a' = ChoiceView (JS.toString val) (VStr <$> opts) (VStr (numberToWords val)) ∧
      length opts = 4 ∧ NoDup opts ∧ numberToWords val ∈ opts ∧
      (∀ o, o ∈ opts → ∃ k, k < range + 10 ∧ o = numberToWords k) ∧
      ∀ i o, opts !! i = Some o →
        feedback (gameClick (OptionClick i) a')
        = feedback a ++ [(if decide (o = numberToWords val) then Succeeded else Failed,
                          numberToWords val)].
Proof.
  intros range val a1.
  assert (Hrange : 0 < range) by (subst range; lia).
  destruct (randomBelow_lt range a Hrange) as [Hlt Hstate].
  assert (Hval : (randomBelow range a).1 = val).
  { unfold randomBelow, val. by destruct range; [lia|]. }
  split; [subst val; apply Nat.mod_upper_bound; lia|].
  unfold renderNumToWordGame. fold range.
  destruct (randomBelow range a) as [v b]. cbn [fst snd] in Hval, Hstate, Hlt. subst v b.
  fold a1. split.
  - rewrite <- drawDistinct_exits_iff by apply NoDup_singleton.
    destruct (drawDistinct fuel _ _ _ a1) as [[opts b]|]; cbn [mbind option_bind].
    + destruct (shuffleArray opts b). split; intros _; by eexists.
    + split; intros [? ?]; done.
  - intros a'.
    destruct (drawDistinct fuel _ _ _ a1) as [[opts b]|] eqn:Hloop;
      cbn [mbind option_bind]; [|done].
    destruct (drawDistinct_state _ _ _ _ _ _ _ Hloop) as [k1 ->].
    destruct (shuffleArray_state opts (set_drawn k1 a1)) as [k2 Hk2].
    destruct (shuffleArray opts (set_drawn k1 a1)) as [sh b] eqn:Hsh.
    cbn [snd] in Hk2. subst b. intros [= <-].
    destruct (drawn_options fuel (range + 10) numberToWords (numberToWords val)
                opts sh a1 _ _ ltac:(lia) Hloop Hsh)
      as (Hlen & Hnd & Hin & Hfrom).
    exists sh. app_simpl. repeat (split; [done|]). split.
    + intros o Ho. destruct (Hfrom o Ho) as [->|Hk]; [|done].
      exists val. split; [lia|done].
    + intros i o Hi. unfold gameClick. app_simpl.
      rewrite list_lookup_fmap, Hi. cbn [fmap option_fmap option_map].
      unfold checkChoice. cbn [Val_toString].
      destruct (decide (o = numberToWords val)) as [->|Hne].
      * rewrite decide_True by done.
        match goal with |- context [successAction ?t ?b] =>
          destruct (successAction_facts t b) as (_ & _ & _ & _ & _ & Hf & _) end.
        by app_simpl.
      * rewrite decide_False by congruence. by app_simpl.
Qed.

(** X19. The word-to-number game asks for a number below
    [min 300 (20 + level)], shown in words.  Whenever the level is rendered,
    it offers four distinct numbers below that bound plus ten, the number
    asked for among them, and that number is the option that wins.
    Rendering returns exactly when the draws of the option loop give four
    distinct numbers. *)
Theorem wordToNum_options (fuel : nat) (a : App) :
  let range := Nat.min 300 (20 + currentLevel a) in
  let val := random a (drawn a) mod range in
  let a1 := set_drawn (S (drawn a)) a in
  val < range ∧
  (is_Some (renderWordToNumGame fuel a) ↔
   4 ≤ length (remove_dups ([val] ++ nextDraws (range + 10) id fuel a1))) ∧
  ∀ a', renderWordToNumGame fuel a = Some a' →
    ∃ opts,
      content a' = ChoiceView (numberToWords val) (VNum <$> opts) (VNum val) ∧
      length opts = 4 ∧ NoDup opts ∧ val ∈ opts ∧
      (∀ o, o ∈ opts → o < range + 10) ∧
      ∀ i o, opts !! i = Some o →
        feedback (gameClick (OptionClick i) a')
        = feedback a ++ [(if decide (o = val) then Succeeded else Failed,
                          JS.toString val)].
Proof.
  intros range val a1.
  assert (Hrange : 0 < range) by (subst range; lia).
  destruct (randomBelow_lt range a Hrange) as [Hlt Hstate].
  assert (Hval : (randomBelow range a).1 = val).
  { unfold randomBelow, val. by destruct range; [lia|]. }
  split; [subst val; apply Nat.mod_upper_bound; lia|].
  unfold renderWordToNumGame. fold range.
  destruct (randomBelow range a) as [v b]. cbn [fst snd] in Hval, Hstate, Hlt. subst v b.
  fold a1. split.
  - rewrite <- drawDistinct_exits_iff by apply NoDup_singleton.
    destruct (drawDistinct fuel _ _ _ a1) as [[opts b]|]; cbn [mbind option_bind].
    + destruct (shuffleArray opts b). split; intros _; by eexists.
    + split; intros [? ?]; done.
  - intros a'.
    destruct (drawDistinct fuel _ _ _ a1) as [[opts b]|] eqn:Hloop;
      cbn [mbind option_bind]; [|done].
    destruct (drawDistinct_state _ _ _ _ _ _ _ Hloop) as [k1 ->].
    destruct (shuffleArray_state opts (set_drawn k1 a1)) as [k2 Hk2].
    destruct (shuffleArray opts (set_drawn k1 a1)) as [sh b] eqn:Hsh.
    cbn [snd] in Hk2. subst b. intros [= <-].
    destruct (drawn_options fuel (range + 10) id val
                opts sh a1 _ _ ltac:(lia) Hloop Hsh)
      as (Hlen & Hnd & Hin & Hfrom).
    exists sh. app_simpl. repeat (split; [done|]). split.
    + intros o Ho. destruct (Hfrom o Ho) as [->|(k & Hk & ->)]; [lia|done].
    + intros i o Hi. unfold gameClick. app_simpl.
      rewrite list_lookup_fmap, Hi. cbn [fmap option_fmap option_map].
      unfold checkChoice. cbn [Val_toString].
      destruct (decide (o = val)) as [->|Hne].
      * rewrite decide_True by done.
        match goal with |- context [successAction ?t ?b] =>
          destruct (successAction_facts t b) as (_ & _ & _ & _ & _ & Hf & _) end.
        by app_simpl.
      * rewrite decide_False by congruence. by app_simpl.
Qed.

(** ** Further properties: days and months *)

Lemma renderSequencePlacementGame_view (list_ : list string) (title : string)
    (fuel : nat) (a a' : App) :
  renderSequencePlacementGame list_ title fuel a = Some a' →
  ∃ missing shuffled k,
    length missing = 4 ∧ NoDup missing ∧ StronglySorted le missing ∧
    Forall (fun i => i < length list_) missing ∧
    shuffled ≡ₚ (fun i => default "undefined" (list_ !! i)) <$> missing ∧
    a' = set_fullList list_
           (set_missingIndices missing
              (set_targetSequence
                 ((fun i => default "undefined" (list_ !! i)) <$> missing)
                 (set_content
                    (SequenceView title
                       (imap (fun idx item =>
                                if decide (idx ∈ missing) then SlotCell idx ""
                                else FixedCell item) list_)
                       ((fun w => {| poolText := w; hidden := false |}) <$> shuffled))
                    (set_drawn k a)))).
Proof.
  unfold renderSequencePlacementGame.
  destruct (drawDistinct fuel (length list_) id [] a) as [[picked a1]|] eqn:Hloop;
    cbn [mbind option_bind]; [|done].
  destruct (drawDistinct_state _ _ _ _ _ _ _ Hloop) as [k1 ->].
  pose proof (sortRandom_Permutation
                ((fun i => default "undefined" (list_ !! i))
                   <$> merge_sort Nat.le picked) (set_drawn k1 a)) as Hperm.
  destruct (sortRandom_state
              ((fun i => default "undefined" (list_ !! i))
                 <$> merge_sort Nat.le picked) (set_drawn k1 a)) as [k2 Hk2].
  destruct (sortRandom _ _) as [shuffled a2]. cbn [fst snd] in Hperm, Hk2. subst a2.
  intros [= <-].
  apply drawDistinct_result in Hloop as (Hnd & Hlen & _ & Hfrom);
    [|apply NoDup_nil_2|cbn; lia].
  assert (Hpos : 0 < length list_).
  { destruct (length list_) as [|n] eqn:Hn; [|lia].
    assert (Hsub : picked ⊆+ [0]).
    { apply NoDup_submseteq; [done|]. intros x Hx.
      destruct (Hfrom x Hx) as [Hin|Hin]; [by apply elem_of_nil in Hin|].
      unfold nextDraws in Hin. apply list_elem_of_fmap in Hin as (j & -> & _).
      apply list_elem_of_here. }
    apply submseteq_length in Hsub. cbn in Hsub. lia. }
  exists (merge_sort Nat.le picked), shuffled, k2.
  pose proof (merge_sort_Permutation Nat.le picked) as Hsorted.
  split; [by rewrite Hsorted|]. split; [by rewrite Hsorted|].
  split; [apply (StronglySorted_merge_sort Nat.le); apply _|].
  split; [|done].
  rewrite Hsorted. apply Forall_forall. intros x Hx.
  destruct (Hfrom x Hx) as [Hin|Hin]; [by apply elem_of_nil in Hin|].
  unfold nextDraws in Hin. apply list_elem_of_fmap in Hin as (j & -> & _).
  unfold drawnAt. destruct (length list_); [lia|]. apply Nat.mod_upper_bound. lia.
Qed.

(** X20. Whenever a level of the days or months game is rendered, four
    different positions of the list are open slots, in increasing order; the
    other positions show their entry; the pool holds the four missing
    entries, in some order, all visible; and the state remembers the list
    and the missing entries. *)
Theorem sequence_render_four_gaps (list_ : list string) (title : string)
    (fuel : nat) (a a' : App) :
  renderSequencePlacementGame list_ title fuel a = Some a' →
  ∃ missing cells pool,
    content a' = SequenceView title cells pool ∧
    length missing = 4 ∧ NoDup missing ∧ StronglySorted lt missing ∧
    Forall (fun i => i < length list_) missing ∧
    boardAt list_ [] missing cells ∧
    poolText <$> pool ≡ₚ (fun i => default "undefined" (list_ !! i)) <$> missing ∧
    Forall (fun b => hidden b = false) pool ∧
    fullList a' = list_ ∧ missingIndices a' = missing ∧
    targetSequence a' = (fun i => default "undefined" (list_ !! i)) <$> missing.
Proof.
  intros Hrender.
  apply renderSequencePlacementGame_view in Hrender
    as (missing & shuffled & k & Hlen & Hnd & Hsorted & Hlt & Hperm & ->).
  eexists missing, _, _. app_simpl. split; [reflexivity|].
  split; [done|]. split; [done|]. split.
  { clear -Hnd Hsorted. induction Hsorted as [|x l Hl IH Hx]; [constructor|].
    apply NoDup_cons in Hnd as [Hout Hnd]. constructor; [by apply IH|].
    apply Forall_forall. intros y Hy.
    pose proof (proj1 (Forall_forall _ _) Hx y Hy).
    assert (x ≠ y) by (by intros ->). lia. }
  split; [done|]. split.
  { split; [by rewrite length_imap|]. intros i item Hi.
    rewrite list_lookup_imap, Hi. cbn. unfold cellAt.
    rewrite (decide_False (P := i ∈ [])) by apply not_elem_of_nil. done. }
  split.
  { rewrite <- list_fmap_compose, <- Hperm.
    assert (Hid : poolText ∘ (fun w => {| poolText := w; hidden := false |}) <$> shuffled
                  = shuffled); [|by rewrite Hid].
    clear. induction shuffled as [|w l IH]; [done|]. cbn. by rewrite IH. }
  split; [|done].
  apply Forall_fmap, Forall_forall. done.
Qed.

Lemma sequence_render_four_gaps_witness :
  ∃ a' missing cells pool,
    renderSequencePlacementGame days "" 4 (newApp NoItem (fun k => k)) = Some a' ∧
    content a' = SequenceView "" cells pool ∧
    length missing = 4 ∧ missingIndices a' = missing.
Proof.
  destruct (renderSequencePlacementGame days "" 4 (newApp NoItem (fun k => k)))
    as [a'|] eqn:Hrender; [|vm_compute in Hrender; discriminate Hrender].
  destruct (sequence_render_four_gaps days "" 4 _ a' Hrender)
    as (missing & cells & pool & Hc & Hlen & _ & _ & _ & _ & _ & _ & _ & Hm & _).
  exists a', missing, cells, pool.
  split; [reflexivity|]. split; [exact Hc|]. split; [exact Hlen|exact Hm].
Defined.

Lemma fillFirstEmpty_first (t : string) (cells : list Cell) (p idx : nat) :
  cells !! p = Some (SlotCell idx "") →
  (∀ j c, j < p → cells !! j = Some c → slotFilled c = true) →
  fillFirstEmpty t cells = Some (<[p := SlotCell idx t]> cells).
Proof.
  revert p. induction cells as [|c cells IH]; intros p Hp Hbefore; [done|].
  destruct p as [|p].
  - injection Hp as ->. done.
  - assert (Hc : slotFilled c = true) by (apply (Hbefore 0); [lia|done]).
    assert (Hrest : fillFirstEmpty t (c :: cells) = (c ::.) <$> fillFirstEmpty t cells).
    { by destruct c as [item|i [|ch s]]. }
    rewrite Hrest, (IH p Hp); [done|].
    intros j c' Hj Hc'. apply (Hbefore (S j)); [lia|done].
Qed.

Lemma showFirstHidden_insert (btn : nat) (b : PoolBtn) (pool : list PoolBtn) :
  NoDup (poolText <$> pool) →
  pool !! btn = Some b →
  hidden b = false →
  showFirstHidden (poolText b)
    (<[btn := {| poolText := poolText b; hidden := true |}]> pool) = pool.
Proof.
  revert btn. induction pool as [|c pool IH]; intros btn Hnd Hb Hvis; [done|].
  cbn [fmap list_fmap] in Hnd. apply NoDup_cons in Hnd as [Hout Hnd].
  destruct btn as [|btn].
  - injection Hb as ->. cbn. rewrite decide_True by done.
    destruct b. cbn in *. by subst.
  - cbn [insert list_insert showFirstHidden]. rewrite decide_False.
    + f_equal. by apply IH.
    + intros [Heq _]. apply Hout. rewrite Heq.
      apply list_elem_of_fmap. exists b. split; [done|].
      by eapply list_elem_of_lookup_2.
Qed.

Lemma checkSequenceStatus_content (a : App) :
  content (checkSequenceStatus a) = content a.
Proof.
  unfold checkSequenceStatus. destruct (content a) eqn:Hc; try done.
  repeat case_match; try done.
  destruct (successAction_facts "" a) as (_ & _ & _ & _ & _ & _ & _ & _ & _ & _ & _ & _ & ->).
  done.
Qed.

(** X21. In the days and months games a click on a visible pool button
    puts its text into the first empty slot and hides the button; a click
    on that slot then empties it and shows the button again: the board and
    the pool are as before. *)
Theorem placed_entry_can_be_taken_back
    (btn p idx : nat) (b : PoolBtn) (a : App)
    (title : string) (cells : list Cell) (pool : list PoolBtn) :
  content a = SequenceView title cells pool →
  NoDup (poolText <$> pool) →
  pool !! btn = Some b →
  hidden b = false →
  poolText b ≠ "" →
  cells !! p = Some (SlotCell idx "") →
  (∀ j c, j < p → cells !! j = Some c → slotFilled c = true) →
  let a1 := gameClick (PoolClick btn) a in
  content a1 = SequenceView title (<[p := SlotCell idx (poolText b)]> cells)
                 (<[btn := {| poolText := poolText b; hidden := true |}]> pool) ∧
  gameClick (PoolClick btn) a1 = a1 ∧
  content (gameClick (SlotClick p) a1) = content a.
Proof.
  intros Hc Hnd Hb Hvis Htext Hp Hbefore a1.
  assert (Hcontent : content a1
            = SequenceView title (<[p := SlotCell idx (poolText b)]> cells)
                (<[btn := {| poolText := poolText b; hidden := true |}]> pool)).
  { unfold a1, gameClick. rewrite Hc, Hb, Hvis. unfold placeInSlot. rewrite Hc, Hb.
    rewrite (fillFirstEmpty_first _ _ p idx) by done.
    by rewrite checkSequenceStatus_content. }
  assert (Hplen : p < length cells) by (by eapply lookup_lt_Some).
  assert (Hblen : btn < length pool) by (by eapply lookup_lt_Some).
  split; [done|]. split.
  - unfold gameClick. rewrite Hcontent.
    by rewrite list_lookup_insert_eq by done.
  - unfold gameClick. rewrite Hcontent. unfold removeFromSlot. rewrite Hcontent.
    rewrite list_lookup_insert_eq by done.
    rewrite decide_False by done. app_simpl.
    rewrite showFirstHidden_insert by done.
    rewrite list_insert_insert_eq, list_insert_id by done. by rewrite Hc.
Qed.

Lemma placed_entry_can_be_taken_back_witness :
  let a := default (newApp NoItem (fun k => k))
             (renderLevel 4 (set_currentGame (Some DAYS) (newApp NoItem (fun k => k)))) in
  content (gameClick (SlotClick 0) (gameClick (PoolClick 1) a)) = content a.
Proof.
  intros a.
  set (cells := [SlotCell 0 ""; SlotCell 1 ""; SlotCell 2 ""; SlotCell 3 "";
                 FixedCell "Friday"; FixedCell "Saturday"; FixedCell "Sunday"]).
  set (pool := (fun w => {| poolText := w; hidden := false |})
                 <$> ["Monday"; "Thursday"; "Tuesday"; "Wednesday"]).
  assert (Hc : content a = SequenceView "جاهای خالی روزهای هفته را پر کنید:" cells pool)
    by (vm_compute; reflexivity).
  assert (Hnd : NoDup (poolText <$> pool)) by compute_done.
  assert (Hb : pool !! 1 = Some {| poolText := "Thursday"; hidden := false |})
    by reflexivity.
  assert (Htext : poolText {| poolText := "Thursday"; hidden := false |} ≠ "")
    by discriminate.
  assert (Hp : cells !! 0 = Some (SlotCell 0 "")) by reflexivity.
  assert (Hbefore : ∀ j c, j < 0 → cells !! j = Some c → slotFilled c = true)
    by (intros j c Hj; lia).
  exact (proj2 (proj2 (placed_entry_can_be_taken_back 1 0 0 _ a _ cells pool
                         Hc Hnd Hb eq_refl Htext Hp Hbefore))).
Defined.

Lemma boardAt_first_empty (full : list string) (filled todo : list nat) (m : nat)
    (cells : list Cell) :
  Forall (fun s => s ≠ "") full →
  boardAt full filled (m :: todo) cells →
  Forall (lt m) todo → m ∉ filled → m < length full →
  cells !! m = Some (SlotCell m "") ∧
  ∀ j c, j < m → cells !! j = Some c → slotFilled c = true.
Proof.
  intros Hfull [Hlen Hcells] Hm Hout Hlt.
  destruct (lookup_lt_is_Some_2 full m Hlt) as [item Hitem]. split.
  - rewrite (Hcells m item Hitem). unfold cellAt.
    rewrite decide_False by done. by rewrite decide_True by apply list_elem_of_here.
  - intros j c Hj Hc.
    destruct (lookup_lt_is_Some_2 full j ltac:(lia)) as [itemj Hitemj].
    rewrite (Hcells j itemj Hitemj) in Hc. injection Hc as <-. unfold cellAt.
    case_decide.
    + cbn. apply bool_decide_eq_true.
      by apply (proj1 (Forall_lookup _ _) Hfull j).
    + rewrite decide_False; [done|].
      intros [->|Hin]%elem_of_cons; [lia|].
      pose proof (proj1 (Forall_forall _ _) Hm j Hin). lia.
Qed.

Lemma boardAt_fill (full : list string) (filled todo : list nat) (m : nat)
    (item : string) (cells : list Cell) :
  boardAt full filled (m :: todo) cells →
  full !! m = Some item →
  m ∉ todo →
  boardAt full (filled ++ [m]) todo (<[m := SlotCell m item]> cells).
Proof.
  intros [Hlen Hcells] Hitem Hout. split; [by rewrite length_insert|].
  intros i itemi Hi. destruct (decide (i = m)) as [->|Hne].
  - rewrite list_lookup_insert_eq
      by (rewrite Hlen; by eapply lookup_lt_Some).
    unfold cellAt. rewrite decide_True by set_solver. congruence.
  - rewrite list_lookup_insert_ne by done. rewrite (Hcells i itemi Hi).
    unfold cellAt. f_equal.
    destruct (decide (i ∈ filled)) as [Hin|Hnin].
    + by rewrite decide_True by set_solver.
    + rewrite (decide_False (P := i ∈ filled ++ [m])) by set_solver.
      destruct (decide (i ∈ todo)) as [Hin'|Hnin'].
      * by rewrite decide_True by set_solver.
      * by rewrite decide_False by set_solver.
Qed.

Lemma boardAt_full (full : list string) (filled : list nat) (cells : list Cell) :
  Forall (fun s => s ≠ "") full →
  boardAt full filled [] cells →
  forallb slotFilled cells = true ∧ forallb (slotRight full) cells = true.
Proof.
  intros Hfull [Hlen Hcells].
  assert (Hall : ∀ c, In c cells → slotFilled c = true ∧ slotRight full c = true).
  { intros c Hc. apply list_elem_of_In, list_elem_of_lookup in Hc as [i Hi].
    assert (Hlt : i < length full) by (rewrite <- Hlen; by eapply lookup_lt_Some).
    destruct (lookup_lt_is_Some_2 full i Hlt) as [item Hitem].
    rewrite (Hcells i item Hitem) in Hi. injection Hi as <-. unfold cellAt.
    case_decide; [|by rewrite decide_False by apply not_elem_of_nil].
    cbn. split; apply bool_decide_eq_true; [|done].
    by apply (proj1 (Forall_lookup _ _) Hfull i). }
  split; apply forallb_forall; intros c Hc; by apply Hall.
Qed.

(** Clicking visible pool buttons that carry the entries of the empty
    slots, in the order of the slots, ends in a success. *)
Lemma placeAll_wins (full : list string) (btns todo filled : list nat) (a : App)
    (title : string) (cells : list Cell) (pool : list PoolBtn) :
  content a = SequenceView title cells pool →
  fullList a = full →
  Forall (fun s => s ≠ "") full →
  boardAt full filled todo cells →
  StronglySorted lt todo →
  (∀ i, i ∈ todo → i ∉ filled) →
  Forall (fun i => i < length full) todo →
  todo ≠ [] →
  NoDup btns →
  Forall2 (fun btn m => ∃ b, pool !! btn = Some b ∧ hidden b = false ∧
                             full !! m = Some (poolText b)) btns todo →
  feedback (foldl (fun a btn => gameClick (PoolClick btn) a) a btns)
    = feedback a ++ [(Succeeded, "")] ∧
  score (foldl (fun a btn => gameClick (PoolClick btn) a) a btns) = score a + 10.
Proof.
  intros Hc Hfl Hfull Hboard Hsorted Hdisj Hlt Hne Hnd Hall.
  revert todo filled a cells pool Hc Hfl Hboard Hsorted Hdisj Hlt Hne Hnd Hall.
  induction btns as [|btn btns IH];
    intros todo filled a cells pool Hc Hfl Hboard Hsorted Hdisj Hlt Hne Hnd Hall.
  { apply Forall2_nil_inv_l in Hall. done. }
  apply Forall2_cons_inv_l in Hall as (m & todo' & (b & Hb & Hvis & Hitem) & Hall & ->).
  apply NoDup_cons in Hnd as [Hnotin Hnd].
  apply StronglySorted_inv in Hsorted as [Hsorted Hm].
  apply Forall_cons in Hlt as [Hmlt Hlt].
  assert (Hmout : m ∉ filled) by (apply Hdisj, list_elem_of_here).
  assert (Hmtodo : m ∉ todo').
  { intros Hin. pose proof (proj1 (Forall_forall _ _) Hm m Hin). lia. }
  destruct (boardAt_first_empty full filled todo' m cells Hfull Hboard Hm Hmout Hmlt)
    as [Hslot Hbefore].
  pose proof (boardAt_fill full filled todo' m (poolText b) cells Hboard Hitem Hmtodo)
    as Hboard'.
  cbn [foldl].
  assert (Hclick : gameClick (PoolClick btn) a
            = checkSequenceStatus
                (set_content
                   (SequenceView title (<[m := SlotCell m (poolText b)]> cells)
                      (<[btn := {| poolText := poolText b; hidden := true |}]> pool)) a)).
  { unfold gameClick. rewrite Hc, Hb, Hvis. unfold placeInSlot. rewrite Hc, Hb.
    by rewrite (fillFirstEmpty_first _ _ m m). }
  rewrite Hclick. unfold checkSequenceStatus. app_simpl. rewrite Hfl.
  destruct todo' as [|m' todo'].
  - apply Forall2_nil_inv_r in Hall as ->. cbn [foldl].
    destruct (boardAt_full full (filled ++ [m]) _ Hfull Hboard') as [-> ->].
    match goal with |- context [successAction ?t ?b] =>
      destruct (successAction_facts t b) as (Hs & _ & _ & _ & _ & Hf & _) end.
    by app_simpl.
  - assert (Hopen : forallb slotFilled (<[m := SlotCell m (poolText b)]> cells) = false).
    { apply not_true_is_false. intros Hfilled. rewrite forallb_forall in Hfilled.
      apply Forall_cons in Hlt as [Hm'lt _].
      destruct (lookup_lt_is_Some_2 full m' Hm'lt) as [item' Hitem'].
      pose proof (proj2 Hboard' m' item' Hitem') as Hcell. unfold cellAt in Hcell.
      rewrite decide_False in Hcell.
      + rewrite decide_True in Hcell by apply list_elem_of_here.
        apply list_elem_of_lookup_2, list_elem_of_In, Hfilled in Hcell. done.
      + intros [Hin|Hin]%elem_of_app.
        * apply (Hdisj m'); [set_solver|done].
        * apply list_elem_of_singleton in Hin. subst m'.
          apply Hmtodo, list_elem_of_here. }
    rewrite Hopen.
    match goal with |- context [foldl _ ?a1 btns] =>
      destruct (IH (m' :: todo') (filled ++ [m]) a1
                  (<[m := SlotCell m (poolText b)]> cells)
                  (<[btn := {| poolText := poolText b; hidden := true |}]> pool))
        as [Hfb Hsc] end; try done.
    + intros i Hi [Hin|Hin]%elem_of_app.
      * apply (Hdisj i); [by apply list_elem_of_further|done].
      * apply list_elem_of_singleton in Hin. by subst i.
    + clear -Hall Hnotin. revert Hnotin.
      induction Hall as [|i d btns' rest (b' & Hb' & Hv' & Hi') Hall' IH'];
        intros Hnotin; [done|].
      apply not_elem_of_cons in Hnotin as [Hne Hnotin].
      apply Forall2_cons. split; [|by apply IH'].
      exists b'. by rewrite list_lookup_insert_ne by done.
Qed.

(** X22. Every level of the days and months games can be won, whichever
    four entries were taken out: clicking the four pool buttons in the order
    of the list fills the slots from first to last with their own entries,
    and the fourth click reports the success and adds 10 to the score. *)
Theorem sequence_level_can_be_won (g : GameType) (fuel : nat) (a a' : App) :
  g = DAYS ∨ g = MONTHS →
  currentGame a = Some g →
  renderLevel fuel a = Some a' →
  ∃ btns,
    length btns = 4 ∧ NoDup btns ∧
    feedback (foldl (fun a btn => gameClick (PoolClick btn) a) a' btns)
      = feedback a ++ [(Succeeded, "")] ∧
    score (foldl (fun a btn => gameClick (PoolClick btn) a) a' btns) = score a + 10.
Proof.
  intros Hg Hgame Hrender.
  set (full := if decide (g = DAYS) then days else months).
  assert (Hfull : Forall (fun s => s ≠ "") full).
  { unfold full. case_decide; compute_done. }
  assert (Hseq : ∃ title, renderSequencePlacementGame full title fuel
                            (set_content Blank a) = Some a').
  { unfold renderLevel in Hrender. cbv zeta in Hrender. app_simpl.
    rewrite Hgame in Hrender. unfold full.
    destruct Hg as [-> | ->]; [rewrite decide_True by done|rewrite decide_False by done];
      by eexists. }
  destruct Hseq as [title Hseq].
  apply renderSequencePlacementGame_view in Hseq
    as (missing & shuffled & k & Hlen & Hnd & Hsorted & Hlt & Hperm & ->).
  assert (Hperm' : shuffled ≡ₚ ((fun i => default "undefined" (full !! i)) <$> missing) ++ [])
    by (by rewrite app_nil_r).
  destruct (tile_positions _ _ _ Hperm') as (btns & Hbnd & Hpos).
  exists btns. split; [by rewrite (Forall2_length _ _ _ Hpos), length_fmap|].
  split; [done|].
  match goal with |- context [foldl _ ?s btns] =>
    destruct (placeAll_wins full btns missing [] s title
                (imap (fun idx item =>
                         if decide (idx ∈ missing) then SlotCell idx ""
                         else FixedCell item) full)
                ((fun w => {| poolText := w; hidden := false |}) <$> shuffled))
      as [Hfb Hsc] end; try done.
  - split; [by rewrite length_imap|]. intros i item Hi.
    rewrite list_lookup_imap, Hi. cbn. unfold cellAt.
    by rewrite (decide_False (P := i ∈ [])) by apply not_elem_of_nil.
  - clear -Hnd Hsorted. induction Hsorted as [|x l Hl IH Hx]; [constructor|].
    apply NoDup_cons in Hnd as [Hout Hnd]. constructor; [by apply IH|].
    apply Forall_forall. intros y Hy.
    pose proof (proj1 (Forall_forall _ _) Hx y Hy).
    assert (x ≠ y) by (by intros ->). lia.
  - intros i _. apply not_elem_of_nil.
  - intros ->. done.
  - apply Forall2_fmap_r in Hpos. clear -Hpos Hlt.
    induction Hpos as [|btn m btns' ms Hbtn Hrest IH]; [constructor|].
    apply Forall_cons in Hlt as [Hm Hlt]. constructor; [|by apply IH].
    destruct (lookup_lt_is_Some_2 full m Hm) as [item Hitem].
    exists {| poolText := item; hidden := false |}.
    rewrite list_lookup_fmap, Hbtn, Hitem. done.
Qed.

Lemma sequence_level_can_be_won_witness :
  let a := set_currentGame (Some DAYS) (newApp NoItem (fun k => k)) in
  ∃ a' btns,
    renderLevel 4 a = Some a' ∧ length btns = 4 ∧
    feedback (foldl (fun a btn => gameClick (PoolClick btn) a) a' btns)
      = feedback a ++ [(Succeeded, "")].
Proof.
  intros a.
  destruct (renderLevel 4 a) as [a'|] eqn:Hrender;
    [|vm_compute in Hrender; discriminate Hrender].
  destruct (sequence_level_can_be_won DAYS 4 a a' (or_introl eq_refl) eq_refl Hrender)
    as (btns & Hlen & _ & Hfb & _).
  exists a', btns. split; [reflexivity|]. split; [exact Hlen|exact Hfb].
Defined.

(** ** Further properties: rendering and the way to a medal *)

(** X23. Rendering a level only draws the screen: it changes neither the
    score, nor the level, nor the game, nor the progress map, nor the stored
    document, and it reports nothing and registers no timeout.  The games
    whose rendering has no option loop (word guessing, sentence builder,
    grammar check, hangman, colors) are rendered whatever the random draws
    are. *)
Theorem rendering_changes_no_progress (fuel : nat) (a : App) :
  (∀ a', renderLevel fuel a = Some a' →
     score a' = score a ∧ currentLevel a' = currentLevel a ∧
     currentGame a' = currentGame a ∧ maxLevels a' = maxLevels a ∧
     progress a' = progress a ∧ localStorage a' = localStorage a ∧
     feedback a' = feedback a ∧ timeouts a' = timeouts a) ∧
  (currentGame a ∈ [None; Some GUESS; Some SENTENCE; Some GRAMMAR; Some HANGMAN;
                    Some COLORS] →
   is_Some (renderLevel fuel a)).
Proof.
  split.
  - intros a' Hrender. apply renderLevel_frame in Hrender.
    by injection Hrender as -> -> -> -> -> -> -> -> _ _ _.
  - intros Hg. unfold renderLevel. cbv zeta. app_simpl.
    repeat (apply elem_of_cons in Hg as [->|Hg]; [by eexists|]).
    by apply elem_of_nil in Hg.
Qed.

(** X24. The way to a medal.  In a session that starts at level 0 with
    [maxLevels] at 200, [n] successes in a row, each followed by the
    [nextLevel] it registers, leave the session and the record at level [n]
    with 10 points for each, as long as [n] is below 200; the 200th success
    completes the record: one medal more, [completed] set, level back
    to 0. *)
Theorem two_hundred_successes_earn_a_medal
    (text : string) (fuel : nat) (a : App) (g : GameType) :
  let key := GAME_TYPES g in
  let r := default freshRecord (progress a !! key) in
  currentGame a = Some g →
  maxLevels a = 200 →
  level r = 0 →
  currentLevel a = 0 →
  (∀ n a', n < 200 → succeedN n text fuel a = Some a' →
     currentLevel a' = n ∧ score a' = score a + 10 * n ∧
     default freshRecord (progress a' !! key) = with_level n r) ∧
  (∀ a', succeedN 200 text fuel a = Some a' →
     progress a' !! key
     = Some {| level := 0; medals := medals r + 1; completed := true |}).
Proof.
  intros key r Hg Hmax Hl0 Hc0. split.
  - intros n a' Hn Hrun.
    destruct (succeedN_below_max n text fuel a a' g Hg Hmax) as (_ & _ & H3 & H4 & H5);
      try done; try (fold key r; lia).
    fold key r in H5. rewrite Hc0 in H3, H5. done.
  - intros a' Hrun. by apply (after_maxLevels_successes text fuel a a' g).
Qed.

Lemma two_hundred_successes_earn_a_medal_witness :
  let a := default (newApp NoItem (fun k => k))
             (run 0 [MenuClick HANGMAN] (newApp NoItem (fun k => k))) in
  ∃ a', succeedN 200 "" 0 a = Some a' ∧
        progress a' !! "hangman" = Some {| level := 0; medals := 1; completed := true |}.
Proof.
  intros a.
  assert (Hg : currentGame a = Some HANGMAN) by (vm_compute; reflexivity).
  assert (Hmax : maxLevels a = 200) by (vm_compute; reflexivity).
  assert (Hl0 : level (default freshRecord (progress a !! GAME_TYPES HANGMAN)) = 0)
    by (vm_compute; reflexivity).
  assert (Hc0 : currentLevel a = 0) by (vm_compute; reflexivity).
  destruct (succeedN 200 "" 0 a) as [a'|] eqn:Hrun;
    [|vm_compute in Hrun; discriminate Hrun].
  exists a'. split; [reflexivity|].
  exact (proj2 (two_hundred_successes_earn_a_medal "" 0 a HANGMAN Hg Hmax Hl0 Hc0)
           a' Hrun).
Defined.

(** ** Further properties: the service worker *)

Lemma fetchAll_Some (net : Network) (urls : list string)
    (entries : list (string * Response)) :
  fetchAll net urls = Some entries →
  entries.*1 = urls ∧
  Forall (fun e => net e.1 = Some e.2 ∧ ok e.2 = true) entries.
Proof.
  revert entries. induction urls as [|url urls IH]; intros entries; cbn [fetchAll].
  - by intros [= <-].
  - destruct (net url) as [r|] eqn:Hnet; [|done].
    destruct (ok r) eqn:Hok; [|done].
    destruct (fetchAll net urls) as [rest|]; [|done]. intros [= <-].
    destruct (IH rest eq_refl) as [Hurls Hall]. cbn. split; [by rewrite Hurls|].
    by constructor.
Qed.

Lemma fetchAll_is_Some (net : Network) (urls : list string) :
  is_Some (fetchAll net urls) ↔
  ∀ url, url ∈ urls → ∃ r, net url = Some r ∧ ok r = true.
Proof.
  induction urls as [|url urls IH]; cbn [fetchAll].
  - split; [|by eexists]. intros _ url Hin. by apply elem_of_nil in Hin.
  - split.
    + destruct (net url) as [r|] eqn:Hnet; [|by intros [? ?]].
      destruct (ok r) eqn:Hok; [|by intros [? ?]].
      destruct (fetchAll net urls) as [rest|]; [|by intros [? ?]].
      intros _ u [->|Hin]%elem_of_cons; [by exists r|].
      apply IH; [by eexists|done].
    + intros Hall.
      destruct (Hall url (list_elem_of_here _ _)) as (r & -> & ->).
      destruct (proj2 IH) as [rest ->]; [|by eexists].
      intros u Hu. apply Hall. by apply list_elem_of_further.
Qed.

Lemma putAll_lookup_ne (entries : list (string * Response)) (c : Cache) (url : string) :
  url ∉ entries.*1 → putAll entries c !! url = c !! url.
Proof.
  unfold putAll. revert c. induction entries as [|e entries IH]; intros c Hout; [done|].
  cbn [fmap list_fmap] in Hout. apply not_elem_of_cons in Hout as [Hne Hout].
  cbn [foldl]. rewrite IH by done. unfold Cache in *. by rewrite lookup_insert_ne.
Qed.

Lemma putAll_lookup (entries : list (string * Response)) (c : Cache)
    (url : string) (r : Response) :
  NoDup entries.*1 → (url, r) ∈ entries → putAll entries c !! url = Some r.
Proof.
  revert c. induction entries as [|e entries IH]; intros c Hnd Hin.
  - by apply elem_of_nil in Hin.
  - cbn [fmap list_fmap] in Hnd. apply NoDup_cons in Hnd as [Hout Hnd].
    apply elem_of_cons in Hin as [<-|Hin]; [|by apply IH].
    change (putAll entries (<[url := r]> c) !! url = Some r).
    rewrite putAll_lookup_ne by done. unfold Cache in *. apply lookup_insert_eq.
Qed.

Lemma caches_match_update (entries : list (string * Response)) (name url : string)
    (caches : CacheStorage) :
  url ∉ entries.*1 →
  caches_match
    ((fun nc => if decide (nc.1 = name) then (nc.1, putAll entries nc.2) else nc)
       <$> caches) url
  = caches_match caches url.
Proof.
  intros Hout. induction caches as [|[n c] caches IH]; [done|].
  cbn [fmap list_fmap caches_match fst snd]. rewrite IH.
  case_decide; [|done]. cbn. by rewrite putAll_lookup_ne.
Qed.

Lemma caches_match_open (name url : string) (caches : CacheStorage) :
  caches_match (caches_open name caches) url = caches_match caches url.
Proof.
  unfold caches_open. case_decide; [done|].
  induction caches as [|[n c] caches IH]; [done|].
  cbn [app caches_match]. destruct (c !! url); [done|]. apply IH.
  intros Hin. apply H. cbn. by apply list_elem_of_further.
Qed.

Lemma caches_match_named (entries : list (string * Response)) (name url : string)
    (r : Response) (caches : CacheStorage) :
  NoDup entries.*1 → (url, r) ∈ entries → name ∈ caches.*1 →
  ∃ r', caches_match
          ((fun nc => if decide (nc.1 = name) then (nc.1, putAll entries nc.2) else nc)
             <$> caches) url = Some r' ∧
        (caches_match caches url = None → r' = r).
Proof.
  intros Hnd Hin Hname. induction caches as [|[n c] caches IH].
  - by apply elem_of_nil in Hname.
  - cbn [fmap list_fmap caches_match fst snd] in *.
    destruct (decide (n = name)) as [->|Hne].
    + cbn [fst snd]. rewrite (putAll_lookup entries c url r Hnd Hin).
      exists r. done.
    + apply elem_of_cons in Hname as [?|Hname]; [congruence|].
      destruct (c !! url) as [r0|]; [by exists r0|]. by apply IH.
Qed.

Lemma onInstall_Some (net0 : Network) (caches caches' : CacheStorage) :
  onInstall net0 caches = (caches', true) →
  ∃ entries,
    entries.*1 = ASSETS ∧ NoDup entries.*1 ∧
    Forall (fun e => net0 e.1 = Some e.2 ∧ ok e.2 = true) entries ∧
    caches' = (fun nc => if decide (nc.1 = CACHE_NAME)
                         then (nc.1, putAll entries nc.2) else nc)
                <$> caches_open CACHE_NAME caches.
Proof.
  unfold onInstall, cache_addAll.
  destruct (fetchAll net0 ASSETS) as [entries|] eqn:Hfetch;
    cbn [mbind option_bind]; [|done].
  intros [= <-]. exists entries.
  apply fetchAll_Some in Hfetch as [Hurls Hall].
  split; [done|]. split; [rewrite Hurls; compute_done|done].
Qed.

(** X25. Once the worker is installed, every file of its asset list is
    answered from the cache whatever the network does afterwards, so the
    listed files are available offline; in a browser that held none of them
    before, the answer is the response fetched at installation, which was
    [ok].  A request that no cache holds is passed to the network, and its
    response is not stored. *)
Theorem precached_assets_answered_offline
    (net0 : Network) (caches caches' : CacheStorage) :
  onInstall net0 caches = (caches', true) →
  (∀ url, url ∈ ASSETS →
     ∀ net, ∃ r,
       onFetch net caches' url = Some r ∧
       (caches_match caches url = None → net0 url = Some r ∧ ok r = true)) ∧
  (∀ url, url ∉ ASSETS → caches_match caches url = None →
     ∀ net, onFetch net caches' url = net url).
Proof.
  intros Hinstall.
  apply onInstall_Some in Hinstall as (entries & Hurls & Hnd & Hall & ->).
  split.
  - intros url Hin net. rewrite <- Hurls in Hin.
    apply list_elem_of_fmap in Hin as ([u r] & -> & Hin). cbn [fst].
    destruct (caches_match_named entries CACHE_NAME u r
                (caches_open CACHE_NAME caches) Hnd Hin) as (r' & Hmatch & Hfresh).
    { unfold caches_open. case_decide; [done|].
      rewrite fmap_app. apply elem_of_app. right. apply list_elem_of_here. }
    exists r'. unfold onFetch. rewrite Hmatch. split; [done|].
    intros Hnone. rewrite caches_match_open in Hfresh. rewrite (Hfresh Hnone).
    by apply (proj1 (Forall_forall _ _) Hall (u, r)).
  - intros url Hout Hnone net. unfold onFetch.
    rewrite caches_match_update by (by rewrite Hurls).
    by rewrite caches_match_open, Hnone.
Qed.

Lemma precached_assets_answered_offline_witness :
  let net0 : Network := fun url => Some {| ok := true; body := url |} in
  ∃ r, onFetch (fun _ => None) (onInstall net0 []).1 "/main.js" = Some r ∧
       net0 "/main.js" = Some r.
Proof.
  intros net0.
  destruct (onInstall net0 []) as [caches' installed] eqn:Hinstall.
  assert (Hok : installed = true)
    by (apply (f_equal snd) in Hinstall; vm_compute in Hinstall; congruence).
  subst installed.
  destruct (proj1 (precached_assets_answered_offline net0 [] caches' Hinstall)
              "/main.js" ltac:(compute_done) (fun _ => None)) as (r & Hr & Hfresh).
  exists r. split; [exact Hr|]. exact (proj1 (Hfresh eq_refl)).
Defined.

(** X26. Installation is all or nothing: the worker is installed exactly
    when every file of the asset list is fetched with an [ok] response; when
    one fetch fails or is not [ok], nothing is stored, and the caches answer
    as they did before. *)
Theorem install_all_or_nothing (net : Network) (caches : CacheStorage) :
  ((onInstall net caches).2 = true ↔
   ∀ url, url ∈ ASSETS → ∃ r, net url = Some r ∧ ok r = true) ∧
  ((onInstall net caches).2 = false →
   ∀ url, caches_match (onInstall net caches).1 url = caches_match caches url).
Proof.
  unfold onInstall, cache_addAll.
  pose proof (fetchAll_is_Some net ASSETS) as Hiff.
  destruct (fetchAll net ASSETS) as [entries|]; cbn [mbind option_bind fst snd].
  - split; [|done]. split; [intros _; by apply Hiff|done].
  - split.
    + split; [done|]. intros Hall. by destruct (proj2 Hiff Hall).
    + intros _ url. apply caches_match_open.
Qed.

(** X27. The pictures of the word-guessing game and the asset list: every
    picture of [guessPool] is in the asset list of the worker except
    [apple.png]; so after installation in a browser without other caches the
    picture of the first level is the one request of the game that still
    depends on the network. *)
Theorem guess_pictures_precached_but_one :
  (∀ item, item ∈ guessPool →
     ("/" +:+ img item ∈ ASSETS ↔ img item ≠ "apple.png")) ∧
  ∀ net0 caches',
    onInstall net0 [] = (caches', true) →
    ∀ net item, item ∈ guessPool →
      onFetch net caches' ("/" +:+ img item)
      = if decide (img item = "apple.png") then net "/apple.png"
        else net0 ("/" +:+ img item).
Proof.
  assert (Hpics : ∀ item, item ∈ guessPool →
            ("/" +:+ img item ∈ ASSETS ↔ img item ≠ "apple.png")).
  { intros item Hin.
    assert (Hall : Forall (fun item =>
                     bool_decide ("/" +:+ img item ∈ ASSETS)
                     = bool_decide (img item ≠ "apple.png")) guessPool)
      by (repeat constructor).
    pose proof (proj1 (Forall_forall _ _) Hall item Hin) as Heq.
    by rewrite <- (bool_decide_eq_true ("/" +:+ img item ∈ ASSETS)), Heq,
         bool_decide_eq_true. }
  split; [done|].
  intros net0 caches' Hinstall net item Hin.
  apply onInstall_Some in Hinstall as (entries & Hurls & Hnd & Hall & ->).
  unfold onFetch, caches_open. rewrite decide_False by apply not_elem_of_nil.
  cbn [app fmap list_fmap caches_match fst snd]. rewrite decide_True by done.
  cbn [fst snd]. unfold Cache in *.
  case_decide as Happle.
  - rewrite Happle, putAll_lookup_ne by (rewrite Hurls; compute_done).
    unfold Cache. by rewrite lookup_empty.
  - pose proof (proj2 (Hpics item Hin) Happle) as Hasset.
    rewrite <- Hurls in Hasset.
    apply list_elem_of_fmap in Hasset as ([u r] & Hu & Hentry). cbn [fst] in Hu.
    rewrite Hu, (putAll_lookup entries ∅ u r Hnd Hentry).
    destruct (proj1 (Forall_forall _ _) Hall (u, r) Hentry) as [Hnet _].
    cbn [fst snd] in Hnet. by rewrite Hnet.
Qed.
